(** * gitg-runner: line segmentation and run life cycle

    A shallow embedding of [libgitg/gitg-runner.c].  Buffers are lists of
    [gchar] (8-bit [ascii]); a pointer pair [(ptr, end)] into a buffer is the
    list of the bytes from [ptr] up to [end]; the byte stored at [end] is the
    terminating NUL that both [read_buffer[read] = '\0'] and [GString]
    guarantee, so reading past the list yields [zero]. *)

From Stdlib Require Import List Ascii NArith ZArith PArith Bool Arith Lia.
Import ListNotations.

(** ** The GLib primitives the scanner calls *)

Module GLib.

Local Open Scope N_scope.

Abbreviation gchar := ascii (only parsing).
Abbreviation gunichar := N (only parsing).

(** [(gunichar) -1] *)
Definition gunichar_minus_one : gunichar := 4294967295.

Definition guchar_of (c : gchar) : N := N_of_ascii c.

(** The table [g_utf8_skip], indexed by the first byte of a character. *)
Definition g_utf8_skip (c : N) : nat :=
  if c <? 192 then 1%nat
  else if c <? 224 then 2%nat
  else if c <? 240 then 3%nat
  else if c <? 248 then 4%nat
  else if c <? 252 then 5%nat
  else if c <? 254 then 6%nat
  else 1%nat.

(** Number of bytes [g_utf8_next_char (p)] advances [p] by. *)
Definition next_char_skip (p : list gchar) : nat :=
  g_utf8_skip (guchar_of (hd zero p)).

(** [g_utf8_next_char (p)] is [p + g_utf8_skip[*(guchar * ) p]]. *)
Definition g_utf8_next_char (p : list gchar) : list gchar :=
  skipn (next_char_skip p) p.

(** [UTF8_COMPUTE (Char, Mask, Len)]; [None] stands for [Len = -1]. *)
Definition UTF8_COMPUTE (c : N) : option (N * nat) :=
  if c <? 128 then Some (127, 1%nat)
  else if N.land c 224 =? 192 then Some (31, 2%nat)
  else if N.land c 240 =? 224 then Some (15, 3%nat)
  else if N.land c 248 =? 240 then Some (7, 4%nat)
  else if N.land c 252 =? 248 then Some (3, 5%nat)
  else if N.land c 254 =? 252 then Some (1, 6%nat)
  else None.

(** The loop of [UTF8_GET]: [count] continuation bytes are still to be
    folded into [result]. *)
Fixpoint UTF8_GET (result : N) (p : list gchar) (count : nat) : gunichar :=
  match count with
  | O => result
  | S count' =>
      let b := guchar_of (hd zero p) in
      if N.land b 192 =? 128
      then UTF8_GET (N.lor (N.shiftl result 6 mod 4294967296) (N.land b 63))
                    (tl p) count'
      else gunichar_minus_one
  end.

Definition g_utf8_get_char (p : list gchar) : gunichar :=
  let c := guchar_of (hd zero p) in
  match UTF8_COMPUTE c with
  | None => gunichar_minus_one
  | Some (mask, len) => UTF8_GET (N.land c mask) (tl p) (len - 1)
  end.

(** The bytes of a buffer read as a C string: up to the first NUL. *)
Fixpoint c_string (p : list gchar) : list gchar :=
  match p with
  | [] => []
  | c :: p' => if Ascii.eqb c zero then [] else c :: c_string p'
  end.

(** [g_strndup (str, n)]: the first [n] bytes of the allocation it returns
    (the byte after them is always NUL).  Copying stops at a NUL of the
    source and the rest is padded with NULs. *)
Definition g_strndup (str : list gchar) (n : nat) : list gchar :=
  let copied := c_string (firstn n str) in
  copied ++ repeat zero (n - length copied).

Definition LF : gchar := "010"%char.
Definition CR : gchar := "013"%char.

End GLib.

Import GLib.

(** ** The scanner: [find_newline] *)

(** The [while (ptr < end)] loop.  [ptr] is the list of bytes still ahead,
    [off] the distance of [ptr] from the pointer [find_newline] was called
    with; the result [Some (newline, line_end)] gives the returned pointer and
    [*line_end] as such distances, [None] is the [NULL] result. *)
Fixpoint find_newline_loop (fuel : nat) (ptr : list gchar) (off : nat)
  : option (nat * nat) :=
  match fuel with
  | O => None
  | S fuel' =>
      match ptr with
      | [] => None
      | _ :: _ =>
          let c := g_utf8_get_char ptr in
          if N.eqb c (guchar_of LF) then
            Some (off, off + next_char_skip ptr)
          else if N.eqb c (guchar_of CR) then
            let next := g_utf8_next_char ptr in
            match next with
            | _ :: _ =>
                let n := g_utf8_get_char next in
                if N.eqb n (guchar_of LF)
                then Some (off, off + next_char_skip ptr + next_char_skip next)
                else Some (off, off + next_char_skip ptr)
            | [] => None
            end
          else
            find_newline_loop fuel' (g_utf8_next_char ptr)
                              (off + next_char_skip ptr)
      end
  end.

(** Every iteration advances [ptr] by at least one byte, so [length ptr]
    iterations are enough. *)
Definition find_newline (ptr : list gchar) : option (nat * nat) :=
  find_newline_loop (length ptr) ptr 0.

(** The [while ((newline = find_newline (ptr, end, &line_end)))] loop of
    [parse_lines]: returns the lines stored in [runner->priv->lines] and the
    final [ptr]. *)
Fixpoint parse_lines_loop (fuel : nat) (preserve_line_endings : bool)
         (ptr : list gchar) (lines : list (list gchar))
  : list (list gchar) * list gchar :=
  match fuel with
  | O => (lines, ptr)
  | S fuel' =>
      match find_newline ptr with
      | Some (newline, line_end) =>
          let line :=
            if preserve_line_endings
            then c_string (g_strndup ptr line_end)
            else c_string (g_strndup ptr newline) in
          parse_lines_loop fuel' preserve_line_endings
                           (skipn line_end ptr) (lines ++ [line])
      | None => (lines, ptr)
      end
  end.

(** ** The runner object *)

Inductive GInputStream :=
| g_unix_input_stream_new (fd : Z)
| g_converter_input_stream_new (base : GInputStream).

Inductive GOutputStream :=
| g_unix_output_stream_new (fd : Z).

(** A [GCancellable] object, named by the order of its allocation. *)
Definition GCancellable := nat.

Inductive GError :=
| G_SPAWN_ERROR
| G_IO_ERROR
| GITG_RUNNER_ERROR_EXIT.

(** [struct _GitgRunnerPrivate].  [rest_buffer] holds the
    [rest_buffer_size] bytes of the allocation ([[]] for [NULL]), so the size
    field is its length; [lines] is the NULL-terminated array without its
    terminator; [buffer_size] is a [guint] whose property has minimum 1. *)
Record GitgRunnerPrivate := mkPriv {
  pid : Z;
  input_stream : option GInputStream;
  output_stream : option GOutputStream;
  cancellable : GCancellable;
  buffer_size : positive;
  read_buffer : list gchar;
  lines : list (list gchar);
  environment : option (list (list gchar));
  rest_buffer : list gchar;
  exit_status : Z;
  synchronized : bool;
  preserve_line_endings : bool
}.

Definition rest_buffer_size (p : GitgRunnerPrivate) : nat :=
  length (rest_buffer p).

Definition set_pid v p :=
  mkPriv v (input_stream p) (output_stream p) (cancellable p) (buffer_size p)
         (read_buffer p) (lines p) (environment p) (rest_buffer p)
         (exit_status p) (synchronized p) (preserve_line_endings p).
Definition set_input_stream v p :=
  mkPriv (pid p) v (output_stream p) (cancellable p) (buffer_size p)
         (read_buffer p) (lines p) (environment p) (rest_buffer p)
         (exit_status p) (synchronized p) (preserve_line_endings p).
Definition set_output_stream v p :=
  mkPriv (pid p) (input_stream p) v (cancellable p) (buffer_size p)
         (read_buffer p) (lines p) (environment p) (rest_buffer p)
         (exit_status p) (synchronized p) (preserve_line_endings p).
Definition set_cancellable v p :=
  mkPriv (pid p) (input_stream p) (output_stream p) v (buffer_size p)
         (read_buffer p) (lines p) (environment p) (rest_buffer p)
         (exit_status p) (synchronized p) (preserve_line_endings p).
Definition set_read_buffer v p :=
  mkPriv (pid p) (input_stream p) (output_stream p) (cancellable p)
         (buffer_size p) v (lines p) (environment p) (rest_buffer p)
         (exit_status p) (synchronized p) (preserve_line_endings p).
Definition set_lines v p :=
  mkPriv (pid p) (input_stream p) (output_stream p) (cancellable p)
         (buffer_size p) (read_buffer p) v (environment p) (rest_buffer p)
         (exit_status p) (synchronized p) (preserve_line_endings p).
Definition set_environment v p :=
  mkPriv (pid p) (input_stream p) (output_stream p) (cancellable p)
         (buffer_size p) (read_buffer p) (lines p) v (rest_buffer p)
         (exit_status p) (synchronized p) (preserve_line_endings p).
Definition set_rest_buffer v p :=
  mkPriv (pid p) (input_stream p) (output_stream p) (cancellable p)
         (buffer_size p) (read_buffer p) (lines p) (environment p) v
         (exit_status p) (synchronized p) (preserve_line_endings p).
Definition set_exit_status v p :=
  mkPriv (pid p) (input_stream p) (output_stream p) (cancellable p)
         (buffer_size p) (read_buffer p) (lines p) (environment p)
         (rest_buffer p) v (synchronized p) (preserve_line_endings p).
Definition set_preserve_line_endings v p :=
  mkPriv (pid p) (input_stream p) (output_stream p) (cancellable p)
         (buffer_size p) (read_buffer p) (lines p) (environment p)
         (rest_buffer p) (exit_status p) (synchronized p) v.

(** The signals of the class: [begin-loading], [update] with the line array
    it carries (each line as the C string the subscriber reads), and
    [end-loading] with its [cancelled] flag. *)
Inductive Signal :=
| BEGIN_LOADING
| UPDATE (lines : list (list gchar))
| END_LOADING (cancelled : bool).

Record AsyncData := async_data_new { data_cancellable : GCancellable }.

(** An asynchronous request handed to the main loop; its callback runs when
    the main loop completes it. *)
Inductive AsyncRequest :=
| g_output_stream_write_async (stream : option GOutputStream)
    (buffer : list gchar) (c : GCancellable) (data : AsyncData)
| g_input_stream_read_async (stream : option GInputStream)
    (c : GCancellable) (data : AsyncData).

(** The runner together with the part of the process it shares state with:
    which cancellables were cancelled, the next one [g_cancellable_new]
    returns, and the requests queued at the main loop. *)
Record Machine := mkMachine {
  priv : GitgRunnerPrivate;
  cancelled : list GCancellable;
  next_cancellable : GCancellable;
  main_context : list AsyncRequest
}.

(** ** State and signal-trace monad *)

Definition M (A : Type) : Type := Machine -> A * Machine * list Signal.

Definition ret {A} (a : A) : M A := fun m => (a, m, []).

Definition bind {A B} (c : M A) (k : A -> M B) : M B :=
  fun m =>
    let '(a, m1, t1) := c m in
    let '(b, m2, t2) := k a m1 in
    (b, m2, t1 ++ t2).

Declare Scope runner_scope.
Delimit Scope runner_scope with runner.
Notation "x <- c ;; k" := (bind c (fun x => k))
  (at level 61, c at next level, right associativity) : runner_scope.
Notation "c ;; k" := (bind c (fun _ => k))
  (at level 61, right associativity) : runner_scope.
Local Open Scope runner_scope.

Definition get_priv : M GitgRunnerPrivate := fun m => (priv m, m, []).

Definition with_priv (f : GitgRunnerPrivate -> GitgRunnerPrivate)
           (m : Machine) : Machine :=
  mkMachine (f (priv m)) (cancelled m) (next_cancellable m) (main_context m).

Definition update_priv (f : GitgRunnerPrivate -> GitgRunnerPrivate) : M unit :=
  fun m => (tt, with_priv f m, []).

Definition g_signal_emit (s : Signal) : M unit := fun m => (tt, m, [s]).

Definition g_cancellable_cancel (c : GCancellable) : M unit :=
  fun m =>
    (tt, mkMachine (priv m) (c :: cancelled m) (next_cancellable m)
                   (main_context m), []).

Definition g_cancellable_new : M GCancellable :=
  fun m =>
    (next_cancellable m,
     mkMachine (priv m) (cancelled m) (S (next_cancellable m))
               (main_context m), []).

Definition g_cancellable_is_cancelled (c : GCancellable) : M bool :=
  fun m => (existsb (Nat.eqb c) (cancelled m), m, []).

Definition main_context_push (r : AsyncRequest) : M unit :=
  fun m =>
    (tt, mkMachine (priv m) (cancelled m) (next_cancellable m)
                   (main_context m ++ [r]), []).

Definition result_of {A} (x : A * Machine * list Signal) : A := fst (fst x).
Definition machine_of {A} (x : A * Machine * list Signal) : Machine :=
  snd (fst x).
Definition signals_of {A} (x : A * Machine * list Signal) : list Signal :=
  snd x.

(** ** The functions of gitg-runner.c *)

Definition EXIT_SUCCESS : Z := 0.
Definition EXIT_FAILURE : Z := 1.

Definition runner_io_exit (pid_ : Z) (status : Z) : M unit :=
  p <- get_priv ;;
  if Z.eqb (pid p) 0 then ret tt
  else update_priv (fun p => set_exit_status status (set_pid 0%Z p)).

Definition free_lines : M unit := update_priv (set_lines []).

Definition parse_lines (buffer : list gchar) : M unit :=
  free_lines ;;
  p <- get_priv ;;
  all <- (if Nat.ltb 0 (rest_buffer_size p)
          then update_priv (set_rest_buffer []) ;;
               ret (rest_buffer p ++ buffer)
          else ret buffer) ;;
  let '(found, ptr) :=
    parse_lines_loop (S (length all)) (preserve_line_endings p) all [] in
  (match ptr with
   | _ :: _ => update_priv (set_rest_buffer (g_strndup ptr (length ptr)))
   | [] => ret tt
   end) ;;
  update_priv (set_lines found) ;;
  g_signal_emit (UPDATE found).

Definition close_streams : M unit :=
  update_priv (set_output_stream None) ;;
  update_priv (set_input_stream None) ;;
  update_priv (set_rest_buffer []).

Definition emit_rest : M unit :=
  p <- get_priv ;;
  if Nat.ltb 0 (rest_buffer_size p) then
    (if negb (preserve_line_endings p)
        && Ascii.eqb (last (rest_buffer p) zero) CR
     then update_priv (set_rest_buffer (removelast (rest_buffer p) ++ [zero]))
     else ret tt) ;;
    p' <- get_priv ;;
    g_signal_emit (UPDATE [c_string (rest_buffer p')])
  else ret tt.

(** What the operating system and the child answer during one run:
    whether [g_spawn_async_with_pipes] succeeds for the arguments it is given
    (working directory, argv, environment, whether stdin is piped) and with
    which pid and descriptors; whether [g_output_stream_write_all] succeeds;
    what the successive [g_input_stream_read_all] calls store ([None] for a
    failed read, the stream being at its end once the list is used up); and
    the status [waitpid] stores. *)
Record World := mkWorld {
  g_spawn_async_with_pipes :
    option (list gchar) -> list (list gchar) -> option (list (list gchar)) ->
    bool -> option (positive * Z * Z);
  g_output_stream_write_all : bool;
  g_input_stream_read_all : list (option (list gchar));
  waitpid : Z
}.

(** The [while (read == runner->priv->buffer_size)] loop of [run_sync];
    [false] is the early [return FALSE] of a failed read.  [buffer_size] is at
    least 1 (the minimum of the property), so a read of 0 bytes leaves the
    loop. *)
Fixpoint run_sync_loop (reads : list (option (list gchar))) : M bool :=
  match reads with
  | [] =>
      update_priv (set_read_buffer []) ;;
      parse_lines [] ;;
      ret true
  | None :: _ =>
      p <- get_priv ;;
      runner_io_exit (pid p) 1 ;;
      close_streams ;;
      g_signal_emit (END_LOADING true) ;;
      ret false
  | Some chunk :: reads' =>
      update_priv (set_read_buffer chunk) ;;
      parse_lines chunk ;;
      p <- get_priv ;;
      if Nat.eqb (length chunk) (Pos.to_nat (buffer_size p))
      then run_sync_loop reads'
      else ret true
  end.

(** [run_sync], called with a non-NULL [error] location; the result pairs the
    returned [gboolean] with what [*error] holds. *)
Definition run_sync (input : option (list gchar)) (w : World)
  : M (bool * option GError) :=
  let reading :=
    ok <- run_sync_loop (g_input_stream_read_all w) ;;
    if ok then
      emit_rest ;;
      let status := waitpid w in
      p <- get_priv ;;
      runner_io_exit (pid p) status ;;
      close_streams ;;
      g_signal_emit (END_LOADING false) ;;
      ret (Z.eqb status EXIT_SUCCESS,
           if negb (Z.eqb status 0) then Some GITG_RUNNER_ERROR_EXIT else None)
    else ret (false, Some G_IO_ERROR) in
  match input with
  | Some _ =>
      if negb (g_output_stream_write_all w) then
        p <- get_priv ;;
        runner_io_exit (pid p) 1 ;;
        close_streams ;;
        g_signal_emit (END_LOADING false) ;;
        ret (false, Some G_IO_ERROR)
      else reading
  | None => reading
  end.

Definition async_failed (data : AsyncData) : M unit :=
  p <- get_priv ;;
  runner_io_exit (pid p) 1 ;;
  close_streams ;;
  g_signal_emit (END_LOADING true).

Definition start_reading (data : AsyncData) : M unit :=
  p <- get_priv ;;
  main_context_push
    (g_input_stream_read_async (input_stream p) (cancellable p) data).

(** The callback of a read: [result] is what [g_input_stream_read_finish]
    returns ([None] for -1, otherwise the bytes stored in [read_buffer]) and
    [status] what [waitpid] stores if it is reached. *)
Definition read_output_ready (stream : option GInputStream)
           (result : option (list gchar)) (data : AsyncData) (status : Z)
  : M unit :=
  c <- g_cancellable_is_cancelled (data_cancellable data) ;;
  if c then ret tt
  else
    match result with
    | None => async_failed data
    | Some [] =>
        emit_rest ;;
        p <- get_priv ;;
        runner_io_exit (pid p) status ;;
        close_streams ;;
        g_signal_emit (END_LOADING false)
    | Some chunk =>
        update_priv (set_read_buffer chunk) ;;
        parse_lines chunk ;;
        c' <- g_cancellable_is_cancelled (data_cancellable data) ;;
        if c' then ret tt else start_reading data
    end.

(** The callback of the write of the input; [ok] is false when
    [g_output_stream_write_finish] set an error.  The cancelled branch only
    frees [data] and falls through. *)
Definition write_input_ready (stream : option GOutputStream) (ok : bool)
           (data : AsyncData) : M unit :=
  c <- g_cancellable_is_cancelled (data_cancellable data) ;;
  (if c then ret tt else ret tt) ;;
  if negb ok then async_failed data else start_reading data.

(** [kill] and [g_child_watch_add] act on the child only; they leave the
    runner and the signals it emits as they are. *)
Definition gitg_runner_cancel : M unit :=
  p <- get_priv ;;
  match input_stream p with
  | Some _ =>
      g_cancellable_cancel (cancellable p) ;;
      c <- g_cancellable_new ;;
      update_priv (set_cancellable c) ;;
      p' <- get_priv ;;
      (if negb (Z.eqb (pid p') 0)
       then runner_io_exit (pid p') EXIT_FAILURE
       else ret tt) ;;
      close_streams ;;
      g_signal_emit (END_LOADING true)
  | None => ret tt
  end.

Definition gitg_runner_run_streams (input_stream_ : option GInputStream)
           (output_stream_ : option GOutputStream)
           (input : option (list gchar)) (w : World)
  : M (bool * option GError) :=
  gitg_runner_cancel ;;
  (match output_stream_ with
   | Some o => update_priv (set_output_stream (Some o))
   | None => ret tt
   end) ;;
  (match input_stream_ with
   | Some i =>
       update_priv (set_input_stream (Some (g_converter_input_stream_new i)))
   | None => ret tt
   end) ;;
  g_signal_emit BEGIN_LOADING ;;
  p <- get_priv ;;
  if synchronized p then run_sync input w
  else
    let data := async_data_new (cancellable p) in
    (match input with
     | Some text =>
         main_context_push
           (g_output_stream_write_async (output_stream p) text
                                        (cancellable p) data)
     | None => start_reading data
     end) ;;
    ret (true, None).

Definition gitg_runner_run_with_arguments (work_tree : option (list gchar))
           (argv : list (list gchar)) (input : option (list gchar))
           (w : World) : M (bool * option GError) :=
  gitg_runner_cancel ;;
  p <- get_priv ;;
  match g_spawn_async_with_pipes w work_tree argv (environment p)
          (match input with Some _ => true | None => false end) with
  | None =>
      update_priv (set_pid 0%Z) ;;
      ret (false, Some G_SPAWN_ERROR)
  | Some (child, stdinf, stdoutf) =>
      update_priv (set_pid (Zpos child)) ;;
      let output_stream_ :=
        match input with
        | Some _ => Some (g_unix_output_stream_new stdinf)
        | None => None
        end in
      gitg_runner_run_streams (Some (g_unix_input_stream_new stdoutf))
                              output_stream_ input w
  end.

Definition gitg_runner_run (argv : list (list gchar)) (w : World)
  : M (bool * option GError) :=
  gitg_runner_run_with_arguments None argv None w.

Definition gitg_runner_run_stream (stream : option GInputStream) (w : World)
  : M (bool * option GError) :=
  gitg_runner_run_streams stream None None w.

Definition gitg_runner_running (p : GitgRunnerPrivate) : bool :=
  match input_stream p with Some _ => true | None => false end.

Definition gitg_runner_get_exit_status (p : GitgRunnerPrivate) : Z :=
  exit_status p.

Definition gitg_runner_get_buffer_size (p : GitgRunnerPrivate) : positive :=
  buffer_size p.

Definition gitg_runner_get_preserve_line_endings (p : GitgRunnerPrivate)
  : bool := preserve_line_endings p.

Definition gitg_runner_set_preserve_line_endings (v : bool) : M unit :=
  update_priv (set_preserve_line_endings v).

(** The object [g_object_new] returns: zeroed private data, the cancellable
    of [gitg_runner_init], and the construct properties. *)
Definition new_runner (buffer_size_ : positive) (synchronized_ : bool)
  : Machine :=
  mkMachine
    (mkPriv 0%Z None None 0%nat buffer_size_ [] [] None [] 0%Z
            synchronized_ false)
    [] 1%nat [].

Definition gitg_runner_new (buffer_size_ : positive) : Machine :=
  new_runner buffer_size_ false.

Definition gitg_runner_new_synchronized (buffer_size_ : positive) : Machine :=
  new_runner buffer_size_ true.

(** ** The main loop, for asynchronous runs *)

(** One iteration: the oldest queued request completes with [result] ([None]
    for a failure, otherwise the bytes transferred) and its callback runs. *)
Definition main_context_iteration (result : option (list gchar))
           (status : Z) : M unit :=
  fun m =>
    match main_context m with
    | [] => (tt, m, [])
    | req :: queue =>
        let m' := mkMachine (priv m) (cancelled m) (next_cancellable m) queue in
        match req with
        | g_output_stream_write_async stream _ _ data =>
            write_input_ready stream
              (match result with Some _ => true | None => false end) data m'
        | g_input_stream_read_async stream _ data =>
            read_output_ready stream result data status m'
        end
    end.

Fixpoint main_loop (results : list (option (list gchar))) (status : Z)
  : M unit :=
  match results with
  | [] => ret tt
  | r :: results' =>
      main_context_iteration r status ;; main_loop results' status
  end.

(** ** Feeding chunks to the segmenter *)

(** The successive [parse_lines] calls of a run followed by [emit_rest]. *)
Fixpoint feed (chunks : list (list gchar)) : M unit :=
  match chunks with
  | [] => emit_rest
  | chunk :: chunks' => parse_lines chunk ;; feed chunks'
  end.

(** The lines of all [update] signals of a trace, in emission order. *)
Fixpoint emitted_lines (t : list Signal) : list (list gchar) :=
  match t with
  | [] => []
  | UPDATE ls :: t' => ls ++ emitted_lines t'
  | _ :: t' => emitted_lines t'
  end.

Definition txt (l : list nat) : list gchar := map ascii_of_nat l.

(** A runner that only segments: fresh, with the given line-ending policy. *)
Definition segmenter (preserve : bool) : Machine :=
  with_priv (set_preserve_line_endings preserve) (gitg_runner_new 1).

(** ** Predicates on buffers and traces *)

(** A text in the sense of C: no byte is NUL. *)
Definition nul_free (l : list gchar) : bool :=
  forallb (fun c => negb (Ascii.eqb c zero)) l.

Definition is_continuation (c : gchar) : bool :=
  N.eqb (N.land (guchar_of c) 192) 128.

(** Every byte [g_utf8_next_char] jumps over is a continuation byte
    ([10xxxxxx]); [pending] bytes of the current character are still ahead.
    UTF-8 text has this shape, and so has UTF-8 text cut anywhere. *)
Fixpoint utf8_continuations (pending : nat) (l : list gchar) : bool :=
  match l with
  | [] => true
  | c :: l' =>
      match pending with
      | O => utf8_continuations (g_utf8_skip (guchar_of c) - 1) l'
      | S k => is_continuation c && utf8_continuations k l'
      end
  end.

(** No byte is a line feed, and a carriage return can only be the last
    byte. *)
Fixpoint terminator_free (l : list gchar) : Prop :=
  match l with
  | [] => True
  | c :: l' => c <> LF /\ (c = CR -> l' = []) /\ terminator_free l'
  end.

Definition is_end_loading (s : Signal) : bool :=
  match s with END_LOADING _ => true | _ => false end.

Definition is_update (s : Signal) : bool :=
  match s with UPDATE _ => true | _ => false end.

(** Cancellables are handed out in order: the runner's own one is live and
    every cancelled one is older than the next to be allocated. *)
Definition cancellable_fresh (m : Machine) : Prop :=
  (cancellable (priv m) < next_cancellable m)%nat /\
  existsb (Nat.eqb (cancellable (priv m))) (cancelled m) = false /\
  Forall (fun c => (c < next_cancellable m)%nat) (cancelled m).

(** ** Shapes of machines and queues used in the statements *)

(** The fields a failed or cancelled run is left with. *)
Definition reaped (status : Z) (p : GitgRunnerPrivate) : GitgRunnerPrivate :=
  if Z.eqb (pid p) 0 then p else set_exit_status status (set_pid 0%Z p).

Definition closed (p : GitgRunnerPrivate) : GitgRunnerPrivate :=
  set_rest_buffer [] (set_input_stream None (set_output_stream None p)).

Definition cancel_machine (m : Machine) : Machine :=
  mkMachine
    (closed (reaped EXIT_FAILURE (set_cancellable (next_cancellable m) (priv m))))
    (cancellable (priv m) :: cancelled m)
    (S (next_cancellable m))
    (main_context m).

Definition failed_machine (m : Machine) : Machine :=
  with_priv closed (with_priv (reaped 1) m).

(** Everything of the machine but the buffers [read_buffer], [lines] and
    [rest_buffer], which reading and segmenting alone change. *)
Definition control (m : Machine) :=
  (pid (priv m), input_stream (priv m), output_stream (priv m),
   cancellable (priv m), buffer_size (priv m), environment (priv m),
   exit_status (priv m), synchronized (priv m),
   preserve_line_endings (priv m),
   cancelled m, next_cancellable m, main_context m).

Definition attach_streams (i : option GInputStream) (o : option GOutputStream)
           (p : GitgRunnerPrivate) : GitgRunnerPrivate :=
  let p1 := match o with Some o' => set_output_stream (Some o') p | None => p end in
  match i with
  | Some i' => set_input_stream (Some (g_converter_input_stream_new i')) p1
  | None => p1
  end.

(** The request an asynchronous run queues before [run] returns. *)
Definition first_request (input : option (list gchar)) (p : GitgRunnerPrivate)
  : AsyncRequest :=
  match input with
  | Some text =>
      g_output_stream_write_async (output_stream p) text (cancellable p)
                                  (async_data_new (cancellable p))
  | None =>
      g_input_stream_read_async (input_stream p) (cancellable p)
                                (async_data_new (cancellable p))
  end.

Definition with_queue (q : list AsyncRequest) (m : Machine) : Machine :=
  mkMachine (priv m) (cancelled m) (next_cancellable m) q.

(** The completions the main loop delivers to an asynchronous run whose
    write succeeds and whose child writes the chunks the world lists and then
    closes its output. *)
Definition async_completions (input : option (list gchar)) (w : World)
  : list (option (list gchar)) :=
  (match input with Some text => [Some text] | None => [] end)
    ++ g_input_stream_read_all w ++ [Some []].

(** The machine on which [gitg_runner_run_streams] starts the run after a
    successful spawn. *)
Definition spawned_machine (m : Machine) (child : positive)
           (i : option GInputStream) (o : option GOutputStream) : Machine :=
  with_priv (attach_streams i o)
    (machine_of
       (gitg_runner_cancel
          (with_priv (set_pid (Zpos child))
                     (machine_of (gitg_runner_cancel m))))).

(** ** Reference notions for the segmenter *)

(** UTF-8 text, possibly cut anywhere: the bytes after a lead byte are
    continuation bytes, and no multi-byte sequence is an overlong encoding of
    a line feed or a carriage return. *)
Fixpoint utf8_text (pending : nat) (l : list gchar) : bool :=
  match l with
  | [] => true
  | c :: l' =>
      match pending with
      | O =>
          (N.ltb (guchar_of c) 128
           || negb (N.eqb (g_utf8_get_char (c :: l')) (guchar_of LF)
                    || N.eqb (g_utf8_get_char (c :: l')) (guchar_of CR)))
          && utf8_text (g_utf8_skip (guchar_of c) - 1) l'
      | S k => is_continuation c && utf8_text k l'
      end
  end.

(** The boundary rule read byte by byte: a line feed ends a line; a carriage
    return ends a line together with a line feed that follows it, alone when
    another byte follows it, and not at all when it is the last byte. *)
Fixpoint byte_first_terminator (s : list gchar) (off : nat)
  : option (nat * nat) :=
  match s with
  | [] => None
  | c :: s' =>
      if Ascii.eqb c LF then Some (off, off + 1)
      else if Ascii.eqb c CR then
        match s' with
        | [] => None
        | d :: _ =>
            if Ascii.eqb d LF then Some (off, off + 2) else Some (off, off + 1)
        end
      else byte_first_terminator s' (S off)
  end.

(** The line [emit_rest] hands over for a NUL-free remainder, if any. *)
Definition flush_line (preserve : bool) (rest : list gchar)
  : list (list gchar) :=
  match rest with
  | [] => []
  | _ :: _ =>
      if negb preserve && Ascii.eqb (last rest zero) CR
      then [removelast rest] else [rest]
  end.

(** The lines of a whole text given to the segmenter in one piece and then
    flushed. *)
Definition segment_all (preserve : bool) (s : list gchar)
  : list (list gchar) :=
  fst (parse_lines_loop (S (length s)) preserve s [])
  ++ flush_line preserve (snd (parse_lines_loop (S (length s)) preserve s [])).

Definition no_terminator (l : list gchar) : Prop := ~ In LF l /\ ~ In CR l.

Definition prefix_of (s p : list gchar) : Prop := exists t, p = s ++ t.

(** What the segmenter reads of the runner: remainder and policy. *)
Definition segmenter_state (m : Machine) : list gchar * bool :=
  (rest_buffer (priv m), preserve_line_endings (priv m)).

(** ** The environment given to the child *)

(** The environment of the calling process as GLib shows it: the names
    [g_listenv] returns and the value [g_getenv] finds for a name. *)
Record ProcessEnvironment := mkProcessEnvironment {
  g_listenv : list (list gchar);
  g_getenv : list gchar -> option (list gchar)
}.

(** [g_strconcat (name, "=", value, NULL)]; a NULL [value] ends the argument
    list early. *)
Definition environment_entry (name : list gchar) (value : option (list gchar))
  : list gchar :=
  name ++ ["="%char] ++ match value with Some v => v | None => [] end.

(** [gitg_runner_set_environment]: the array is copied string by string,
    [NULL] stays [NULL]. *)
Definition gitg_runner_set_environment
           (environment_ : option (list (list gchar))) : M unit :=
  update_priv (set_environment environment_).

Definition gitg_runner_add_environment (key value : list gchar)
           (e : ProcessEnvironment) : M unit :=
  p <- get_priv ;;
  (match environment p with
   | None =>
       update_priv
         (set_environment
            (Some (map (fun name => environment_entry name (g_getenv e name))
                       (g_listenv e))))
   | Some _ => ret tt
   end) ;;
  p' <- get_priv ;;
  update_priv
    (set_environment
       (Some (match environment p' with Some env => env | None => [] end
              ++ [environment_entry key (Some value)]))).

(** Several variables added one after the other. *)
Fixpoint add_environment_all (entries : list (list gchar * list gchar))
         (e : ProcessEnvironment) : M unit :=
  match entries with
  | [] => ret tt
  | (key, value) :: entries' =>
      gitg_runner_add_environment key value e ;;
      add_environment_all entries' e
  end.

(** What the runner records of its child: the pid and the exit status. *)
Definition child_record (m : Machine) : Z * Z :=
  (pid (priv m), exit_status (priv m)).

(** A queued request is the read of the child's output. *)
Definition is_read (r : AsyncRequest) : bool :=
  match r with
  | g_input_stream_read_async _ _ _ => true
  | g_output_stream_write_async _ _ _ _ => false
  end.

(** What a run that is not cancelled leaves alone: the configuration of the
    runner and its cancellables. *)
Definition settings (m : Machine) :=
  (cancellable (priv m), buffer_size (priv m), environment (priv m),
   synchronized (priv m), preserve_line_endings (priv m),
   cancelled m, next_cancellable m).

(** A runner between two runs: no stream, no child, no remainder, nothing
    queued in the main loop, and a cancellable that was never cancelled. *)
Definition idle_ready (m : Machine) : Prop :=
  gitg_runner_running (priv m) = false
  /\ pid (priv m) = 0%Z
  /\ rest_buffer (priv m) = []
  /\ main_context m = []
  /\ cancellable_fresh m.

(** The successive [parse_lines] calls of a run, without the final
    [emit_rest]. *)
Fixpoint passes (chunks : list (list gchar)) : M unit :=
  match chunks with
  | [] => ret tt
  | chunk :: chunks' => parse_lines chunk ;; passes chunks'
  end.

(** The lines of a text that end in a terminator, and what follows the last
    of them. *)
Definition complete_lines (preserve : bool) (s : list gchar)
  : list (list gchar) :=
  fst (parse_lines_loop (S (length s)) preserve s []).

Definition unfinished_line (preserve : bool) (s : list gchar) : list gchar :=
  snd (parse_lines_loop (S (length s)) preserve s []).

(** * Properties *)

(** ** The scanner on small buffers *)

Example find_newline_lf :
  find_newline (txt [97; 10; 98]) = Some (1, 2)%nat.
Proof. reflexivity. Qed.

Example find_newline_crlf :
  find_newline (txt [97; 13; 10; 98]) = Some (1, 3)%nat.
Proof. reflexivity. Qed.

Example find_newline_lone_cr :
  find_newline (txt [97; 13; 98]) = Some (1, 2)%nat.
Proof. reflexivity. Qed.

Example find_newline_cr_last :
  find_newline (txt [97; 13]) = None.
Proof. reflexivity. Qed.

(** The two bytes of U+00E9 are stepped over as one character. *)
Example find_newline_two_byte_character :
  find_newline (txt [195; 169; 13; 98]) = Some (2, 3)%nat.
Proof. reflexivity. Qed.

(** A character cut by the end of the chunk stays in the remainder and is
    completed by the next chunk. *)
Example cut_character_is_kept :
  signals_of (feed [txt [97; 10; 195]; txt [169; 10]] (segmenter false))
  = [UPDATE [txt [97]]; UPDATE [txt [195; 169]]].
Proof. vm_compute. reflexivity. Qed.

Example preserve_scenario_lines :
  signals_of (feed [txt [97; 10; 98; 13; 10; 99; 13; 100]] (segmenter true))
  = [UPDATE [txt [97; 10]; txt [98; 13; 10]; txt [99; 13]];
     UPDATE [txt [100]]].
Proof. vm_compute. reflexivity. Qed.

(** Outside text: a NUL byte ends the C string [g_strndup] copies, so the
    line "a\0b\n" reaches the subscriber as "a". *)
Example nul_byte_cuts_line :
  signals_of (parse_lines (txt [97; 0; 98; 10]) (segmenter true))
  = [UPDATE [txt [97]]].
Proof. vm_compute. reflexivity. Qed.

(** Outside UTF-8: after the lead byte 0xC3 the scanner steps over the next
    byte whatever it is, here a line feed. *)
Example stray_lead_byte_hides_line_feed :
  find_newline (txt [195; 10; 97]) = None.
Proof. reflexivity. Qed.

(** ** Bytes and C strings *)

Lemma g_utf8_skip_pos c : (1 <= g_utf8_skip c)%nat.
Proof.
  unfold g_utf8_skip.
  repeat match goal with |- context [if ?b then _ else _] => destruct b end; lia.
Qed.

Lemma g_utf8_skip_ascii c :
  (guchar_of c < 128)%N -> g_utf8_skip (guchar_of c) = 1%nat.
Proof.
  intros H. unfold g_utf8_skip.
  destruct (N.ltb_spec (guchar_of c) 192); [reflexivity | lia].
Qed.

Lemma g_utf8_get_char_ascii c l :
  (guchar_of c < 128)%N -> g_utf8_get_char (c :: l) = guchar_of c.
Proof.
  intros H. unfold g_utf8_get_char, UTF8_COMPUTE. simpl hd.
  destruct (N.ltb_spec (guchar_of c) 128) as [_ | ?]; [| lia].
  simpl. change 127%N with (N.ones 7). rewrite N.land_ones.
  apply N.mod_small. exact H.
Qed.

Lemma is_continuation_high c :
  is_continuation c = true -> (128 <= guchar_of c)%N.
Proof.
  destruct c as [[] [] [] [] [] [] [] []]; vm_compute; intros; discriminate.
Qed.

Lemma c_string_nul_free l : nul_free l = true -> c_string l = l.
Proof.
  induction l as [| c l IH]; simpl; [reflexivity |].
  intros H. apply andb_true_iff in H as [Hc Hl].
  destruct (Ascii.eqb c zero); [discriminate |].
  rewrite IH; auto.
Qed.

Lemma nul_free_app a b :
  nul_free (a ++ b) = nul_free a && nul_free b.
Proof. unfold nul_free. apply forallb_app. Qed.

Lemma nul_free_firstn n l : nul_free l = true -> nul_free (firstn n l) = true.
Proof.
  intros H. rewrite <- (firstn_skipn n l), nul_free_app in H.
  apply andb_true_iff in H. tauto.
Qed.

Lemma nul_free_skipn n l : nul_free l = true -> nul_free (skipn n l) = true.
Proof.
  intros H. rewrite <- (firstn_skipn n l), nul_free_app in H.
  apply andb_true_iff in H. tauto.
Qed.

Lemma g_strndup_nul_free l n :
  nul_free l = true -> c_string (g_strndup l n) = firstn n l.
Proof.
  intros H. unfold g_strndup.
  rewrite (c_string_nul_free (firstn n l)) by (apply nul_free_firstn; exact H).
  generalize (n - length (firstn n l))%nat as k.
  pose proof (nul_free_firstn n l H) as Hf. revert Hf.
  generalize (firstn n l) as f.
  induction f as [| c f IH]; simpl; intros Hf k.
  - destruct k; reflexivity.
  - apply andb_true_iff in Hf as [Hc Hf].
    destruct (Ascii.eqb c zero); [discriminate |].
    rewrite IH; auto.
Qed.

Lemma g_strndup_whole l :
  nul_free l = true -> g_strndup l (length l) = l.
Proof.
  intros H. unfold g_strndup. rewrite firstn_all, (c_string_nul_free l H).
  rewrite Nat.sub_diag. apply app_nil_r.
Qed.

(** ** The scanner *)

Lemma find_newline_loop_progress fuel :
  forall ptr off nl le,
    find_newline_loop fuel ptr off = Some (nl, le) ->
    (off <= nl /\ nl < le)%nat.
Proof.
  induction fuel as [| fuel IH]; intros ptr off nl le H;
    cbn [find_newline_loop] in H; [discriminate |].
  destruct ptr as [| c l]; [discriminate |].
  assert (Hs : (1 <= next_char_skip (c :: l))%nat) by apply g_utf8_skip_pos.
  destruct (N.eqb (g_utf8_get_char (c :: l)) (guchar_of LF)).
  { inversion H; subst. lia. }
  destruct (N.eqb (g_utf8_get_char (c :: l)) (guchar_of CR)).
  { destruct (g_utf8_next_char (c :: l)) as [| d l'] eqn:En; [discriminate |].
    destruct (N.eqb (g_utf8_get_char (d :: l')) (guchar_of LF));
      inversion H; subst; lia. }
  apply IH in H. lia.
Qed.

Lemma find_newline_progress ptr nl le :
  find_newline ptr = Some (nl, le) -> (nl < le)%nat.
Proof.
  intros H. apply find_newline_loop_progress in H. lia.
Qed.

(** More fuel than the length of the buffer changes nothing: with the fuel
    [find_newline] gives it, the loop ends as the [while] does. *)
Lemma find_newline_loop_fuel fuel :
  forall ptr off extra,
    (length ptr <= fuel)%nat ->
    find_newline_loop (fuel + extra) ptr off = find_newline_loop fuel ptr off.
Proof.
  induction fuel as [| fuel IH]; intros ptr off extra Hlen.
  - destruct ptr; [| cbn [length] in Hlen; lia].
    destruct extra; reflexivity.
  - cbn [Nat.add find_newline_loop].
    destruct ptr as [| c l]; [reflexivity |].
    rewrite IH; [reflexivity |].
    unfold g_utf8_next_char. rewrite length_skipn.
    pose proof (g_utf8_skip_pos (guchar_of (hd zero (c :: l)))) as Hs.
    unfold next_char_skip. cbn [length] in *. lia.
Qed.

(** The fuel [parse_lines] gives its loop is enough: the loop ends because
    [find_newline] returns [NULL]. *)
Lemma parse_lines_loop_exhausts fuel :
  forall preserve ptr found,
    (length ptr < fuel)%nat ->
    find_newline (snd (parse_lines_loop fuel preserve ptr found)) = None.
Proof.
  induction fuel as [| fuel IH]; intros preserve ptr found Hlen; [lia |].
  simpl. destruct (find_newline ptr) as [[nl le] |] eqn:E; [| exact E].
  apply IH.
  destruct ptr as [| c l]; [discriminate |].
  apply find_newline_progress in E.
  rewrite length_skipn. cbn [length] in *. lia.
Qed.


(** ** The segmenter inside the runner *)

Lemma parse_lines_eq chunk m :
  parse_lines chunk m =
  let all := rest_buffer (priv m) ++ chunk in
  let r := parse_lines_loop (S (length all)) (preserve_line_endings (priv m))
                            all [] in
  (tt,
   with_priv (fun p => set_lines (fst r)
                         (set_rest_buffer (g_strndup (snd r) (length (snd r)))
                                          p)) m,
   [UPDATE (fst r)]).
Proof.
  destruct m as [p c n q]. destruct p as [a1 a2 a3 a4 a5 a6 a7 a8 rb a10 a11 a12].
  unfold parse_lines, free_lines, bind, update_priv, get_priv, ret,
    g_signal_emit, rest_buffer_size, with_priv.
  cbn -[parse_lines_loop g_strndup Nat.ltb].
  destruct rb as [| c0 rb].
  - cbn -[parse_lines_loop g_strndup].
    destruct (parse_lines_loop (S (length chunk)) a12 chunk []) as [found ptr].
    destruct ptr; reflexivity.
  - cbn -[parse_lines_loop g_strndup].
    destruct (parse_lines_loop (S (S (length (rb ++ chunk)))) a12
                               (c0 :: rb ++ chunk) []) as [found ptr].
    destruct ptr; reflexivity.
Qed.

Lemma emit_rest_eq m :
  emit_rest m =
  match rest_buffer (priv m) with
  | [] => (tt, m, [])
  | _ :: _ =>
      if negb (preserve_line_endings (priv m))
         && Ascii.eqb (last (rest_buffer (priv m)) zero) CR
      then
        let rest := removelast (rest_buffer (priv m)) ++ [zero] in
        (tt, with_priv (set_rest_buffer rest) m, [UPDATE [c_string rest]])
      else (tt, m, [UPDATE [c_string (rest_buffer (priv m))]])
  end.
Proof.
  destruct m as [p c n q]. destruct p as [a1 a2 a3 a4 a5 a6 a7 a8 rb a10 a11 a12].
  unfold emit_rest, bind, update_priv, get_priv, ret, g_signal_emit,
    rest_buffer_size, with_priv.
  cbn -[c_string removelast last Ascii.eqb].
  destruct rb as [| c0 rb]; [reflexivity |].
  cbn -[c_string removelast last Ascii.eqb].
  destruct (negb a12 && Ascii.eqb (last (c0 :: rb) zero) CR); reflexivity.
Qed.

Lemma c_string_removelast_nul l :
  nul_free l = true -> c_string (removelast l ++ [zero]) = removelast l.
Proof.
  induction l as [| c l IH]; [reflexivity |].
  intros H. cbn [nul_free forallb] in H. apply andb_true_iff in H as [Hc Hl].
  destruct l as [| d l]; [reflexivity |].
  change (removelast (c :: d :: l)) with (c :: removelast (d :: l)).
  cbn [app c_string].
  destruct (Ascii.eqb c zero); [discriminate |].
  f_equal. apply IH. exact Hl.
Qed.

Lemma bind_eq {A B} (c : M A) (k : A -> M B) m :
  bind c k m =
  (result_of (k (result_of (c m)) (machine_of (c m))),
   machine_of (k (result_of (c m)) (machine_of (c m))),
   signals_of (c m) ++ signals_of (k (result_of (c m)) (machine_of (c m)))).
Proof.
  unfold bind, result_of, machine_of, signals_of.
  destruct (c m) as [[a m1] t1]. simpl.
  destruct (k a m1) as [[b m2] t2]. reflexivity.
Qed.

Lemma emitted_lines_app t1 t2 :
  emitted_lines (t1 ++ t2) = emitted_lines t1 ++ emitted_lines t2.
Proof.
  induction t1 as [| s t1 IH]; [reflexivity |].
  destruct s; simpl; rewrite IH; auto using app_assoc.
Qed.




(** C2: the text "a\nb\r\nc\rd" under the strip policy.  One pass over it
    emits the lines "a", "b", "c" and keeps "d"; the flush emits the single
    line "d"; a synchronous run over it emits the same between its begin and
    end; and cutting the text in two anywhere gives the same four lines. *)
Theorem strip_scenario_lines :
  let input := txt [97; 10; 98; 13; 10; 99; 13; 100] in
  let pass := parse_lines input (segmenter false) in
  signals_of pass = [UPDATE [txt [97]; txt [98]; txt [99]]]
  /\ rest_buffer (priv (machine_of pass)) = txt [100]
  /\ signals_of (emit_rest (machine_of pass)) = [UPDATE [txt [100]]]
  /\ signals_of
       (gitg_runner_run_stream (Some (g_unix_input_stream_new 0))
          (mkWorld (fun _ _ _ _ => None) true [Some input] 0)
          (gitg_runner_new_synchronized 4096))
     = [BEGIN_LOADING; UPDATE [txt [97]; txt [98]; txt [99]];
        UPDATE [txt [100]]; END_LOADING false]
  /\ forall n,
       emitted_lines
         (signals_of (feed [firstn n input; skipn n input] (segmenter false)))
       = [txt [97]; txt [98]; txt [99]; txt [100]].
Proof.
  cbv zeta. repeat apply conj;
    [vm_compute; reflexivity .. |].
  intros n. do 9 (destruct n as [| n]; [vm_compute; reflexivity |]).
  vm_compute. reflexivity.
Qed.

Lemma removelast_shorter (l : list gchar) : l <> [] -> removelast l <> l.
Proof.
  intros Hne Heq.
  pose proof (f_equal (@length gchar) (app_removelast_last zero Hne)) as Hl.
  rewrite length_app, Heq in Hl. cbn [length] in Hl. lia.
Qed.

(** C3: a non-empty remainder is flushed as exactly one line, nothing being
    appended to it.  Under the strip policy the line is the remainder without
    its last byte exactly when that byte is a carriage return; under the
    preserve policy the line is the whole remainder, trailing carriage return
    included. *)
Theorem emit_rest_final_line :
  forall m : Machine,
    rest_buffer (priv m) <> [] ->
    nul_free (rest_buffer (priv m)) = true ->
    let rest := rest_buffer (priv m) in
    exists line,
      signals_of (emit_rest m) = [UPDATE [line]]
      /\ (preserve_line_endings (priv m) = true -> line = rest)
      /\ (preserve_line_endings (priv m) = false ->
          (last rest zero = CR <-> line = removelast rest)
          /\ (last rest zero <> CR -> line = rest)).
Proof.
  intros m Hne Hnf rest. subst rest.
  rewrite emit_rest_eq.
  destruct (rest_buffer (priv m)) as [| c rb] eqn:E; [congruence |].
  destruct (preserve_line_endings (priv m)); cbn [negb andb].
  - exists (c :: rb). rewrite (c_string_nul_free _ Hnf).
    repeat split; intros; congruence.
  - destruct (Ascii.eqb_spec (last (c :: rb) zero) CR) as [Hcr | Hcr].
    + exists (removelast (c :: rb)).
      cbn [signals_of snd]. rewrite (c_string_removelast_nul _ Hnf).
      repeat split; intros; congruence.
    + exists (c :: rb). cbn [signals_of snd].
      rewrite (c_string_nul_free _ Hnf).
      repeat split; intros; try congruence.
      exfalso. apply (@removelast_shorter (c :: rb)); congruence.
Qed.

Lemma emit_rest_final_line_witness :
  exists line,
    signals_of
      (emit_rest (with_priv (set_rest_buffer (txt [100; 13])) (segmenter false)))
    = [UPDATE [line]]
    /\ line = txt [100].
Proof.
  destruct (emit_rest_final_line
              (with_priv (set_rest_buffer (txt [100; 13])) (segmenter false)))
    as [line [Hs [_ Hstrip]]].
  - discriminate.
  - reflexivity.
  - exists line. split; [exact Hs |].
    destruct (Hstrip eq_refl) as [[Hdrop _] _].
    rewrite (Hdrop eq_refl). reflexivity.
Defined.

Lemma parse_lines_loop_extends fuel :
  forall preserve ptr found,
  exists more,
    fst (parse_lines_loop fuel preserve ptr found) = found ++ more.
Proof.
  induction fuel as [| fuel IH]; intros preserve ptr found; cbn [parse_lines_loop].
  - exists []. now rewrite app_nil_r.
  - destruct (find_newline ptr) as [[nl le] |].
    + match goal with
      | |- context [parse_lines_loop fuel preserve ?p ?f] =>
          destruct (IH preserve p f) as [more Hm]
      end.
      rewrite Hm, <- app_assoc. eauto.
    + exists []. now rewrite app_nil_r.
Qed.

(** C4, as the code has it: a pass over a chunk in which no line ends emits
    an update all the same, and that update carries no line.  Here the chunk
    "abc" is absorbed whole into the remainder, and a synchronous run over a
    child that writes just "abc" delivers an empty update before the flush. *)
Lemma update_carries_empty_batch :
  find_newline (txt [97; 98; 99]) = None
  /\ signals_of (parse_lines (txt [97; 98; 99]) (segmenter false)) = [UPDATE []]
  /\ rest_buffer (priv (machine_of (parse_lines (txt [97; 98; 99])
                                                (segmenter false))))
     = txt [97; 98; 99]
  /\ signals_of
       (gitg_runner_run [txt [103]]
          (mkWorld (fun _ _ _ _ => Some (7%positive, 3%Z, 4%Z)) true
                   [Some (txt [97; 98; 99])] 0)
          (gitg_runner_new_synchronized 16))
     = [BEGIN_LOADING; UPDATE []; UPDATE [txt [97; 98; 99]]; END_LOADING false]
  /\ ~ (forall m chunk ls,
          In (UPDATE ls) (signals_of (parse_lines chunk m)) -> ls <> []).
Proof.
  repeat apply conj; [vm_compute; reflexivity .. |].
  intros H.
  apply (H (segmenter false) (txt [97; 98; 99]) []); [| reflexivity].
  vm_compute. left. reflexivity.
Qed.

(** C4, amended: every pass of [parse_lines] emits exactly one update, which
    carries the lines that ended in that pass and is empty exactly when none
    did; the flush emits nothing for an empty remainder and otherwise one
    update carrying exactly one line. *)
Theorem update_batches :
  forall (m : Machine) (chunk : list gchar),
    (exists found,
        signals_of (parse_lines chunk m) = [UPDATE found]
        /\ lines (priv (machine_of (parse_lines chunk m))) = found
        /\ (found = [] <->
            find_newline (rest_buffer (priv m) ++ chunk) = None))
    /\ (signals_of (emit_rest m) = [] /\ rest_buffer (priv m) = []
        \/ exists line,
            signals_of (emit_rest m) = [UPDATE [line]]
            /\ rest_buffer (priv m) <> []).
Proof.
  intros m chunk. split.
  - rewrite parse_lines_eq. cbv zeta.
    set (all := rest_buffer (priv m) ++ chunk).
    exists (fst (parse_lines_loop (S (length all))
                                  (preserve_line_endings (priv m)) all [])).
    split; [reflexivity |]. split; [reflexivity |].
    cbn [parse_lines_loop].
    destruct (find_newline all) as [[nl le] |].
    + match goal with
      | |- context [parse_lines_loop ?f ?b ?p ?acc] =>
          destruct (parse_lines_loop_extends f b p acc) as [more Hm]
      end.
      rewrite Hm. split; [| discriminate].
      intros Habs. destruct more; discriminate.
    + split; reflexivity.
  - rewrite emit_rest_eq.
    destruct (rest_buffer (priv m)) as [| c rb]; [left; auto |].
    right.
    destruct (negb (preserve_line_endings (priv m))
              && Ascii.eqb (last (c :: rb) zero) CR);
      eexists; split; try reflexivity; discriminate.
Qed.

(** ** The remainder holds no complete terminator *)


Lemma g_utf8_next_char_cons c l :
  g_utf8_next_char (c :: l) = skipn (g_utf8_skip (guchar_of c) - 1) l.
Proof.
  unfold g_utf8_next_char, next_char_skip. cbn [hd].
  pose proof (g_utf8_skip_pos (guchar_of c)) as Hs.
  destruct (g_utf8_skip (guchar_of c)) as [| k]; [lia |].
  cbn [skipn]. now rewrite Nat.sub_succ, Nat.sub_0_r.
Qed.


Lemma high_byte_no_terminator c :
  (128 <= guchar_of c)%N -> c <> LF /\ c <> CR.
Proof.
  intros H. split; intros ->; revert H; vm_compute; congruence.
Qed.













(** ** Cancelling, closing, failing *)

Lemma signals_bind {A B} (c : M A) (k : A -> M B) m :
  signals_of (bind c k m)
  = signals_of (c m) ++ signals_of (k (result_of (c m)) (machine_of (c m))).
Proof. rewrite bind_eq. reflexivity. Qed.

Lemma runner_io_exit_eq pid_ status m :
  runner_io_exit pid_ status m = (tt, with_priv (reaped status) m, []).
Proof.
  destruct m as [p c n q]. unfold runner_io_exit, bind, get_priv, reaped,
    with_priv. cbn [priv cancelled next_cancellable main_context].
  destruct (Z.eqb (pid p) 0); reflexivity.
Qed.

Lemma close_streams_eq m : close_streams m = (tt, with_priv closed m, []).
Proof. destruct m as [p c n q]. reflexivity. Qed.

Lemma bind_ret {A B} (a : A) (k : A -> M B) m : bind (ret a) k m = k a m.
Proof. unfold bind, ret. destruct (k a m) as [[b m2] t2]. reflexivity. Qed.

Lemma bind_get_priv {B} (k : GitgRunnerPrivate -> M B) m :
  bind get_priv k m = k (priv m) m.
Proof.
  unfold bind, get_priv. destruct (k (priv m) m) as [[b m2] t2]. reflexivity.
Qed.

Lemma bind_update_priv {B} f (k : unit -> M B) m :
  bind (update_priv f) k m = k tt (with_priv f m).
Proof.
  unfold bind, update_priv. destruct (k tt (with_priv f m)) as [[b m2] t2].
  reflexivity.
Qed.

Lemma bind_is_cancelled {B} c (k : bool -> M B) m :
  bind (g_cancellable_is_cancelled c) k m
  = k (existsb (Nat.eqb c) (cancelled m)) m.
Proof.
  unfold bind, g_cancellable_is_cancelled.
  destruct (k (existsb (Nat.eqb c) (cancelled m)) m) as [[b m2] t2].
  reflexivity.
Qed.

Lemma bind_runner_io_exit {B} pid_ status (k : unit -> M B) m :
  bind (runner_io_exit pid_ status) k m = k tt (with_priv (reaped status) m).
Proof.
  unfold bind at 1. rewrite runner_io_exit_eq.
  destruct (k tt (with_priv (reaped status) m)) as [[b m2] t2]. reflexivity.
Qed.

Lemma bind_close_streams {B} (k : unit -> M B) m :
  bind close_streams k m = k tt (with_priv closed m).
Proof.
  unfold bind at 1. rewrite close_streams_eq.
  destruct (k tt (with_priv closed m)) as [[b m2] t2]. reflexivity.
Qed.

Lemma gitg_runner_cancel_idle m :
  input_stream (priv m) = None -> gitg_runner_cancel m = (tt, m, []).
Proof.
  intros H. unfold gitg_runner_cancel, bind, get_priv. rewrite H. reflexivity.
Qed.

Lemma gitg_runner_cancel_running m s :
  input_stream (priv m) = Some s ->
  gitg_runner_cancel m = (tt, cancel_machine m, [END_LOADING true]).
Proof.
  intros H. destruct m as [p c n q].
  destruct p as [a1 a2 a3 a4 a5 a6 a7 a8 a9 a10 a11 a12].
  cbn in H. subst a2.
  unfold gitg_runner_cancel, cancel_machine, reaped, closed.
  unfold bind, get_priv, g_cancellable_cancel, g_cancellable_new, update_priv,
    with_priv, ret, g_signal_emit.
  cbn -[Z.eqb].
  destruct (Z.eqb a1 0) eqn:E; cbn -[Z.eqb].
  - reflexivity.
  - unfold runner_io_exit, bind, get_priv, update_priv, with_priv.
    cbn -[Z.eqb]. rewrite E. reflexivity.
Qed.

Lemma gitg_runner_cancel_signals m :
  signals_of (gitg_runner_cancel m)
  = if gitg_runner_running (priv m) then [END_LOADING true] else [].
Proof.
  unfold gitg_runner_running.
  destruct (input_stream (priv m)) as [s |] eqn:E.
  - rewrite (gitg_runner_cancel_running m s E). reflexivity.
  - rewrite (gitg_runner_cancel_idle m E). reflexivity.
Qed.

Lemma gitg_runner_cancel_stops m :
  input_stream (priv (machine_of (gitg_runner_cancel m))) = None.
Proof.
  destruct (input_stream (priv m)) as [s |] eqn:E.
  - rewrite (gitg_runner_cancel_running m s E). reflexivity.
  - rewrite (gitg_runner_cancel_idle m E). exact E.
Qed.

Lemma gitg_runner_cancel_environment m :
  environment (priv (machine_of (gitg_runner_cancel m))) = environment (priv m).
Proof.
  destruct (input_stream (priv m)) as [s |] eqn:E.
  - rewrite (gitg_runner_cancel_running m s E).
    unfold cancel_machine, closed, reaped. cbn [machine_of fst snd priv].
    destruct (Z.eqb _ 0); reflexivity.
  - rewrite (gitg_runner_cancel_idle m E). reflexivity.
Qed.

(** C9: when no run is active, [gitg_runner_cancel] returns the runner
    exactly as it was (pid, exit status, remainder, environment,
    configuration and all the rest) and emits nothing.  After any cancel no
    run is active, so two cancels in a row emit at most one end. *)
Theorem cancel_without_run_is_noop :
  forall m : Machine,
    (gitg_runner_running (priv m) = false ->
     gitg_runner_cancel m = (tt, m, []))
    /\ gitg_runner_running (priv (machine_of (gitg_runner_cancel m))) = false
    /\ (length (filter is_end_loading
                  (signals_of ((gitg_runner_cancel ;; gitg_runner_cancel) m)))
        <= 1)%nat.
Proof.
  intros m. split; [| split].
  - unfold gitg_runner_running. intros H. apply gitg_runner_cancel_idle.
    destruct (input_stream (priv m)); [discriminate | reflexivity].
  - unfold gitg_runner_running. now rewrite gitg_runner_cancel_stops.
  - rewrite signals_bind.
    rewrite (gitg_runner_cancel_idle _ (gitg_runner_cancel_stops m)).
    rewrite gitg_runner_cancel_signals.
    destruct (gitg_runner_running (priv m)); cbn; lia.
Qed.

Lemma cancel_without_run_is_noop_witness :
  gitg_runner_cancel (gitg_runner_new 16) = (tt, gitg_runner_new 16, []).
Proof.
  apply (cancel_without_run_is_noop (gitg_runner_new 16)). reflexivity.
Defined.

(** ** Starting a run *)

Lemma gitg_runner_run_streams_signals i o input w m :
  exists rest,
    signals_of (gitg_runner_run_streams i o input w m)
    = signals_of (gitg_runner_cancel m) ++ BEGIN_LOADING :: rest.
Proof.
  unfold gitg_runner_run_streams.
  rewrite signals_bind. f_equal || (eexists; f_equal).
  rewrite signals_bind.
  assert (Hsilent1 :
            forall m', signals_of
                         (match o with
                          | Some o' => update_priv (set_output_stream (Some o'))
                          | None => ret tt
                          end m') = [])
    by (intros; destruct o; reflexivity).
  rewrite Hsilent1. cbn [app].
  rewrite signals_bind.
  assert (Hsilent2 :
            forall m', signals_of
                         (match i with
                          | Some i' =>
                              update_priv
                                (set_input_stream
                                   (Some (g_converter_input_stream_new i')))
                          | None => ret tt
                          end m') = [])
    by (intros; destruct i; reflexivity).
  rewrite Hsilent2. cbn [app].
  rewrite signals_bind. cbn [g_signal_emit signals_of snd app].
  reflexivity.
Qed.

Lemma gitg_runner_run_with_arguments_failed work_tree argv input w m :
  g_spawn_async_with_pipes w work_tree argv (environment (priv m))
    (match input with Some _ => true | None => false end) = None ->
  gitg_runner_run_with_arguments work_tree argv input w m
  = ((false, Some G_SPAWN_ERROR),
     with_priv (set_pid 0%Z) (machine_of (gitg_runner_cancel m)),
     signals_of (gitg_runner_cancel m)).
Proof.
  intros Hspawn. unfold gitg_runner_run_with_arguments.
  rewrite bind_eq. rewrite bind_eq.
  cbn [get_priv result_of machine_of signals_of fst snd app].
  rewrite gitg_runner_cancel_environment, Hspawn.
  cbn. now rewrite app_nil_r.
Qed.

Lemma gitg_runner_run_with_arguments_spawned work_tree argv input w m
      child stdinf stdoutf :
  g_spawn_async_with_pipes w work_tree argv (environment (priv m))
    (match input with Some _ => true | None => false end)
  = Some (child, stdinf, stdoutf) ->
  gitg_runner_run_with_arguments work_tree argv input w m
  = let started := gitg_runner_run_streams
                     (Some (g_unix_input_stream_new stdoutf))
                     (match input with
                      | Some _ => Some (g_unix_output_stream_new stdinf)
                      | None => None
                      end) input w
                     (with_priv (set_pid (Zpos child))
                                (machine_of (gitg_runner_cancel m))) in
    (result_of started, machine_of started,
     signals_of (gitg_runner_cancel m) ++ signals_of started).
Proof.
  intros Hspawn. unfold gitg_runner_run_with_arguments.
  rewrite bind_eq. rewrite bind_eq.
  cbn [get_priv result_of machine_of signals_of fst snd app].
  rewrite gitg_runner_cancel_environment, Hspawn.
  rewrite bind_eq. reflexivity.
Qed.

(** C5, as the code has it: a run whose spawn fails on a runner with an
    active run emits that run's end (with the cancelled flag set) during the
    call. *)
Lemma failed_spawn_emits_end_of_active_run :
  let spawns := mkWorld (fun _ _ _ _ => Some (7%positive, 3%Z, 4%Z)) true [] 0 in
  let fails := mkWorld (fun _ _ _ _ => None) true [] 0 in
  let active := machine_of (gitg_runner_run [txt [103]] spawns
                                            (gitg_runner_new 16)) in
  gitg_runner_running (priv active) = true
  /\ result_of (gitg_runner_run [txt [120]] fails active)
     = (false, Some G_SPAWN_ERROR)
  /\ signals_of (gitg_runner_run [txt [120]] fails active)
     = [END_LOADING true].
Proof. cbv zeta. repeat apply conj; vm_compute; reflexivity. Qed.

(** C5, amended: when the spawn fails, the run returns failure, stores pid 0,
    emits neither begin nor update, and leaves no run active; the only signal
    the call can emit is the end, flagged cancelled, of a run that was active
    when it was made, and it emits none when there was no such run. *)
Theorem failed_spawn_returns_failure :
  forall (m : Machine) work_tree argv input (w : World),
    g_spawn_async_with_pipes w work_tree argv (environment (priv m))
      (match input with Some _ => true | None => false end) = None ->
    let r := gitg_runner_run_with_arguments work_tree argv input w m in
    result_of r = (false, Some G_SPAWN_ERROR)
    /\ pid (priv (machine_of r)) = 0%Z
    /\ gitg_runner_running (priv (machine_of r)) = false
    /\ signals_of r
       = (if gitg_runner_running (priv m) then [END_LOADING true] else [])
    /\ ~ In BEGIN_LOADING (signals_of r)
    /\ (forall ls, ~ In (UPDATE ls) (signals_of r)).
Proof.
  intros m work_tree argv input w Hspawn r. subst r.
  rewrite (gitg_runner_run_with_arguments_failed _ _ _ _ _ Hspawn).
  pose proof (gitg_runner_cancel_stops m) as Hstop.
  cbn [result_of machine_of signals_of fst snd].
  rewrite gitg_runner_cancel_signals.
  repeat apply conj; try reflexivity.
  - unfold gitg_runner_running.
    cbn [with_priv priv set_pid input_stream]. now rewrite Hstop.
  - destruct (gitg_runner_running (priv m)); cbn; intuition discriminate.
  - intros ls. destruct (gitg_runner_running (priv m)); cbn;
      intuition discriminate.
Qed.

Lemma failed_spawn_returns_failure_witness :
  result_of
    (gitg_runner_run [txt [120]] (mkWorld (fun _ _ _ _ => None) true [] 0)
                     (gitg_runner_new 16))
  = (false, Some G_SPAWN_ERROR).
Proof.
  apply (failed_spawn_returns_failure (gitg_runner_new 16) None [txt [120]]
           None (mkWorld (fun _ _ _ _ => None) true [] 0)).
  reflexivity.
Defined.

(** C8: on a runner with an active run, starting a run first emits the end
    of the active run with the cancelled flag set; the begin of the new run,
    which it emits when the spawn succeeds, comes right after it.  The same
    holds for a run over a stream. *)
Theorem second_run_cancels_first :
  forall (m : Machine) work_tree argv input stream (w : World),
    gitg_runner_running (priv m) = true ->
    (exists rest,
        signals_of (gitg_runner_run_with_arguments work_tree argv input w m)
        = END_LOADING true :: rest
        /\ match g_spawn_async_with_pipes w work_tree argv
                   (environment (priv m))
                   (match input with Some _ => true | None => false end) with
           | Some _ => exists rest', rest = BEGIN_LOADING :: rest'
           | None => rest = []
           end)
    /\ (exists rest,
           signals_of (gitg_runner_run_stream stream w m)
           = END_LOADING true :: BEGIN_LOADING :: rest).
Proof.
  intros m work_tree argv input stream w Hrun.
  pose proof (gitg_runner_cancel_signals m) as Hc. rewrite Hrun in Hc.
  split.
  - destruct (g_spawn_async_with_pipes w work_tree argv (environment (priv m))
                (match input with Some _ => true | None => false end))
      as [[[child stdinf] stdoutf] |] eqn:Hspawn.
    + rewrite (gitg_runner_run_with_arguments_spawned _ _ _ _ _ _ _ _ Hspawn).
      cbv zeta. cbn [signals_of snd]. rewrite Hc.
      match goal with
      | |- context [gitg_runner_run_streams ?i ?o ?inp ?w' ?m'] =>
          destruct (gitg_runner_run_streams_signals i o inp w' m')
            as [rest Hrest];
          rewrite Hrest;
          rewrite (gitg_runner_cancel_idle m')
      end.
      * cbn [signals_of snd app]. eauto.
      * cbn [with_priv priv set_pid input_stream].
        apply gitg_runner_cancel_stops.
    + rewrite (gitg_runner_run_with_arguments_failed _ _ _ _ _ Hspawn).
      cbn [signals_of snd]. rewrite Hc. eauto.
  - unfold gitg_runner_run_stream.
    destruct (gitg_runner_run_streams_signals stream None None w m)
      as [rest Hrest].
    rewrite Hrest, Hc. cbn [app]. eauto.
Qed.

Lemma second_run_cancels_first_witness :
  exists rest,
    signals_of
      (gitg_runner_run [txt [104]]
         (mkWorld (fun _ _ _ _ => Some (9%positive, 5%Z, 6%Z)) true [] 0)
         (machine_of
            (gitg_runner_run [txt [103]]
               (mkWorld (fun _ _ _ _ => Some (7%positive, 3%Z, 4%Z)) true [] 0)
               (gitg_runner_new 16))))
    = END_LOADING true :: rest.
Proof.
  destruct (second_run_cancels_first
              (machine_of
                 (gitg_runner_run [txt [103]]
                    (mkWorld (fun _ _ _ _ => Some (7%positive, 3%Z, 4%Z))
                             true [] 0)
                    (gitg_runner_new 16)))
              None [txt [104]] None None
              (mkWorld (fun _ _ _ _ => Some (9%positive, 5%Z, 6%Z)) true [] 0))
    as [[rest [Hrest _]] _].
  - reflexivity.
  - exists rest. exact Hrest.
Defined.

(** ** Failures of writing and of reading *)

Lemma async_failed_eq data m :
  async_failed data m = (tt, failed_machine m, [END_LOADING true]).
Proof.
  unfold async_failed.
  rewrite bind_get_priv, bind_runner_io_exit, bind_close_streams.
  reflexivity.
Qed.

Lemma run_sync_write_failed text w m :
  g_output_stream_write_all w = false ->
  run_sync (Some text) w m
  = ((false, Some G_IO_ERROR), failed_machine m, [END_LOADING false]).
Proof.
  intros Hw. unfold run_sync. rewrite Hw. cbn [negb].
  rewrite bind_get_priv, bind_runner_io_exit, bind_close_streams.
  reflexivity.
Qed.

Lemma run_sync_loop_read_failed reads m :
  run_sync_loop (None :: reads) m
  = (false, failed_machine m, [END_LOADING true]).
Proof.
  cbn [run_sync_loop].
  rewrite bind_get_priv, bind_runner_io_exit, bind_close_streams.
  reflexivity.
Qed.

Lemma run_sync_read_failed text w reads m :
  g_output_stream_write_all w = true ->
  g_input_stream_read_all w = None :: reads ->
  run_sync (Some text) w m
  = ((false, Some G_IO_ERROR), failed_machine m, [END_LOADING true]).
Proof.
  intros Hw Hr. unfold run_sync. rewrite Hw, Hr. cbn [negb].
  rewrite bind_eq, run_sync_loop_read_failed. reflexivity.
Qed.

(** C7, where the code departs from it: a failed write and a failed read
    leave a synchronous run in the same state (status 1 when a child was
    recorded, streams closed, remainder dropped), but the end of the failed
    write carries the flag [FALSE] while the end of the failed read, like
    the end [async_failed] emits for either failure in an asynchronous run,
    carries [TRUE]. *)
Theorem sync_write_failure_end_flag :
  forall (m : Machine) text (w_write w_read : World) reads data stream_out stream_in
         status,
    g_output_stream_write_all w_write = false ->
    g_output_stream_write_all w_read = true ->
    g_input_stream_read_all w_read = None :: reads ->
    existsb (Nat.eqb (data_cancellable data)) (cancelled m) = false ->
    run_sync (Some text) w_write m
    = ((false, Some G_IO_ERROR), failed_machine m, [END_LOADING false])
    /\ run_sync (Some text) w_read m
       = ((false, Some G_IO_ERROR), failed_machine m, [END_LOADING true])
    /\ write_input_ready stream_out false data m
       = (tt, failed_machine m, [END_LOADING true])
    /\ read_output_ready stream_in None data status m
       = (tt, failed_machine m, [END_LOADING true])
    /\ (pid (priv m) <> 0%Z ->
        exit_status (priv (failed_machine m)) = 1%Z).
Proof.
  intros m text w_write w_read reads data stream_out stream_in status
         Hwf Hwok Hrf Hlive.
  repeat apply conj.
  - apply run_sync_write_failed, Hwf.
  - apply (run_sync_read_failed text w_read reads m Hwok Hrf).
  - unfold write_input_ready.
    rewrite bind_is_cancelled, Hlive, bind_ret. cbn [negb].
    apply async_failed_eq.
  - unfold read_output_ready. rewrite bind_is_cancelled, Hlive.
    apply async_failed_eq.
  - intros Hpid. unfold failed_machine, closed, reaped.
    cbn [with_priv priv]. destruct (Z.eqb_spec (pid (priv m)) 0);
      [contradiction | reflexivity].
Qed.

Lemma sync_write_failure_end_flag_witness :
  signals_of
    (run_sync (Some (txt [120]))
       (mkWorld (fun _ _ _ _ => None) false [] 0)
       (gitg_runner_new_synchronized 16))
  = [END_LOADING false]
  /\ signals_of
       (run_sync (Some (txt [120]))
          (mkWorld (fun _ _ _ _ => None) true [None] 0)
          (gitg_runner_new_synchronized 16))
     = [END_LOADING true].
Proof.
  destruct (sync_write_failure_end_flag
              (gitg_runner_new_synchronized 16) (txt [120])
              (mkWorld (fun _ _ _ _ => None) false [] 0)
              (mkWorld (fun _ _ _ _ => None) true [None] 0)
              [] (async_data_new 0) None None 0%Z
              eq_refl eq_refl eq_refl eq_refl)
    as (Hw & Hr & _).
  rewrite Hw, Hr. split; reflexivity.
Defined.

(** ** Runs that read their input to the end *)

Lemma parse_lines_control chunk m :
  control (machine_of (parse_lines chunk m)) = control m.
Proof. rewrite parse_lines_eq. reflexivity. Qed.

Lemma parse_lines_signals chunk m :
  forallb is_update (signals_of (parse_lines chunk m)) = true.
Proof. rewrite parse_lines_eq. reflexivity. Qed.

Lemma emit_rest_control m :
  control (machine_of (emit_rest m)) = control m.
Proof.
  rewrite emit_rest_eq. destruct (rest_buffer (priv m)); [reflexivity |].
  destruct (negb _ && _); reflexivity.
Qed.

Lemma emit_rest_signals m :
  forallb is_update (signals_of (emit_rest m)) = true.
Proof.
  rewrite emit_rest_eq. destruct (rest_buffer (priv m)); [reflexivity |].
  destruct (negb _ && _); reflexivity.
Qed.

Lemma control_pid m m' : control m' = control m -> pid (priv m') = pid (priv m).
Proof. unfold control. congruence. Qed.

Lemma run_sync_loop_ok chunks :
  forall m,
    result_of (run_sync_loop (map Some chunks) m) = true
    /\ control (machine_of (run_sync_loop (map Some chunks) m)) = control m
    /\ forallb is_update (signals_of (run_sync_loop (map Some chunks) m))
       = true.
Proof.
  induction chunks as [| chunk chunks IH]; intros m; cbn [map run_sync_loop].
  - rewrite bind_update_priv, bind_eq.
    cbn [ret result_of machine_of signals_of fst snd].
    rewrite parse_lines_control, app_nil_r, parse_lines_signals. auto.
  - rewrite bind_update_priv, bind_eq, bind_get_priv.
    cbn [result_of machine_of signals_of fst snd].
    set (m1 := machine_of (parse_lines chunk (with_priv (set_read_buffer chunk) m))).
    assert (Hc : control m1 = control m)
      by (unfold m1; rewrite parse_lines_control; reflexivity).
    rewrite forallb_app, parse_lines_signals.
    destruct (Nat.eqb (length chunk) (Pos.to_nat (buffer_size (priv m1)))).
    + destruct (IH m1) as (Hr & Hctl & Hs). rewrite Hr, Hctl, Hs. auto.
    + cbn. auto.
Qed.

Lemma run_sync_completes input w chunks m :
  (match input with
   | Some _ => g_output_stream_write_all w
   | None => true
   end) = true ->
  g_input_stream_read_all w = map Some chunks ->
  let r := run_sync input w m in
  result_of r
  = (Z.eqb (waitpid w) 0,
     if negb (Z.eqb (waitpid w) 0) then Some GITG_RUNNER_ERROR_EXIT else None)
  /\ exit_status (priv (machine_of r))
     = (if Z.eqb (pid (priv m)) 0 then exit_status (priv m) else waitpid w)
  /\ gitg_runner_running (priv (machine_of r)) = false
  /\ exists updates,
      signals_of r = updates ++ [END_LOADING false]
      /\ forallb is_update updates = true.
Proof.
  intros Hw Hr r. subst r.
  assert (Hreading :
            run_sync input w m
            = (ok <- run_sync_loop (g_input_stream_read_all w) ;;
               if ok then
                 emit_rest ;;
                 p <- get_priv ;;
                 runner_io_exit (pid p) (waitpid w) ;;
                 close_streams ;;
                 g_signal_emit (END_LOADING false) ;;
                 ret (Z.eqb (waitpid w) EXIT_SUCCESS,
                      if negb (Z.eqb (waitpid w) 0)
                      then Some GITG_RUNNER_ERROR_EXIT else None)
               else ret (false, Some G_IO_ERROR)) m).
  { unfold run_sync. destruct input; [rewrite Hw |]; reflexivity. }
  rewrite Hreading, Hr. clear Hreading.
  destruct (run_sync_loop_ok chunks m) as (Hres & Hctl & Hsig).
  rewrite bind_eq, Hres.
  set (m1 := machine_of (run_sync_loop (map Some chunks) m)) in *.
  rewrite bind_eq, bind_get_priv, bind_runner_io_exit, bind_close_streams.
  pose proof (emit_rest_control m1) as Hctl2.
  pose proof (emit_rest_signals m1) as Hsig2.
  set (m2 := machine_of (emit_rest m1)) in *.
  assert (Hpid : pid (priv m2) = pid (priv m))
    by (rewrite (control_pid _ _ Hctl2); apply control_pid, Hctl).
  assert (Hex : exit_status (priv m2) = exit_status (priv m))
    by (unfold control in *; congruence).
  cbn [result_of machine_of signals_of fst snd bind g_signal_emit ret].
  repeat apply conj.
  - reflexivity.
  - unfold closed, reaped. cbn [with_priv priv]. rewrite Hpid.
    destruct (Z.eqb (pid (priv m)) 0); [exact Hex | reflexivity].
  - reflexivity.
  - exists (signals_of (run_sync_loop (map Some chunks) m)
            ++ signals_of (emit_rest m1)).
    split.
    + cbn [app]. now rewrite <- app_assoc.
    + rewrite forallb_app, Hsig, Hsig2. reflexivity.
Qed.

Lemma bind_emit {B} s (k : unit -> M B) m :
  bind (g_signal_emit s) k m
  = (result_of (k tt m), machine_of (k tt m), s :: signals_of (k tt m)).
Proof.
  unfold bind, g_signal_emit. destruct (k tt m) as [[b m2] t2]. reflexivity.
Qed.

Lemma bind_push {B} req (k : unit -> M B) m :
  bind (main_context_push req) k m
  = k tt (with_queue (main_context m ++ [req]) m).
Proof.
  unfold bind, main_context_push, with_queue.
  match goal with |- context [k tt ?x] => destruct (k tt x) as [[b m2] t2] end.
  reflexivity.
Qed.

Lemma gitg_runner_run_streams_eq i o input w m :
  gitg_runner_run_streams i o input w m
  = let m2 := with_priv (attach_streams i o)
                        (machine_of (gitg_runner_cancel m)) in
    let r := if synchronized (priv m2) then run_sync input w m2
             else ((true, None),
                   with_queue (main_context m2
                               ++ [first_request input (priv m2)]) m2,
                   []) in
    (result_of r, machine_of r,
     signals_of (gitg_runner_cancel m) ++ BEGIN_LOADING :: signals_of r).
Proof.
  unfold gitg_runner_run_streams. rewrite bind_eq.
  set (m1 := machine_of (gitg_runner_cancel m)).
  assert (Hattach :
            forall B (k : unit -> M B),
              bind (match o with
                    | Some o' => update_priv (set_output_stream (Some o'))
                    | None => ret tt
                    end)
                   (fun _ =>
                      bind (match i with
                            | Some i' =>
                                update_priv
                                  (set_input_stream
                                     (Some (g_converter_input_stream_new i')))
                            | None => ret tt
                            end) k) m1
              = k tt (with_priv (attach_streams i o) m1)).
  { intros B k. unfold attach_streams.
    destruct o, i; repeat (rewrite bind_update_priv || rewrite bind_ret);
      destruct m1 as [p c n q]; reflexivity. }
  rewrite Hattach. cbv zeta.
  set (m2 := with_priv (attach_streams i o) m1).
  rewrite bind_emit, bind_get_priv.
  destruct (synchronized (priv m2)); [reflexivity |].
  cbn [result_of machine_of signals_of fst snd].
  destruct input as [text |].
  - rewrite bind_push. reflexivity.
  - unfold start_reading.
    rewrite bind_eq, bind_get_priv. reflexivity.
Qed.

Lemma main_context_iteration_read s c d q result status m :
  main_context m = g_input_stream_read_async s c d :: q ->
  main_context_iteration result status m
  = read_output_ready s result d status (with_queue q m).
Proof.
  intros H. unfold main_context_iteration. rewrite H. reflexivity.
Qed.

Lemma main_context_iteration_write s text c d q result status m :
  main_context m = g_output_stream_write_async s text c d :: q ->
  main_context_iteration result status m
  = write_input_ready s (match result with Some _ => true | None => false end)
                      d (with_queue q m).
Proof.
  intros H. unfold main_context_iteration. rewrite H. reflexivity.
Qed.

Lemma read_output_ready_end s d status m :
  existsb (Nat.eqb (data_cancellable d)) (cancelled m) = false ->
  let r := read_output_ready s (Some []) d status m in
  exit_status (priv (machine_of r))
  = (if Z.eqb (pid (priv m)) 0 then exit_status (priv m) else status)
  /\ gitg_runner_running (priv (machine_of r)) = false
  /\ main_context (machine_of r) = main_context m
  /\ exists updates,
      signals_of r = updates ++ [END_LOADING false]
      /\ forallb is_update updates = true.
Proof.
  intros Hlive r. subst r. unfold read_output_ready.
  rewrite bind_is_cancelled, Hlive.
  rewrite bind_eq, bind_get_priv, bind_runner_io_exit, bind_close_streams.
  pose proof (emit_rest_control m) as Hctl.
  pose proof (emit_rest_signals m) as Hsig.
  set (m1 := machine_of (emit_rest m)) in *.
  cbn [g_signal_emit result_of machine_of signals_of fst snd].
  repeat apply conj.
  - unfold closed, reaped. cbn [with_priv priv].
    rewrite (control_pid _ _ Hctl).
    destruct (Z.eqb (pid (priv m)) 0);
      [cbn; unfold control in Hctl; congruence | reflexivity].
  - reflexivity.
  - cbn [with_priv main_context]. unfold control in Hctl. congruence.
  - eauto.
Qed.

Lemma read_output_ready_chunk s d status c0 chunk m :
  existsb (Nat.eqb (data_cancellable d)) (cancelled m) = false ->
  let r := read_output_ready s (Some (c0 :: chunk)) d status m in
  exists s' c',
    main_context (machine_of r)
    = main_context m ++ [g_input_stream_read_async s' c' d]
    /\ cancelled (machine_of r) = cancelled m
    /\ pid (priv (machine_of r)) = pid (priv m)
    /\ exit_status (priv (machine_of r)) = exit_status (priv m)
    /\ forallb is_update (signals_of r) = true.
Proof.
  intros Hlive r. subst r. unfold read_output_ready.
  rewrite bind_is_cancelled, Hlive, bind_update_priv, bind_eq.
  pose proof (parse_lines_control (c0 :: chunk)
                (with_priv (set_read_buffer (c0 :: chunk)) m)) as Hctl.
  pose proof (parse_lines_signals (c0 :: chunk)
                (with_priv (set_read_buffer (c0 :: chunk)) m)) as Hsig.
  set (m1 := machine_of (parse_lines (c0 :: chunk)
                           (with_priv (set_read_buffer (c0 :: chunk)) m))) in *.
  assert (Hcan : cancelled m1 = cancelled m)
    by (unfold control in Hctl; cbn in Hctl; congruence).
  rewrite bind_is_cancelled, Hcan, Hlive.
  unfold start_reading. rewrite bind_get_priv.
  cbn [main_context_push result_of machine_of signals_of fst snd main_context
       cancelled priv].
  exists (input_stream (priv m1)), (cancellable (priv m1)).
  unfold control in Hctl. cbn in Hctl.
  repeat apply conj; try congruence.
  now rewrite app_nil_r.
Qed.

Lemma main_loop_reads chunks status :
  forall m s c d,
    main_context m = [g_input_stream_read_async s c d] ->
    existsb (Nat.eqb (data_cancellable d)) (cancelled m) = false ->
    Forall (fun chunk => chunk <> []) chunks ->
    let r := main_loop (map Some chunks ++ [Some []]) status m in
    exit_status (priv (machine_of r))
    = (if Z.eqb (pid (priv m)) 0 then exit_status (priv m) else status)
    /\ gitg_runner_running (priv (machine_of r)) = false
    /\ exists updates,
        signals_of r = updates ++ [END_LOADING false]
        /\ forallb is_update updates = true.
Proof.
  induction chunks as [| chunk chunks IH]; intros m s c d Hq Hlive Hne r;
    subst r; cbn [map app main_loop].
  - rewrite bind_eq. cbn [ret result_of machine_of signals_of fst snd].
    rewrite (main_context_iteration_read s c d [] _ _ m Hq).
    destruct (read_output_ready_end s d status (with_queue [] m) Hlive)
      as (Hex & Hrun & _ & updates & Hsig & Hup).
    rewrite Hex, Hrun, Hsig, app_nil_r. eauto.
  - inversion Hne as [| ? ? Hchunk Hrest]; subst.
    destruct chunk as [| c0 chunk]; [congruence |].
    rewrite bind_eq.
    rewrite (main_context_iteration_read s c d [] _ _ m Hq).
    destruct (read_output_ready_chunk s d status c0 chunk (with_queue [] m)
                Hlive) as (s' & c' & Hq' & Hcan & Hpid & Hex & Hup).
    set (m1 := machine_of (read_output_ready s (Some (c0 :: chunk)) d status
                             (with_queue [] m))) in *.
    cbn [with_queue main_context cancelled priv app] in Hq', Hcan, Hpid, Hex.
    rewrite <- Hcan in Hlive.
    destruct (IH m1 s' c' d Hq' Hlive Hrest) as (Hex1 & Hrun1 & ups & Hs1 & Hu1).
    cbn [result_of machine_of signals_of fst snd].
    rewrite Hex1, Hrun1, Hpid, Hex, Hs1.
    repeat apply conj; try reflexivity.
    eexists. rewrite app_assoc. split; [reflexivity |].
    rewrite forallb_app, Hup, Hu1. reflexivity.
Qed.

Lemma existsb_older n l :
  Forall (fun c => (c < n)%nat) l -> existsb (Nat.eqb n) l = false.
Proof.
  induction 1 as [| c l Hc _ IH]; [reflexivity |].
  cbn [existsb]. rewrite IH, orb_false_r. apply Nat.eqb_neq. lia.
Qed.

Lemma spawned_machine_props m child i o :
  synchronized (priv (spawned_machine m child i o)) = synchronized (priv m)
  /\ pid (priv (spawned_machine m child i o)) = Zpos child
  /\ main_context (spawned_machine m child i o) = main_context m
  /\ signals_of
       (gitg_runner_cancel
          (with_priv (set_pid (Zpos child)) (machine_of (gitg_runner_cancel m))))
     = []
  /\ (cancellable_fresh m ->
      existsb (Nat.eqb (cancellable (priv (spawned_machine m child i o))))
              (cancelled (spawned_machine m child i o)) = false).
Proof.
  unfold spawned_machine.
  assert (Hidle :
            input_stream
              (priv (with_priv (set_pid (Zpos child))
                               (machine_of (gitg_runner_cancel m)))) = None)
    by apply gitg_runner_cancel_stops.
  rewrite (gitg_runner_cancel_idle _ Hidle).
  cbn [machine_of signals_of fst snd].
  destruct (input_stream (priv m)) as [s |] eqn:E.
  - rewrite (gitg_runner_cancel_running m s E).
    cbn [machine_of fst snd].
    unfold cancel_machine, closed, reaped, attach_streams.
    repeat apply conj.
    + destruct i, o, (Z.eqb (pid _) 0); reflexivity.
    + destruct i, o; reflexivity.
    + reflexivity.
    + reflexivity.
    + intros (Hlt & _ & Hall).
      assert (Hc : cancellable
                     (priv
                        (with_priv (attach_streams i o)
                           (with_priv (set_pid (Zpos child)) (cancel_machine m))))
                   = next_cancellable m).
      { unfold cancel_machine, closed, reaped, attach_streams.
        destruct i, o, (Z.eqb (pid _) 0); reflexivity. }
      unfold cancel_machine, closed, reaped, attach_streams in Hc.
      rewrite Hc. cbn [with_priv cancelled existsb].
      rewrite (existsb_older _ _ Hall), orb_false_r.
      apply Nat.eqb_neq. lia.
  - rewrite (gitg_runner_cancel_idle m E). cbn [machine_of fst snd].
    unfold attach_streams.
    repeat apply conj; try (destruct i, o; reflexivity).
    intros (_ & Hlive & _).
    destruct i, o; exact Hlive.
Qed.

Lemma gitg_runner_run_with_arguments_started work_tree argv input w m
      child stdinf stdoutf :
  g_spawn_async_with_pipes w work_tree argv (environment (priv m))
    (match input with Some _ => true | None => false end)
  = Some (child, stdinf, stdoutf) ->
  let m2 := spawned_machine m child (Some (g_unix_input_stream_new stdoutf))
              (match input with
               | Some _ => Some (g_unix_output_stream_new stdinf)
               | None => None
               end) in
  let r := if synchronized (priv m) then run_sync input w m2
           else ((true, None),
                 with_queue (main_context m ++ [first_request input (priv m2)])
                            m2,
                 []) in
  gitg_runner_run_with_arguments work_tree argv input w m
  = (result_of r, machine_of r,
     signals_of (gitg_runner_cancel m) ++ BEGIN_LOADING :: signals_of r).
Proof.
  intros Hspawn m2 r.
  rewrite (gitg_runner_run_with_arguments_spawned _ _ _ _ _ _ _ _ Hspawn).
  cbv zeta. rewrite gitg_runner_run_streams_eq. cbv zeta.
  fold (spawned_machine m child (Some (g_unix_input_stream_new stdoutf))
          (match input with
           | Some _ => Some (g_unix_output_stream_new stdinf)
           | None => None
           end)).
  fold m2.
  destruct (spawned_machine_props m child
              (Some (g_unix_input_stream_new stdoutf))
              (match input with
               | Some _ => Some (g_unix_output_stream_new stdinf)
               | None => None
               end)) as (Hsync & _ & Hq & Hsil & _).
  fold m2 in Hsync, Hq. rewrite Hsync, Hq, Hsil.
  reflexivity.
Qed.

(** C6, as the code has it: a synchronous run whose child writes nothing and
    exits with a non-zero status returns [FALSE] with the error
    [GITG_RUNNER_ERROR_EXIT], although nothing failed while writing or
    reading. *)
Lemma sync_nonzero_exit_is_run_failure :
  let w := mkWorld (fun _ _ _ _ => Some (7%positive, 3%Z, 4%Z)) true [] 256 in
  let r := gitg_runner_run [txt [103]] w (gitg_runner_new_synchronized 16) in
  result_of r = (false, Some GITG_RUNNER_ERROR_EXIT)
  /\ signals_of r = [BEGIN_LOADING; UPDATE []; END_LOADING false]
  /\ gitg_runner_get_exit_status (priv (machine_of r)) = 256%Z.
Proof. cbv zeta. repeat apply conj; vm_compute; reflexivity. Qed.

(** C6, amended: let the spawn and the write of the input succeed, every read
    succeed, and the child exit with a non-zero status.  In asynchronous mode
    [run] returns success, and once the main loop has delivered the chunks
    and the end of the stream the status is what [exitStatus] returns, the
    trace ending with the end signal, not flagged cancelled.  In synchronous
    mode the status is stored and the end emitted the same way, but [run]
    itself returns failure, with the error [GITG_RUNNER_ERROR_EXIT]. *)
Theorem nonzero_exit_reporting :
  forall (m : Machine) work_tree argv input (w : World) chunks
         child stdinf stdoutf,
    g_spawn_async_with_pipes w work_tree argv (environment (priv m))
      (match input with Some _ => true | None => false end)
    = Some (child, stdinf, stdoutf) ->
    g_output_stream_write_all w = true ->
    g_input_stream_read_all w = map Some chunks ->
    Forall (fun chunk => chunk <> []) chunks ->
    waitpid w <> 0%Z ->
    main_context m = [] ->
    cancellable_fresh m ->
    let r := gitg_runner_run_with_arguments work_tree argv input w m in
    let ended t :=
      exists updates,
        t = updates ++ [END_LOADING false]
        /\ forallb is_update updates = true in
    if synchronized (priv m) then
      result_of r = (false, Some GITG_RUNNER_ERROR_EXIT)
      /\ gitg_runner_get_exit_status (priv (machine_of r)) = waitpid w
      /\ gitg_runner_running (priv (machine_of r)) = false
      /\ exists t, signals_of r
                   = signals_of (gitg_runner_cancel m) ++ BEGIN_LOADING :: t
                   /\ ended t
    else
      result_of r = (true, None)
      /\ signals_of r = signals_of (gitg_runner_cancel m) ++ [BEGIN_LOADING]
      /\ let r' := main_loop (async_completions input w) (waitpid w)
                             (machine_of r) in
         gitg_runner_get_exit_status (priv (machine_of r')) = waitpid w
         /\ gitg_runner_running (priv (machine_of r')) = false
         /\ ended (signals_of r').
Proof.
  intros m work_tree argv input w chunks child stdinf stdoutf
         Hspawn Hwrite Hreads Hne Hstatus Hq Hfresh r ended.
  subst r.
  rewrite (gitg_runner_run_with_arguments_started _ _ _ _ _ _ _ _ Hspawn).
  cbv zeta.
  set (o := match input with
            | Some _ => Some (g_unix_output_stream_new stdinf)
            | None => None
            end).
  set (m2 := spawned_machine m child (Some (g_unix_input_stream_new stdoutf)) o).
  destruct (spawned_machine_props m child
              (Some (g_unix_input_stream_new stdoutf)) o)
    as (_ & Hpid & Hq2 & _ & Hlive).
  fold m2 in Hpid, Hq2, Hlive. specialize (Hlive Hfresh).
  destruct (synchronized (priv m)).
  - assert (Hw : match input with
                 | Some _ => g_output_stream_write_all w
                 | None => true
                 end = true) by (destruct input; auto).
    destruct (run_sync_completes input w chunks m2 Hw Hreads)
      as (Hres & Hex & Hrun & updates & Hsig & Hup).
    cbn [result_of machine_of signals_of fst snd].
    unfold gitg_runner_get_exit_status.
    rewrite Hres, Hex, Hrun, Hpid.
    apply Z.eqb_neq in Hstatus. rewrite Hstatus.
    repeat apply conj; try reflexivity.
    exists (signals_of (run_sync input w m2)).
    split; [reflexivity |]. exists updates. auto.
  - cbn [result_of machine_of signals_of fst snd].
    split; [reflexivity |]. split; [reflexivity |].
    rewrite Hq. cbn [app]. unfold async_completions. rewrite Hreads.
    unfold gitg_runner_get_exit_status.
    destruct input as [text |]; cbn [first_request app main_loop].
    + rewrite bind_eq.
      match goal with
      | |- context [main_context_iteration ?res ?st ?mm] =>
          rewrite (main_context_iteration_write
                     (output_stream (priv m2)) text (cancellable (priv m2))
                     (async_data_new (cancellable (priv m2))) [] res st mm
                     eq_refl)
      end.
      unfold write_input_ready, start_reading.
      rewrite bind_is_cancelled.
      cbn [with_queue cancelled data_cancellable priv].
      rewrite Hlive, bind_ret. cbn [negb].
      rewrite bind_get_priv.
      cbn [main_context_push result_of machine_of signals_of fst snd app
           with_queue main_context priv cancelled next_cancellable].
      match goal with
      | |- context [main_loop _ _ ?m3] =>
          destruct (main_loop_reads chunks (waitpid w) m3
                      (input_stream (priv m2)) (cancellable (priv m2))
                      (async_data_new (cancellable (priv m2)))
                      eq_refl Hlive Hne)
            as (Hex & Hrun & Hend)
      end.
      cbn [priv] in Hex. rewrite Hpid in Hex. auto.
    + destruct (main_loop_reads chunks (waitpid w)
                  (with_queue
                     [g_input_stream_read_async (input_stream (priv m2))
                        (cancellable (priv m2))
                        (async_data_new (cancellable (priv m2)))] m2)
                  (input_stream (priv m2)) (cancellable (priv m2))
                  (async_data_new (cancellable (priv m2)))
                  eq_refl Hlive Hne)
        as (Hex & Hrun & Hend).
      cbn [with_queue priv] in Hex. rewrite Hpid in Hex. auto.
Qed.

Lemma nonzero_exit_reporting_witness :
  let w := mkWorld (fun _ _ _ _ => Some (7%positive, 3%Z, 4%Z)) true
                   [Some (txt [97; 10; 98])] 256 in
  let r := gitg_runner_run_with_arguments None [txt [103]] None w
                                          (gitg_runner_new 16) in
  result_of r = (true, None)
  /\ gitg_runner_get_exit_status
       (priv (machine_of (main_loop (async_completions None w) 256
                                    (machine_of r)))) = 256%Z.
Proof.
  cbv zeta.
  assert (Hne : Forall (fun chunk : list gchar => chunk <> [])
                       [txt [97; 10; 98]])
    by (repeat constructor; discriminate).
  assert (Hfresh : cancellable_fresh (gitg_runner_new 16))
    by (repeat split; [cbn; lia | constructor]).
  assert (Hstatus : 256%Z <> 0%Z) by discriminate.
  pose proof (nonzero_exit_reporting
                (gitg_runner_new 16) None [txt [103]] None
                (mkWorld (fun _ _ _ _ => Some (7%positive, 3%Z, 4%Z)) true
                         [Some (txt [97; 10; 98])] 256)
                [txt [97; 10; 98]] 7%positive 3%Z 4%Z
                eq_refl eq_refl eq_refl Hne Hstatus eq_refl Hfresh) as H.
  cbv zeta in H. cbn [gitg_runner_new new_runner priv synchronized] in H.
  destruct H as (Hres & _ & Hex & _).
  split; [exact Hres | exact Hex].
Defined.

(** ** The pointers [find_newline] returns stay inside the buffer *)

Lemma UTF8_GET_reads_continuations count :
  forall result p,
    UTF8_GET result p count <> gunichar_minus_one ->
    (count <= length p)%nat.
Proof.
  induction count as [| count IH]; intros result p H; [lia |].
  cbn [UTF8_GET] in H.
  destruct p as [| b p]; cbn [hd tl] in H.
  - exfalso. apply H. reflexivity.
  - destruct (N.eqb (N.land (guchar_of b) 192) 128); [| congruence].
    apply IH in H. cbn [length]. lia.
Qed.

Lemma UTF8_COMPUTE_len c mask len :
  UTF8_COMPUTE (guchar_of c) = Some (mask, len) ->
  len = g_utf8_skip (guchar_of c).
Proof.
  destruct c as [[] [] [] [] [] [] [] []]; vm_compute; congruence.
Qed.

Lemma g_utf8_get_char_in_bounds c l :
  g_utf8_get_char (c :: l) <> gunichar_minus_one ->
  (next_char_skip (c :: l) <= length (c :: l))%nat.
Proof.
  unfold g_utf8_get_char, next_char_skip. cbn [hd tl length].
  destruct (UTF8_COMPUTE (guchar_of c)) as [[mask len] |] eqn:E;
    [| congruence].
  apply UTF8_COMPUTE_len in E. subst len. intros H.
  apply UTF8_GET_reads_continuations in H. lia.
Qed.

Lemma find_newline_loop_in_bounds fuel :
  forall ptr off nl le,
    find_newline_loop fuel ptr off = Some (nl, le) ->
    (le <= off + length ptr)%nat.
Proof.
  induction fuel as [| fuel IH]; intros ptr off nl le H;
    cbn [find_newline_loop] in H; [discriminate |].
  destruct ptr as [| c l]; [discriminate |].
  assert (Hlf : forall p, N.eqb (g_utf8_get_char p) (guchar_of LF) = true ->
                          g_utf8_get_char p <> gunichar_minus_one).
  { intros p Hp. apply N.eqb_eq in Hp. rewrite Hp. discriminate. }
  destruct (N.eqb (g_utf8_get_char (c :: l)) (guchar_of LF)) eqn:E1.
  { injection H as _ Hle. subst le.
    pose proof (g_utf8_get_char_in_bounds c l (Hlf _ E1)). lia. }
  unfold g_utf8_next_char in H.
  assert (Hlen : length (skipn (next_char_skip (c :: l)) (c :: l))
                 = (length (c :: l) - next_char_skip (c :: l))%nat)
    by apply length_skipn.
  destruct (N.eqb (g_utf8_get_char (c :: l)) (guchar_of CR)).
  { destruct (skipn (next_char_skip (c :: l)) (c :: l)) as [| d l'] eqn:En;
      [discriminate |].
    destruct (N.eqb (g_utf8_get_char (d :: l')) (guchar_of LF)) eqn:E2;
      injection H as _ Hle; subst le.
    - pose proof (g_utf8_get_char_in_bounds d l' (Hlf _ E2)) as Hb.
      rewrite Hlen in Hb. cbn [length] in *. lia.
    - cbn [length] in *. lia. }
  destruct (skipn (next_char_skip (c :: l)) (c :: l)) as [| d l'] eqn:En.
  { destruct fuel; discriminate. }
  apply IH in H. rewrite Hlen in H. cbn [length] in *. lia.
Qed.

(** A newline found lies before the end of its line, which lies inside the
    buffer: the [g_strndup] calls of [parse_lines] read no byte past [end]. *)
Lemma find_newline_in_bounds ptr nl le :
  find_newline ptr = Some (nl, le) -> (nl < le <= length ptr)%nat.
Proof.
  intros H. split.
  - apply (find_newline_progress ptr nl le H).
  - apply find_newline_loop_in_bounds in H. lia.
Qed.

(** ** The scanner against a byte-by-byte reading of the boundary rule *)

Lemma UTF8_GET_prefix count :
  forall result s t,
    UTF8_GET result s count = UTF8_GET result (s ++ t) count
    \/ UTF8_GET result s count = gunichar_minus_one.
Proof.
  induction count as [| count IH]; intros result s t; cbn [UTF8_GET];
    [left; reflexivity |].
  destruct s as [| b s]; [right; reflexivity |].
  cbn [app hd tl].
  destruct (N.eqb (N.land (guchar_of b) 192) 128); [apply IH | now left].
Qed.

Lemma g_utf8_get_char_prefix c s t :
  g_utf8_get_char (c :: s) = g_utf8_get_char (c :: s ++ t)
  \/ g_utf8_get_char (c :: s) = gunichar_minus_one.
Proof.
  unfold g_utf8_get_char. cbn [hd tl].
  destruct (UTF8_COMPUTE (guchar_of c)) as [[mask len] |]; [| now left].
  apply UTF8_GET_prefix.
Qed.

Lemma utf8_text_continuations l :
  forall k, utf8_text k l = true -> utf8_continuations k l = true.
Proof.
  induction l as [| c l IH]; intros k H; [reflexivity |].
  destruct k as [| k]; cbn [utf8_text utf8_continuations] in *;
    apply andb_true_iff in H as [H1 H2].
  - apply IH, H2.
  - rewrite H1. apply IH, H2.
Qed.

Lemma utf8_text_prefix a :
  forall k t, utf8_text k (a ++ t) = true -> utf8_text k a = true.
Proof.
  induction a as [| c a IH]; intros k t H; [reflexivity |].
  destruct k as [| k]; cbn [app utf8_text] in *;
    apply andb_true_iff in H as [H1 H2];
    rewrite (IH _ _ H2), andb_true_r; [| exact H1].
  destruct (N.ltb (guchar_of c) 128); [reflexivity |].
  cbn [orb] in *.
  destruct (g_utf8_get_char_prefix c a t) as [E | E]; rewrite E;
    [exact H1 | reflexivity].
Qed.

Lemma utf8_text_skipn k :
  forall l,
    utf8_text k l = true ->
    utf8_text 0 (skipn k l) = true
    /\ Forall (fun c => is_continuation c = true) (firstn k l).
Proof.
  induction k as [| k IH]; intros l H.
  - rewrite skipn_O, firstn_O. auto.
  - destruct l as [| c l]; [rewrite skipn_nil, firstn_nil; auto |].
    cbn [utf8_text] in H. apply andb_true_iff in H as [Hc Hl].
    destruct (IH l Hl) as [Hs Hf]. cbn [skipn firstn]. auto.
Qed.

(** In UTF-8 text an ASCII byte never sits inside a character: what starts
    at it is text again. *)
Lemma utf8_text_at_ascii x :
  forall k c y,
    utf8_text k (x ++ c :: y) = true ->
    (guchar_of c < 128)%N ->
    utf8_text 0 (c :: y) = true.
Proof.
  induction x as [| b x IH]; intros k c y H Hc.
  - cbn [app] in H. destruct k as [| k]; [exact H |].
    cbn [utf8_text] in H. apply andb_true_iff in H as [Hcont _].
    apply is_continuation_high in Hcont. lia.
  - cbn [app] in H. destruct k as [| k]; cbn [utf8_text] in H;
      apply andb_true_iff in H as [_ H]; eapply IH; eauto.
Qed.

Lemma utf8_text_after_ascii c y :
  utf8_text 0 (c :: y) = true ->
  (guchar_of c < 128)%N ->
  utf8_text 0 y = true.
Proof.
  intros H Hc. cbn [utf8_text] in H. apply andb_true_iff in H as [_ H].
  now rewrite (g_utf8_skip_ascii c Hc) in H.
Qed.

Lemma ascii_eqb_guchar c d :
  N.eqb (guchar_of c) (guchar_of d) = Ascii.eqb c d.
Proof.
  destruct (Ascii.eqb_spec c d) as [-> | Hne].
  - apply N.eqb_refl.
  - apply N.eqb_neq. intros H. apply Hne.
    unfold guchar_of in H.
    rewrite <- (ascii_N_embedding c), <- (ascii_N_embedding d), H.
    reflexivity.
Qed.

Lemma byte_first_terminator_skip k :
  forall s off,
    Forall (fun c => is_continuation c = true) (firstn k s) ->
    (k <= length s)%nat ->
    byte_first_terminator s off = byte_first_terminator (skipn k s) (off + k).
Proof.
  induction k as [| k IH]; intros s off Hf Hlen.
  - now rewrite skipn_O, Nat.add_0_r.
  - destruct s as [| c s]; [cbn [length] in Hlen; lia |].
    cbn [firstn] in Hf. inversion Hf as [| ? ? Hc Hf']; subst.
    destruct (high_byte_no_terminator c (is_continuation_high c Hc))
      as [Hlf Hcr].
    cbn [byte_first_terminator skipn].
    destruct (Ascii.eqb_spec c LF); [contradiction |].
    destruct (Ascii.eqb_spec c CR); [contradiction |].
    rewrite (IH s (S off) Hf') by (cbn [length] in Hlen; lia).
    f_equal. lia.
Qed.

Lemma byte_first_terminator_continuations s :
  forall off,
    Forall (fun c => is_continuation c = true) s ->
    byte_first_terminator s off = None.
Proof.
  induction s as [| c s IH]; intros off Hf; [reflexivity |].
  inversion Hf as [| ? ? Hc Hf']; subst.
  destruct (high_byte_no_terminator c (is_continuation_high c Hc))
    as [Hlf Hcr].
  cbn [byte_first_terminator].
  destruct (Ascii.eqb_spec c LF); [contradiction |].
  destruct (Ascii.eqb_spec c CR); [contradiction |].
  apply IH, Hf'.
Qed.

Lemma find_newline_loop_nil fuel off : find_newline_loop fuel [] off = None.
Proof. destruct fuel; reflexivity. Qed.

Lemma utf8_text_lead_not_terminator c l :
  utf8_text 0 (c :: l) = true ->
  (128 <= guchar_of c)%N ->
  N.eqb (g_utf8_get_char (c :: l)) (guchar_of LF) = false
  /\ N.eqb (g_utf8_get_char (c :: l)) (guchar_of CR) = false.
Proof.
  intros H Hc. cbn [utf8_text] in H. apply andb_true_iff in H as [H _].
  destruct (N.ltb_spec (guchar_of c) 128) as [? | _]; [lia |].
  cbn [orb] in H. apply negb_true_iff, orb_false_iff in H. exact H.
Qed.

Lemma find_newline_loop_refines fuel :
  forall s off,
    (length s <= fuel)%nat ->
    utf8_text 0 s = true ->
    find_newline_loop fuel s off = byte_first_terminator s off.
Proof.
  induction fuel as [| fuel IH]; intros s off Hlen Hutf.
  { destruct s; [reflexivity | cbn [length] in Hlen; lia]. }
  destruct s as [| c l]; [reflexivity |].
  cbn [find_newline_loop byte_first_terminator].
  rewrite g_utf8_next_char_cons. unfold next_char_skip. cbn [hd].
  pose proof Hutf as Htail. cbn [utf8_text] in Htail.
  apply andb_true_iff in Htail as [_ Htail].
  destruct (utf8_text_skipn _ _ Htail) as [Hnext Hconts].
  assert (Hk : (length (skipn (g_utf8_skip (guchar_of c) - 1) l) <= fuel)%nat).
  { rewrite length_skipn. cbn [length] in Hlen. lia. }
  destruct (N.ltb_spec (guchar_of c) 128) as [Hlow | Hhigh].
  - rewrite (g_utf8_get_char_ascii c l Hlow), !ascii_eqb_guchar.
    rewrite (g_utf8_skip_ascii c Hlow) in *. cbn [Nat.sub] in *.
    rewrite skipn_O in *.
    destruct (Ascii.eqb c LF); [reflexivity |].
    destruct (Ascii.eqb c CR).
    + destruct l as [| d l']; [reflexivity |].
      destruct (N.ltb_spec (guchar_of d) 128) as [Hd | Hd].
      * rewrite (g_utf8_get_char_ascii d l' Hd), ascii_eqb_guchar.
        cbn [hd].
        rewrite ?(g_utf8_skip_ascii d Hd), ?(g_utf8_skip_ascii c Hlow).
        destruct (Ascii.eqb d LF); [do 2 f_equal; lia | reflexivity].
      * destruct (utf8_text_lead_not_terminator d l' Hnext Hd) as [Hn _].
        rewrite Hn.
        destruct (high_byte_no_terminator d Hd) as [Hlf _].
        destruct (Ascii.eqb_spec d LF); [contradiction | reflexivity].
    + rewrite (IH l (off + 1)%nat Hk Hnext). f_equal. lia.
  - destruct (utf8_text_lead_not_terminator c l Hutf Hhigh) as [Hn1 Hn2].
    rewrite Hn1, Hn2.
    destruct (high_byte_no_terminator c Hhigh) as [Hlf Hcr].
    destruct (Ascii.eqb_spec c LF); [contradiction |].
    destruct (Ascii.eqb_spec c CR); [contradiction |].
    pose proof (g_utf8_skip_pos (guchar_of c)) as Hpos.
    destruct (Nat.le_gt_cases (g_utf8_skip (guchar_of c) - 1) (length l))
      as [Hin | Hout].
    + rewrite (IH _ _ Hk Hnext).
      rewrite (byte_first_terminator_skip _ l (S off) Hconts Hin).
      f_equal. lia.
    + rewrite skipn_all2 by lia. rewrite find_newline_loop_nil.
      rewrite firstn_all2 in Hconts by lia.
      symmetry. apply byte_first_terminator_continuations, Hconts.
Qed.

Lemma find_newline_refines s :
  utf8_text 0 s = true -> find_newline s = byte_first_terminator s 0.
Proof.
  intros H. apply find_newline_loop_refines; [apply Nat.le_refl | exact H].
Qed.

Lemma byte_first_terminator_bounds s :
  forall off nl le,
    byte_first_terminator s off = Some (nl, le) ->
    (off <= nl /\ nl < le /\ le <= off + length s)%nat.
Proof.
  induction s as [| c s IH]; intros off nl le H; [discriminate |].
  cbn [byte_first_terminator length] in *.
  destruct (Ascii.eqb c LF); [injection H as <- <-; lia |].
  destruct (Ascii.eqb c CR).
  - destruct s as [| d s]; [discriminate |]. cbn [length].
    destruct (Ascii.eqb d LF); injection H as <- <-; lia.
  - apply IH in H. lia.
Qed.

Lemma byte_first_terminator_prefix s :
  forall t off r,
    byte_first_terminator s off = Some r ->
    byte_first_terminator (s ++ t) off = Some r.
Proof.
  induction s as [| c s IH]; intros t off r H; [discriminate |].
  cbn [byte_first_terminator app] in *.
  destruct (Ascii.eqb c LF); [exact H |].
  destruct (Ascii.eqb c CR).
  - destruct s as [| d s]; [discriminate | exact H].
  - apply IH, H.
Qed.

Lemma byte_first_terminator_before s :
  forall off nl le,
    byte_first_terminator s off = Some (nl, le) ->
    no_terminator (firstn (nl - off) s).
Proof.
  induction s as [| c s IH]; intros off nl le H; [discriminate |].
  cbn [byte_first_terminator] in H.
  destruct (Ascii.eqb_spec c LF) as [| Hlf].
  { injection H as <- <-. rewrite Nat.sub_diag. split; intros []. }
  destruct (Ascii.eqb_spec c CR) as [| Hcr].
  { destruct s as [| d s]; [discriminate |].
    destruct (Ascii.eqb d LF); injection H as <- <-;
      rewrite Nat.sub_diag; split; intros []. }
  pose proof (byte_first_terminator_bounds _ _ _ _ H) as Hb.
  apply IH in H. replace (nl - off)%nat with (S (nl - S off)) by lia.
  cbn [firstn]. destruct H as [H1 H2].
  split; intros [E | Hin]; auto.
Qed.

Lemma byte_first_terminator_none s :
  forall off, byte_first_terminator s off = None <-> terminator_free s.
Proof.
  induction s as [| c s IH]; intros off; cbn [byte_first_terminator
    terminator_free]; [tauto |].
  destruct (Ascii.eqb_spec c LF) as [-> | Hlf].
  { split; [discriminate | intros [H _]; congruence]. }
  destruct (Ascii.eqb_spec c CR) as [-> | Hcr].
  - destruct s as [| d s].
    + split; [intros _ | reflexivity].
      repeat split; auto.
    + split.
      * destruct (Ascii.eqb d LF); discriminate.
      * intros (_ & H & _). discriminate (H eq_refl).
  - rewrite IH. split.
    + intros H. repeat split; auto. intros; contradiction.
    + intros (_ & _ & H). exact H.
Qed.

Lemma utf8_text_tail k c l :
  utf8_text k (c :: l) = true -> exists k', utf8_text k' l = true.
Proof.
  destruct k; cbn [utf8_text]; intros H; apply andb_true_iff in H as [_ H];
    eauto.
Qed.

Lemma LF_low : (guchar_of LF < 128)%N.
Proof. vm_compute. reflexivity. Qed.

Lemma CR_low : (guchar_of CR < 128)%N.
Proof. vm_compute. reflexivity. Qed.

(** The end of a line found in text is the start of text again, whatever
    follows the buffer. *)
Lemma byte_first_terminator_boundary s :
  forall k off nl le t,
    byte_first_terminator s off = Some (nl, le) ->
    utf8_text k (s ++ t) = true ->
    utf8_text 0 (skipn (le - off) s ++ t) = true.
Proof.
  induction s as [| c s IH]; intros k off nl le t H Hutf; [discriminate |].
  pose proof (byte_first_terminator_bounds _ _ _ _ H) as Hb.
  cbn [byte_first_terminator] in H. cbn [app] in Hutf.
  destruct (Ascii.eqb_spec c LF) as [-> | Hlf].
  { injection H as <- <-.
    replace (off + 1 - off)%nat with 1%nat by lia. cbn [skipn].
    apply (utf8_text_after_ascii LF); [| apply LF_low].
    apply (utf8_text_at_ascii [] k LF); [exact Hutf | apply LF_low]. }
  destruct (Ascii.eqb_spec c CR) as [-> | Hcr].
  { assert (Hcr : utf8_text 0 (s ++ t) = true).
    { apply (utf8_text_after_ascii CR); [| apply CR_low].
      apply (utf8_text_at_ascii [] k CR); [exact Hutf | apply CR_low]. }
    destruct s as [| d s]; [discriminate |].
    destruct (Ascii.eqb_spec d LF) as [-> | Hd]; injection H as <- <-.
    - replace (off + 2 - off)%nat with 2%nat by lia. cbn [skipn].
      apply (utf8_text_after_ascii LF); [exact Hcr | apply LF_low].
    - replace (off + 1 - off)%nat with 1%nat by lia. exact Hcr. }
  destruct (utf8_text_tail _ _ _ Hutf) as [k' Hk'].
  pose proof (byte_first_terminator_bounds _ _ _ _ H) as Hb'.
  replace (le - off)%nat with (S (le - S off)) by lia. cbn [skipn].
  eapply IH; eauto.
Qed.

(** ** One text, any chunking *)

Lemma parse_lines_loop_fuel fuel :
  forall extra preserve ptr found,
    (length ptr < fuel)%nat ->
    parse_lines_loop (fuel + extra) preserve ptr found
    = parse_lines_loop fuel preserve ptr found.
Proof.
  induction fuel as [| fuel IH]; intros extra preserve ptr found Hlen; [lia |].
  cbn [Nat.add parse_lines_loop].
  destruct (find_newline ptr) as [[nl le] |] eqn:E; [| reflexivity].
  apply IH.
  destruct ptr as [| c l]; [discriminate |].
  apply find_newline_progress in E.
  rewrite length_skipn. cbn [length] in *. lia.
Qed.

Lemma parse_lines_loop_any_fuel f1 f2 preserve ptr found :
  (length ptr < f1)%nat -> (length ptr < f2)%nat ->
  parse_lines_loop f1 preserve ptr found
  = parse_lines_loop f2 preserve ptr found.
Proof.
  intros H1 H2.
  transitivity (parse_lines_loop (S (length ptr)) preserve ptr found).
  - replace f1 with (S (length ptr) + (f1 - S (length ptr)))%nat by lia.
    apply parse_lines_loop_fuel. lia.
  - replace f2 with (S (length ptr) + (f2 - S (length ptr)))%nat by lia.
    symmetry. apply parse_lines_loop_fuel. lia.
Qed.

Lemma parse_lines_loop_acc fuel :
  forall preserve ptr found,
    parse_lines_loop fuel preserve ptr found
    = (found ++ fst (parse_lines_loop fuel preserve ptr []),
       snd (parse_lines_loop fuel preserve ptr [])).
Proof.
  induction fuel as [| fuel IH]; intros preserve ptr found;
    cbn [parse_lines_loop].
  - now rewrite app_nil_r.
  - destruct (find_newline ptr) as [[nl le] |].
    + rewrite IH.
      rewrite (IH preserve (skipn le ptr) ([] ++ _)).
      cbn [fst snd app]. now rewrite <- app_assoc.
    + cbn [fst snd]. now rewrite app_nil_r.
Qed.

Lemma parse_lines_loop_step fuel preserve ptr found nl le :
  find_newline ptr = Some (nl, le) ->
  parse_lines_loop (S fuel) preserve ptr found
  = parse_lines_loop fuel preserve (skipn le ptr)
      (found ++ [if preserve then c_string (g_strndup ptr le)
                 else c_string (g_strndup ptr nl)]).
Proof. intros E. cbn [parse_lines_loop]. rewrite E. reflexivity. Qed.

Lemma parse_lines_loop_stop fuel preserve ptr found :
  find_newline ptr = None ->
  parse_lines_loop fuel preserve ptr found = (found, ptr).
Proof.
  intros E. destruct fuel; cbn [parse_lines_loop]; [| rewrite E]; reflexivity.
Qed.

(** Scanning a buffer and then, from where that stopped, the buffer with
    more text behind it, finds what scanning all of it at once finds. *)
Lemma parse_lines_loop_app fuel :
  forall preserve a t found,
    (length a < fuel)%nat ->
    utf8_text 0 (a ++ t) = true ->
    nul_free (a ++ t) = true ->
    parse_lines_loop (S (length (a ++ t))) preserve (a ++ t) found
    = parse_lines_loop
        (S (length (snd (parse_lines_loop fuel preserve a found) ++ t)))
        preserve
        (snd (parse_lines_loop fuel preserve a found) ++ t)
        (fst (parse_lines_loop fuel preserve a found)).
Proof.
  induction fuel as [| fuel IH]; intros preserve a t found Hlen Hutf Hnf;
    [lia |].
  pose proof (utf8_text_prefix a 0 t Hutf) as Hutfa.
  destruct (find_newline a) as [[nl le] |] eqn:E.
  2:{ rewrite (parse_lines_loop_stop (S fuel) preserve a found E).
      reflexivity. }
  rewrite (parse_lines_loop_step fuel preserve a found nl le E).
  pose proof E as Eb. rewrite (find_newline_refines a Hutfa) in Eb.
  pose proof (byte_first_terminator_bounds _ _ _ _ Eb) as Hb.
  pose proof (byte_first_terminator_boundary _ _ _ _ _ t Eb Hutf) as Hnext.
  rewrite Nat.sub_0_r in Hnext.
  apply (byte_first_terminator_prefix a t) in Eb.
  rewrite <- (find_newline_refines (a ++ t) Hutf) in Eb.
  rewrite (parse_lines_loop_step _ preserve (a ++ t) found nl le Eb).
  assert (Hskip : skipn le (a ++ t) = skipn le a ++ t).
  { rewrite skipn_app. replace (le - length a)%nat with 0%nat by lia.
    now rewrite skipn_O. }
  assert (Hnfa : nul_free a = true).
  { rewrite nul_free_app in Hnf. apply andb_true_iff in Hnf. tauto. }
  assert (Hline : forall n, (n <= length a)%nat ->
                            c_string (g_strndup (a ++ t) n)
                            = c_string (g_strndup a n)).
  { intros n Hn. rewrite (g_strndup_nul_free _ n Hnf),
      (g_strndup_nul_free _ n Hnfa), firstn_app.
    replace (n - length a)%nat with 0%nat by lia.
    now rewrite firstn_O, app_nil_r. }
  rewrite !Hline by lia. rewrite Hskip.
  assert (Hshort : (length (skipn le a) < fuel)%nat).
  { rewrite length_skipn. lia. }
  assert (Hnf' : nul_free (skipn le a ++ t) = true).
  { rewrite <- Hskip. apply nul_free_skipn, Hnf. }
  rewrite <- (IH preserve (skipn le a) t _ Hshort Hnext Hnf').
  apply parse_lines_loop_any_fuel.
  - rewrite length_app, length_app, length_skipn. lia.
  - lia.
Qed.

Lemma emit_rest_lines m :
  nul_free (rest_buffer (priv m)) = true ->
  emitted_lines (signals_of (emit_rest m))
  = flush_line (preserve_line_endings (priv m)) (rest_buffer (priv m)).
Proof.
  intros Hnf. rewrite emit_rest_eq. unfold flush_line.
  destruct (rest_buffer (priv m)) as [| c rb]; [reflexivity |].
  destruct (negb (preserve_line_endings (priv m))
            && Ascii.eqb (last (c :: rb) zero) CR);
    cbn [signals_of snd emitted_lines app].
  - now rewrite (c_string_removelast_nul _ Hnf).
  - now rewrite (c_string_nul_free _ Hnf).
Qed.

Lemma parse_lines_loop_nul_free fuel :
  forall preserve ptr found,
    nul_free ptr = true ->
    nul_free (snd (parse_lines_loop fuel preserve ptr found)) = true.
Proof.
  induction fuel as [| fuel IH]; intros preserve ptr found Hnf;
    cbn [parse_lines_loop]; [exact Hnf |].
  destruct (find_newline ptr) as [[nl le] |]; [| exact Hnf].
  apply IH, nul_free_skipn, Hnf.
Qed.

Lemma parse_lines_loop_text fuel :
  forall preserve ptr t found,
    utf8_text 0 (ptr ++ t) = true ->
    utf8_text 0 (snd (parse_lines_loop fuel preserve ptr found) ++ t) = true.
Proof.
  induction fuel as [| fuel IH]; intros preserve ptr t found Hutf;
    cbn [parse_lines_loop]; [exact Hutf |].
  destruct (find_newline ptr) as [[nl le] |] eqn:E; [| exact Hutf].
  apply IH.
  rewrite (find_newline_refines ptr (utf8_text_prefix ptr 0 _ Hutf)) in E.
  pose proof (byte_first_terminator_boundary _ _ _ _ _ _ E Hutf) as Hn.
  now rewrite Nat.sub_0_r in Hn.
Qed.

(** However the text is cut, the lines emitted are those of the text given
    in one piece. *)
Lemma feed_segments_whole chunks :
  forall m,
    find_newline (rest_buffer (priv m)) = None ->
    utf8_text 0 (rest_buffer (priv m) ++ concat chunks) = true ->
    nul_free (rest_buffer (priv m) ++ concat chunks) = true ->
    emitted_lines (signals_of (feed chunks m))
    = segment_all (preserve_line_endings (priv m))
                  (rest_buffer (priv m) ++ concat chunks).
Proof.
  induction chunks as [| chunk chunks IH]; intros m Hnone Hutf Hnf.
  - cbn [feed concat] in *. rewrite app_nil_r in *.
    rewrite (emit_rest_lines m Hnf). unfold segment_all.
    cbn [parse_lines_loop]. rewrite Hnone. reflexivity.
  - cbn [feed concat] in *. rewrite signals_bind, emitted_lines_app.
    rewrite parse_lines_eq. cbv zeta.
    cbn [signals_of snd machine_of fst result_of emitted_lines].
    rewrite app_nil_r.
    set (preserve := preserve_line_endings (priv m)).
    rewrite (app_assoc (rest_buffer (priv m)) chunk (concat chunks)) in *.
    set (all := rest_buffer (priv m) ++ chunk) in *.
    set (r := parse_lines_loop (S (length all)) preserve all []).
    assert (Hnfall : nul_free all = true).
    { rewrite nul_free_app in Hnf. apply andb_true_iff in Hnf. tauto. }
    assert (Hnfr : nul_free (snd r) = true)
      by apply parse_lines_loop_nul_free, Hnfall.
    pose proof (parse_lines_loop_exhausts (S (length all)) preserve all []
                  (Nat.lt_succ_diag_r _)) as Hex.
    fold r in Hex.
    pose proof (parse_lines_loop_app (S (length all)) preserve all
                  (concat chunks) [] (Nat.lt_succ_diag_r _) Hutf Hnf) as Happ.
    fold r in Happ.
    assert (Hutfr : utf8_text 0 (snd r ++ concat chunks) = true)
      by apply parse_lines_loop_text, Hutf.
    rewrite IH.
    + cbn [with_priv priv set_lines set_rest_buffer rest_buffer
           preserve_line_endings].
      fold preserve.
      rewrite (g_strndup_whole _ Hnfr).
      unfold segment_all at 2. rewrite Happ.
      rewrite parse_lines_loop_acc. cbn [fst snd].
      unfold segment_all. now rewrite app_assoc.
    + cbn [with_priv priv set_lines set_rest_buffer rest_buffer].
      now rewrite (g_strndup_whole _ Hnfr).
    + cbn [with_priv priv set_lines set_rest_buffer rest_buffer].
      now rewrite (g_strndup_whole _ Hnfr).
    + cbn [with_priv priv set_lines set_rest_buffer rest_buffer].
      rewrite (g_strndup_whole _ Hnfr), nul_free_app, Hnfr.
      rewrite nul_free_app in Hnf. apply andb_true_iff in Hnf. tauto.
Qed.

(** X1: the lines delivered do not depend on how the child's output is cut
    into chunks: two chunkings of the same UTF-8 text (NUL-free, fed to a
    runner with an empty remainder) give the same lines in the same order,
    under either line-ending policy. *)
Theorem chunking_does_not_change_lines :
  forall (chunks chunks' : list (list gchar)) (m : Machine),
    concat chunks = concat chunks' ->
    rest_buffer (priv m) = [] ->
    utf8_text 0 (concat chunks) = true ->
    nul_free (concat chunks) = true ->
    emitted_lines (signals_of (feed chunks m))
    = emitted_lines (signals_of (feed chunks' m)).
Proof.
  intros chunks chunks' m Hsame Hrest Hutf Hnf.
  rewrite (feed_segments_whole chunks m), (feed_segments_whole chunks' m);
    rewrite ?Hrest; cbn [app]; rewrite <- ?Hsame; auto.
Qed.

Lemma chunking_does_not_change_lines_witness :
  emitted_lines
    (signals_of (feed [txt [195]; txt [169; 13]; txt [10; 98; 13]; txt [99]]
                      (segmenter false)))
  = emitted_lines
      (signals_of (feed [txt [195; 169; 13; 10; 98; 13; 99]]
                        (segmenter false))).
Proof.
  apply (chunking_does_not_change_lines
           [txt [195]; txt [169; 13]; txt [10; 98; 13]; txt [99]]
           [txt [195; 169; 13; 10; 98; 13; 99]] (segmenter false));
    reflexivity.
Defined.

Lemma no_terminator_cons c l :
  c <> LF -> c <> CR -> no_terminator l -> no_terminator (c :: l).
Proof.
  intros Hlf Hcr [H1 H2]. split; intros [E | Hin]; auto.
Qed.

Lemma terminator_free_strip r :
  terminator_free r ->
  no_terminator (if Ascii.eqb (last r zero) CR then removelast r else r).
Proof.
  induction r as [| c r IH]; intros Ht.
  - cbn. split; intros [].
  - destruct Ht as (Hlf & Hcr & Ht).
    destruct r as [| d r].
    + cbn [last removelast].
      destruct (Ascii.eqb_spec c CR) as [-> | Hne].
      * split; intros [].
      * apply no_terminator_cons; [assumption | assumption | split; intros []].
    + assert (Hne : c <> CR) by (intros E; discriminate (Hcr E)).
      change (last (c :: d :: r) zero) with (last (d :: r) zero).
      change (removelast (c :: d :: r)) with (c :: removelast (d :: r)).
      specialize (IH Ht).
      destruct (Ascii.eqb (last (d :: r) zero) CR);
        apply no_terminator_cons; auto.
Qed.

Lemma parse_lines_loop_strip_clean fuel :
  forall ptr found,
    utf8_text 0 ptr = true ->
    nul_free ptr = true ->
    Forall no_terminator found ->
    Forall no_terminator (fst (parse_lines_loop fuel false ptr found)).
Proof.
  induction fuel as [| fuel IH]; intros ptr found Hutf Hnf Hfound;
    cbn [parse_lines_loop]; [exact Hfound |].
  destruct (find_newline ptr) as [[nl le] |] eqn:E; [| exact Hfound].
  rewrite (find_newline_refines ptr Hutf) in E.
  apply IH.
  - pose proof (byte_first_terminator_boundary ptr 0 0 nl le [] E) as Hn.
    rewrite !app_nil_r, Nat.sub_0_r in Hn. auto.
  - apply nul_free_skipn, Hnf.
  - apply Forall_app. split; [exact Hfound |].
    constructor; [| constructor].
    rewrite (g_strndup_nul_free ptr nl Hnf).
    apply byte_first_terminator_before in E. now rewrite Nat.sub_0_r in E.
Qed.

Lemma segment_all_strip_clean s :
  utf8_text 0 s = true ->
  nul_free s = true ->
  Forall no_terminator (segment_all false s).
Proof.
  intros Hutf Hnf. unfold segment_all. apply Forall_app. split.
  - apply parse_lines_loop_strip_clean; auto.
  - pose proof (parse_lines_loop_exhausts (S (length s)) false s []
                  (Nat.lt_succ_diag_r _)) as Hnone.
    pose proof (parse_lines_loop_text (S (length s)) false s [] []) as Ht.
    rewrite !app_nil_r in Ht. specialize (Ht Hutf).
    set (r := snd (parse_lines_loop (S (length s)) false s [])) in *.
    rewrite (find_newline_refines r Ht) in Hnone.
    apply byte_first_terminator_none in Hnone.
    apply terminator_free_strip in Hnone.
    unfold flush_line. destruct r as [| c r]; [constructor |].
    cbn [negb andb].
    destruct (Ascii.eqb (last (c :: r) zero) CR); constructor; auto.
Qed.

(** X2: under the strip policy no line delivered, by a pass or by the final
    flush, holds a line feed or a carriage return, however the UTF-8 text
    (NUL-free) is cut into chunks. *)
Theorem strip_lines_hold_no_terminator :
  forall (chunks : list (list gchar)) (m : Machine),
    preserve_line_endings (priv m) = false ->
    rest_buffer (priv m) = [] ->
    utf8_text 0 (concat chunks) = true ->
    nul_free (concat chunks) = true ->
    Forall no_terminator (emitted_lines (signals_of (feed chunks m))).
Proof.
  intros chunks m Hstrip Hrest Hutf Hnf.
  rewrite (feed_segments_whole chunks m); rewrite ?Hrest; cbn [app]; auto.
  rewrite Hstrip. apply segment_all_strip_clean; assumption.
Qed.

Lemma strip_lines_hold_no_terminator_witness :
  Forall no_terminator
         (emitted_lines
            (signals_of (feed [txt [97; 13]; txt [10; 98; 13; 99; 13]]
                              (segmenter false)))).
Proof.
  apply (strip_lines_hold_no_terminator
           [txt [97; 13]; txt [10; 98; 13; 99; 13]] (segmenter false));
    reflexivity.
Defined.

Lemma byte_first_terminator_at s :
  forall off nl le,
    byte_first_terminator s off = Some (nl, le) ->
    (nth (nl - off) s zero = LF /\ le = (nl + 1)%nat)
    \/ (nth (nl - off) s zero = CR /\ nth (S (nl - off)) s zero = LF
        /\ le = (nl + 2)%nat)
    \/ (nth (nl - off) s zero = CR /\ (S (nl - off) < length s)%nat
        /\ nth (S (nl - off)) s zero <> LF /\ le = (nl + 1)%nat).
Proof.
  induction s as [| c s IH]; intros off nl le H; [discriminate |].
  pose proof (byte_first_terminator_bounds _ _ _ _ H) as Hb.
  cbn [byte_first_terminator] in H.
  destruct (Ascii.eqb_spec c LF) as [-> | Hlf].
  { injection H as <- <-. rewrite Nat.sub_diag. left. auto. }
  destruct (Ascii.eqb_spec c CR) as [-> | Hcr].
  { destruct s as [| d s]; [discriminate |].
    destruct (Ascii.eqb_spec d LF) as [-> | Hd]; injection H as <- <-;
      rewrite Nat.sub_diag; cbn [nth length].
    - right. left. auto.
    - right. right. repeat split; auto. lia. }
  pose proof (byte_first_terminator_bounds _ _ _ _ H) as Hb'.
  apply IH in H.
  replace (nl - off)%nat with (S (nl - S off)) by lia.
  cbn [nth length].
  destruct H as [H | [H | H]]; [left | right; left | right; right];
    intuition lia.
Qed.

(** X3: on UTF-8 text [find_newline] follows the boundary rule read byte by
    byte.  It returns [NULL] exactly when the buffer holds no line feed and a
    carriage return at most as its last byte.  Otherwise no terminator byte
    comes before the pointer it returns, and that pointer is at a line feed
    (the line ends one byte later), at a carriage return followed by a line
    feed (two bytes later), or at a carriage return followed by another byte
    (one byte later). *)
Theorem find_newline_follows_boundary_rule :
  forall s : list gchar,
    utf8_text 0 s = true ->
    find_newline s = byte_first_terminator s 0
    /\ (find_newline s = None <-> terminator_free s)
    /\ (forall nl le,
           find_newline s = Some (nl, le) ->
           no_terminator (firstn nl s)
           /\ (le <= length s)%nat
           /\ ((nth nl s zero = LF /\ le = (nl + 1)%nat)
               \/ (nth nl s zero = CR /\ nth (S nl) s zero = LF
                   /\ le = (nl + 2)%nat)
               \/ (nth nl s zero = CR /\ (S nl < length s)%nat
                   /\ nth (S nl) s zero <> LF /\ le = (nl + 1)%nat))).
Proof.
  intros s Hutf. pose proof (find_newline_refines s Hutf) as Href.
  split; [exact Href |]. split.
  - rewrite Href. apply byte_first_terminator_none.
  - intros nl le H. pose proof (find_newline_in_bounds s nl le H) as Hb.
    rewrite Href in H.
    pose proof (byte_first_terminator_before s 0 nl le H) as Hbefore.
    pose proof (byte_first_terminator_at s 0 nl le H) as Hat.
    rewrite Nat.sub_0_r in Hbefore, Hat.
    split; [exact Hbefore |]. split; [lia | exact Hat].
Qed.

Lemma find_newline_follows_boundary_rule_witness :
  find_newline (txt [226; 130; 172; 13; 10; 98])
  = byte_first_terminator (txt [226; 130; 172; 13; 10; 98]) 0.
Proof.
  apply (find_newline_follows_boundary_rule (txt [226; 130; 172; 13; 10; 98])).
  reflexivity.
Defined.

(** ** The two line-ending policies *)

Lemma c_string_zeros k : c_string (repeat zero k) = [].
Proof. destruct k; reflexivity. Qed.

Lemma c_string_padded x k :
  c_string (c_string x ++ repeat zero k) = c_string x.
Proof.
  induction x as [| c x IH]; cbn [c_string app].
  - apply c_string_zeros.
  - destruct (Ascii.eqb c zero) eqn:E; cbn [c_string app].
    + apply c_string_zeros.
    + rewrite E, IH. reflexivity.
Qed.

Lemma c_string_g_strndup s n :
  c_string (g_strndup s n) = c_string (firstn n s).
Proof. unfold g_strndup. apply c_string_padded. Qed.

Lemma c_string_app_prefix x y : prefix_of (c_string x) (c_string (x ++ y)).
Proof.
  induction x as [| c x IH]; cbn [c_string app].
  - exists (c_string y). reflexivity.
  - destruct (Ascii.eqb c zero); [exists []; reflexivity |].
    destruct IH as [t Ht]. exists t. rewrite Ht. reflexivity.
Qed.

Lemma c_string_snoc_zero x : c_string (x ++ [zero]) = c_string x.
Proof.
  induction x as [| c x IH]; cbn [c_string app]; [reflexivity |].
  destruct (Ascii.eqb c zero); [reflexivity | now rewrite IH].
Qed.

Lemma c_string_firstn_prefix s n n' :
  (n <= n')%nat ->
  prefix_of (c_string (firstn n s)) (c_string (firstn n' s)).
Proof.
  intros Hle.
  rewrite <- (firstn_skipn n (firstn n' s)).
  rewrite firstn_firstn, Nat.min_l by exact Hle.
  apply c_string_app_prefix.
Qed.

Lemma parse_lines_loop_policies fuel :
  forall ptr found found',
    Forall2 prefix_of found found' ->
    Forall2 prefix_of (fst (parse_lines_loop fuel false ptr found))
                      (fst (parse_lines_loop fuel true ptr found'))
    /\ snd (parse_lines_loop fuel false ptr found)
       = snd (parse_lines_loop fuel true ptr found').
Proof.
  induction fuel as [| fuel IH]; intros ptr found found' Hacc;
    cbn [parse_lines_loop]; [auto |].
  destruct (find_newline ptr) as [[nl le] |] eqn:E; [| auto].
  apply IH. apply Forall2_app; [exact Hacc |].
  constructor; [| constructor].
  rewrite !c_string_g_strndup.
  apply c_string_firstn_prefix.
  apply find_newline_progress in E. lia.
Qed.

Lemma emit_rest_policies m m' :
  rest_buffer (priv m) = rest_buffer (priv m') ->
  preserve_line_endings (priv m) = false ->
  preserve_line_endings (priv m') = true ->
  Forall2 prefix_of (emitted_lines (signals_of (emit_rest m)))
                    (emitted_lines (signals_of (emit_rest m'))).
Proof.
  intros Hrest Hs Hp. rewrite !emit_rest_eq, <- Hrest, Hs, Hp.
  destruct (rest_buffer (priv m)) as [| c rb] eqn:E; [constructor |].
  cbn [negb andb].
  destruct (Ascii.eqb (last (c :: rb) zero) CR);
    cbn [signals_of snd emitted_lines app];
    (constructor; [| constructor]).
  - rewrite c_string_snoc_zero.
    rewrite (app_removelast_last zero (l := c :: rb)) at 2 by discriminate.
    apply c_string_app_prefix.
  - exists []. now rewrite app_nil_r.
Qed.

Lemma feed_policies chunks :
  forall m m',
    rest_buffer (priv m) = rest_buffer (priv m') ->
    preserve_line_endings (priv m) = false ->
    preserve_line_endings (priv m') = true ->
    Forall2 prefix_of (emitted_lines (signals_of (feed chunks m)))
                      (emitted_lines (signals_of (feed chunks m'))).
Proof.
  induction chunks as [| chunk chunks IH]; intros m m' Hrest Hs Hp;
    cbn [feed].
  - apply emit_rest_policies; assumption.
  - rewrite !signals_bind, !emitted_lines_app, !parse_lines_eq.
    cbv zeta. cbn [signals_of snd machine_of fst result_of emitted_lines].
    rewrite !app_nil_r, <- Hrest, Hs, Hp.
    set (all := rest_buffer (priv m) ++ chunk).
    destruct (parse_lines_loop_policies (S (length all)) all [] []
                (Forall2_nil _)) as [Hlines Hptr].
    apply Forall2_app; [exact Hlines |].
    apply IH; cbn [with_priv priv set_lines set_rest_buffer rest_buffer
                   preserve_line_endings]; auto.
    now rewrite Hptr.
Qed.

(** X4: the two policies find the same line boundaries.  Fed the same
    chunks from the same remainder, a runner that strips line endings and
    one that preserves them deliver the same number of lines, and each
    stripped line is the beginning of the preserved line at its place. *)
Theorem policies_find_same_lines :
  forall (chunks : list (list gchar)) (m : Machine),
    Forall2 prefix_of
      (emitted_lines
         (signals_of (feed chunks
                           (with_priv (set_preserve_line_endings false) m))))
      (emitted_lines
         (signals_of (feed chunks
                           (with_priv (set_preserve_line_endings true) m))))
    /\ length
         (emitted_lines
            (signals_of (feed chunks
                              (with_priv (set_preserve_line_endings false) m))))
       = length
           (emitted_lines
              (signals_of (feed chunks
                                (with_priv (set_preserve_line_endings true)
                                           m)))).
Proof.
  intros chunks m.
  assert (H : Forall2 prefix_of
                (emitted_lines
                   (signals_of
                      (feed chunks
                            (with_priv (set_preserve_line_endings false) m))))
                (emitted_lines
                   (signals_of
                      (feed chunks
                            (with_priv (set_preserve_line_endings true) m)))))
    by (apply feed_policies; reflexivity).
  split; [exact H | exact (Forall2_length H)].
Qed.

(** X5: an empty chunk finds nothing new.  After a pass over NUL-free
    bytes, a pass over an empty chunk leaves the remainder as it is and
    emits an update without lines. *)
Theorem empty_chunk_changes_nothing :
  forall (m : Machine) (chunk : list gchar),
    nul_free (rest_buffer (priv m) ++ chunk) = true ->
    let m1 := machine_of (parse_lines chunk m) in
    signals_of (parse_lines [] m1) = [UPDATE []]
    /\ rest_buffer (priv (machine_of (parse_lines [] m1)))
       = rest_buffer (priv m1)
    /\ lines (priv (machine_of (parse_lines [] m1))) = [].
Proof.
  intros m chunk Hnf m1.
  assert (Hrest : rest_buffer (priv m1)
                  = snd (parse_lines_loop
                           (S (length (rest_buffer (priv m) ++ chunk)))
                           (preserve_line_endings (priv m))
                           (rest_buffer (priv m) ++ chunk) [])).
  { unfold m1. rewrite parse_lines_eq. cbv zeta.
    cbn [machine_of fst snd with_priv priv set_lines set_rest_buffer
         rest_buffer].
    apply g_strndup_whole, parse_lines_loop_nul_free, Hnf. }
  assert (Hnone : find_newline (rest_buffer (priv m1)) = None).
  { rewrite Hrest. apply parse_lines_loop_exhausts. lia. }
  assert (Hnf1 : nul_free (rest_buffer (priv m1)) = true).
  { rewrite Hrest. apply parse_lines_loop_nul_free, Hnf. }
  rewrite parse_lines_eq. cbv zeta. rewrite app_nil_r.
  rewrite (parse_lines_loop_stop _ _ _ [] Hnone).
  cbn [signals_of machine_of fst snd with_priv priv set_lines set_rest_buffer
       rest_buffer lines].
  rewrite (g_strndup_whole _ Hnf1). auto.
Qed.

Lemma empty_chunk_changes_nothing_witness :
  signals_of
    (parse_lines [] (machine_of (parse_lines (txt [97; 10; 98; 13])
                                             (segmenter true))))
  = [UPDATE []].
Proof.
  apply (empty_chunk_changes_nothing (segmenter true) (txt [97; 10; 98; 13])).
  reflexivity.
Defined.

(** ** Room in the array of lines *)

Lemma byte_first_terminator_one_more r :
  forall x off nl le,
    terminator_free r ->
    byte_first_terminator (r ++ [x]) off = Some (nl, le) ->
    le = (off + length r + 1)%nat
    \/ (le = (off + length r)%nat /\ x <> LF).
Proof.
  induction r as [| c r IH]; intros x off nl le Ht H;
    cbn [app byte_first_terminator length] in *.
  - destruct (Ascii.eqb x LF); [injection H as <- <-; left; lia |].
    destruct (Ascii.eqb x CR); discriminate.
  - destruct Ht as (Hlf & Hcr & Ht).
    destruct (Ascii.eqb_spec c LF); [contradiction |].
    destruct (Ascii.eqb_spec c CR) as [Hc | Hc].
    + rewrite (Hcr Hc) in *. cbn [app length] in *.
      destruct (Ascii.eqb_spec x LF); injection H as <- <-;
        [left | right; split; auto]; lia.
    + destruct (IH x (S off) nl le Ht H) as [-> | [-> Hx]];
        [left | right; split; auto]; lia.
Qed.

Lemma parse_lines_loop_one_more preserve r x :
  find_newline r = None ->
  utf8_text 0 (r ++ [x]) = true ->
  (length (fst (parse_lines_loop (S (length (r ++ [x]))) preserve
                                 (r ++ [x]) [])) <= 1)%nat.
Proof.
  intros Hnone Hutf.
  rewrite (find_newline_refines r (utf8_text_prefix r 0 _ Hutf)) in Hnone.
  apply byte_first_terminator_none in Hnone.
  destruct (find_newline (r ++ [x])) as [[nl le] |] eqn:E.
  2:{ rewrite (parse_lines_loop_stop _ _ _ [] E). cbn. lia. }
  rewrite (parse_lines_loop_step _ preserve _ [] nl le E).
  rewrite (find_newline_refines _ Hutf) in E.
  pose proof (byte_first_terminator_boundary _ 0 0 nl le [] E) as Hnext.
  rewrite !app_nil_r, Nat.sub_0_r in Hnext. specialize (Hnext Hutf).
  assert (Hstop : find_newline (skipn le (r ++ [x])) = None).
  { rewrite (find_newline_refines _ Hnext).
    destruct (byte_first_terminator_one_more r x 0 nl le Hnone E)
      as [-> | [-> Hx]]; cbn [Nat.add].
    - rewrite skipn_all2 by (rewrite length_app; cbn [length]; lia).
      reflexivity.
    - rewrite skipn_app, skipn_all, Nat.sub_diag, skipn_O. cbn [app].
      cbn [byte_first_terminator].
      destruct (Ascii.eqb_spec x LF); [contradiction |].
      destruct (Ascii.eqb x CR); reflexivity. }
  rewrite (parse_lines_loop_stop _ _ _ _ Hstop). cbn [fst app length]. lia.
Qed.

Lemma parse_lines_loop_count preserve a c :
  utf8_text 0 (a ++ c) = true ->
  nul_free (a ++ c) = true ->
  (length (fst (parse_lines_loop (S (length (a ++ c))) preserve (a ++ c) []))
   <= length (fst (parse_lines_loop (S (length a)) preserve a []))
      + length c)%nat.
Proof.
  revert a. induction c as [| x c IH] using rev_ind; intros a Hutf Hnf.
  - rewrite app_nil_r. lia.
  - rewrite app_assoc in *.
    assert (Hutf' : utf8_text 0 (a ++ c) = true)
      by apply (utf8_text_prefix _ 0 [x] Hutf).
    assert (Hnf' : nul_free (a ++ c) = true).
    { rewrite nul_free_app in Hnf. apply andb_true_iff in Hnf. tauto. }
    specialize (IH a Hutf' Hnf').
    rewrite (parse_lines_loop_app (S (length (a ++ c))) preserve (a ++ c)
               [x] [] (Nat.lt_succ_diag_r _) Hutf Hnf).
    rewrite parse_lines_loop_acc. cbn [fst].
    pose proof (parse_lines_loop_one_more preserve
                  (snd (parse_lines_loop (S (length (a ++ c))) preserve
                                         (a ++ c) [])) x
                  (parse_lines_loop_exhausts _ _ _ _ (Nat.lt_succ_diag_r _))
                  (parse_lines_loop_text _ _ _ _ _ Hutf)) as Hone.
    set (L1 := fst (parse_lines_loop (S (length (a ++ c))) preserve
                                     (a ++ c) [])) in *.
    set (L2 := fst (parse_lines_loop _ preserve (_ ++ [x]) [])) in *.
    rewrite !length_app. cbn [length]. lia.
Qed.

(** X6: a pass never finds more lines than its chunk has bytes.  For a
    remainder in which no line ends and a chunk that continues it as UTF-8
    text (NUL-free), the lines stored by [parse_lines] number at most the
    bytes of the chunk; a chunk of at most [buffer_size] bytes thus fits the
    array of [buffer_size + 1] pointers, final NULL included. *)
Theorem lines_fit_the_array :
  forall (m : Machine) (chunk : list gchar),
    find_newline (rest_buffer (priv m)) = None ->
    utf8_text 0 (rest_buffer (priv m) ++ chunk) = true ->
    nul_free (rest_buffer (priv m) ++ chunk) = true ->
    (length (lines (priv (machine_of (parse_lines chunk m))))
     <= length chunk)%nat.
Proof.
  intros m chunk Hnone Hutf Hnf.
  rewrite parse_lines_eq. cbv zeta.
  cbn [machine_of fst snd with_priv priv set_lines lines].
  pose proof (parse_lines_loop_count (preserve_line_endings (priv m))
                (rest_buffer (priv m)) chunk Hutf Hnf) as Hcount.
  rewrite (parse_lines_loop_stop _ _ _ [] Hnone) in Hcount.
  cbn [fst length] in Hcount. lia.
Qed.

Lemma lines_fit_the_array_witness :
  (length (lines (priv (machine_of
                          (parse_lines (txt [10; 13; 13; 10])
                             (with_priv (set_rest_buffer (txt [97; 13]))
                                        (segmenter true))))))
   <= 4)%nat.
Proof.
  apply (lines_fit_the_array
           (with_priv (set_rest_buffer (txt [97; 13])) (segmenter true))
           (txt [10; 13; 13; 10]));
    reflexivity.
Defined.

(** ** Cancelling an active run *)

(** X7: cancelling an active run emits exactly one end, flagged cancelled,
    and leaves the runner idle: streams gone, remainder dropped, pid 0, the
    exit status [EXIT_FAILURE] when a child was recorded and untouched
    otherwise.  The cancellable the run used is cancelled and the runner
    holds a new one that is not, so the next run does not start cancelled;
    buffer size, mode, line-ending policy and environment are kept. *)
Theorem cancel_active_run :
  forall m : Machine,
    gitg_runner_running (priv m) = true ->
    cancellable_fresh m ->
    let r := gitg_runner_cancel m in
    let p' := priv (machine_of r) in
    signals_of r = [END_LOADING true]
    /\ gitg_runner_running p' = false
    /\ output_stream p' = None
    /\ rest_buffer p' = []
    /\ pid p' = 0%Z
    /\ gitg_runner_get_exit_status p'
       = (if Z.eqb (pid (priv m)) 0 then exit_status (priv m)
          else EXIT_FAILURE)
    /\ existsb (Nat.eqb (cancellable (priv m))) (cancelled (machine_of r))
       = true
    /\ existsb (Nat.eqb (cancellable p')) (cancelled (machine_of r)) = false
    /\ cancellable_fresh (machine_of r)
    /\ (buffer_size p', synchronized p', preserve_line_endings p',
        environment p')
       = (buffer_size (priv m), synchronized (priv m),
          preserve_line_endings (priv m), environment (priv m)).
Proof.
  intros m Hrun (Hlt & Hlive & Hall) r p'. subst p' r.
  unfold gitg_runner_running in Hrun.
  destruct (input_stream (priv m)) as [s |] eqn:E; [| discriminate].
  rewrite (gitg_runner_cancel_running m s E).
  cbn [signals_of machine_of fst snd].
  assert (Hnew : cancellable (priv (cancel_machine m)) = next_cancellable m).
  { unfold cancel_machine, closed, reaped. cbn [priv].
    destruct (Z.eqb _ 0); reflexivity. }
  assert (Hfresh : existsb (Nat.eqb (next_cancellable m))
                           (cancelled (cancel_machine m)) = false).
  { cbn [cancel_machine cancelled existsb].
    rewrite (existsb_older _ _ Hall), orb_false_r.
    apply Nat.eqb_neq. lia. }
  unfold gitg_runner_running, gitg_runner_get_exit_status.
  split; [reflexivity |].
  split; [reflexivity |].
  split; [reflexivity |].
  split; [reflexivity |].
  split.
  { unfold cancel_machine, closed, reaped. cbn [priv set_cancellable pid].
    destruct (Z.eqb (pid (priv m)) 0) eqn:Ep; cbn;
      [now apply Z.eqb_eq in Ep | reflexivity]. }
  split.
  { unfold cancel_machine, closed, reaped. cbn [priv set_cancellable pid].
    destruct (Z.eqb (pid (priv m)) 0); reflexivity. }
  split.
  { cbn [cancel_machine cancelled existsb]. now rewrite Nat.eqb_refl. }
  split; [rewrite Hnew; exact Hfresh |].
  split.
  { unfold cancellable_fresh. rewrite Hnew.
    split; [cbn [cancel_machine next_cancellable]; lia |].
    split; [exact Hfresh |].
    cbn [cancel_machine cancelled next_cancellable].
    constructor; [lia |].
    eapply Forall_impl; [| exact Hall]. cbn. intros; lia. }
  unfold cancel_machine, closed, reaped. cbn [priv set_cancellable pid].
  destruct (Z.eqb (pid (priv m)) 0); reflexivity.
Qed.

Lemma cancel_active_run_witness :
  let active :=
    machine_of (gitg_runner_run [txt [103]]
                  (mkWorld (fun _ _ _ _ => Some (7%positive, 3%Z, 4%Z))
                           true [] 0)
                  (gitg_runner_new 16)) in
  signals_of (gitg_runner_cancel active) = [END_LOADING true].
Proof.
  intros active.
  assert (Hrun : gitg_runner_running (priv active) = true) by reflexivity.
  assert (Hfresh : cancellable_fresh active)
    by (repeat split; [cbn; lia | constructor]).
  destruct (cancel_active_run active Hrun Hfresh) as [H _]. exact H.
Defined.

Lemma parse_lines_state chunk m m' :
  segmenter_state m = segmenter_state m' ->
  signals_of (parse_lines chunk m) = signals_of (parse_lines chunk m')
  /\ segmenter_state (machine_of (parse_lines chunk m))
     = segmenter_state (machine_of (parse_lines chunk m')).
Proof.
  unfold segmenter_state. intros H. injection H as Hr Hp.
  rewrite !parse_lines_eq. cbv zeta.
  cbn [signals_of machine_of fst snd with_priv priv rest_buffer
       preserve_line_endings set_lines set_rest_buffer].
  rewrite Hr, Hp. split; reflexivity.
Qed.

Lemma emit_rest_state m m' :
  segmenter_state m = segmenter_state m' ->
  signals_of (emit_rest m) = signals_of (emit_rest m').
Proof.
  unfold segmenter_state. intros H. injection H as Hr Hp.
  rewrite !emit_rest_eq, Hr, Hp.
  destruct (rest_buffer (priv m')); [reflexivity |].
  destruct (negb _ && _); reflexivity.
Qed.

Lemma feed_state chunks :
  forall m m',
    segmenter_state m = segmenter_state m' ->
    signals_of (feed chunks m) = signals_of (feed chunks m').
Proof.
  induction chunks as [| chunk chunks IH]; intros m m' H; cbn [feed].
  - apply emit_rest_state, H.
  - rewrite !signals_bind.
    destruct (parse_lines_state chunk m m' H) as [Hs Hst].
    rewrite Hs. f_equal. apply IH, Hst.
Qed.

Lemma feed_signals chunks :
  forall m, forallb is_update (signals_of (feed chunks m)) = true.
Proof.
  induction chunks as [| chunk chunks IH]; intros m; cbn [feed].
  - apply emit_rest_signals.
  - rewrite signals_bind, forallb_app, parse_lines_signals. apply IH.
Qed.

Lemma control_buffer_size m m' :
  control m' = control m -> buffer_size (priv m') = buffer_size (priv m).
Proof. unfold control. congruence. Qed.

Lemma run_sync_loop_feed full last more :
  forall m,
    Forall (fun chunk => length chunk = Pos.to_nat (buffer_size (priv m))) full ->
    length last <> Pos.to_nat (buffer_size (priv m)) ->
    let r := run_sync_loop (map Some full ++ Some last :: more) m in
    result_of r = true
    /\ signals_of r ++ signals_of (emit_rest (machine_of r))
       = signals_of (feed (full ++ [last]) m).
Proof.
  induction full as [| chunk full IH]; intros m Hfull Hlast r; subst r;
    cbn [map app run_sync_loop feed].
  - rewrite bind_update_priv, bind_eq, bind_get_priv.
    pose proof (parse_lines_control last (with_priv (set_read_buffer last) m))
      as Hctl.
    destruct (parse_lines_state last (with_priv (set_read_buffer last) m) m
                eq_refl) as [Hs Hst].
    set (m1 := machine_of (parse_lines last (with_priv (set_read_buffer last) m)))
      in *.
    rewrite (control_buffer_size _ _ Hctl).
    cbn [with_priv priv buffer_size set_read_buffer].
    destruct (Nat.eqb_spec (length last) (Pos.to_nat (buffer_size (priv m))))
      as [E | _]; [contradiction |].
    cbn [ret result_of machine_of signals_of fst snd].
    rewrite app_nil_r, signals_bind, Hs.
    split; [reflexivity |]. f_equal. apply emit_rest_state, Hst.
  - inversion Hfull as [| ? ? Hlen Hrest]; subst.
    rewrite bind_update_priv, bind_eq, bind_get_priv.
    pose proof (parse_lines_control chunk (with_priv (set_read_buffer chunk) m))
      as Hctl.
    destruct (parse_lines_state chunk (with_priv (set_read_buffer chunk) m) m
                eq_refl) as [Hs Hst].
    set (m1 := machine_of (parse_lines chunk
                             (with_priv (set_read_buffer chunk) m))) in *.
    assert (Hbs : buffer_size (priv m1) = buffer_size (priv m))
      by (rewrite (control_buffer_size _ _ Hctl); reflexivity).
    rewrite Hbs, Hlen, Nat.eqb_refl.
    rewrite <- Hbs in Hrest, Hlast.
    destruct (IH m1 Hrest Hlast) as [Hres Hsig].
    cbn [result_of machine_of signals_of fst snd].
    split; [exact Hres |].
    rewrite <- app_assoc, Hsig, signals_bind, Hs. f_equal.
    apply feed_state, Hst.
Qed.

Lemma run_sync_reading input w m :
  (match input with
   | Some _ => g_output_stream_write_all w
   | None => true
   end) = true ->
  run_sync input w m
  = (ok <- run_sync_loop (g_input_stream_read_all w) ;;
     if ok then
       emit_rest ;;
       p <- get_priv ;;
       runner_io_exit (pid p) (waitpid w) ;;
       close_streams ;;
       g_signal_emit (END_LOADING false) ;;
       ret (Z.eqb (waitpid w) EXIT_SUCCESS,
            if negb (Z.eqb (waitpid w) 0)
            then Some GITG_RUNNER_ERROR_EXIT else None)
     else ret (false, Some G_IO_ERROR)) m.
Proof.
  intros Hw. unfold run_sync. destruct input; [rewrite Hw |]; reflexivity.
Qed.

Lemma gitg_runner_cancel_segmenter m :
  rest_buffer (priv m) = [] ->
  segmenter_state (machine_of (gitg_runner_cancel m)) = segmenter_state m.
Proof.
  intros Hrest. unfold segmenter_state.
  destruct (input_stream (priv m)) as [s |] eqn:E.
  - rewrite (gitg_runner_cancel_running m s E).
    unfold cancel_machine, closed, reaped. cbn [machine_of fst snd priv].
    rewrite Hrest. destruct (Z.eqb _ 0); reflexivity.
  - rewrite (gitg_runner_cancel_idle m E). reflexivity.
Qed.

Lemma gitg_runner_cancel_buffer_size m :
  buffer_size (priv (machine_of (gitg_runner_cancel m))) = buffer_size (priv m).
Proof.
  destruct (input_stream (priv m)) as [s |] eqn:E.
  - rewrite (gitg_runner_cancel_running m s E).
    unfold cancel_machine, closed, reaped. cbn [machine_of fst snd priv].
    destruct (Z.eqb _ 0); reflexivity.
  - rewrite (gitg_runner_cancel_idle m E). reflexivity.
Qed.

Lemma spawned_machine_segmenter m child i o :
  rest_buffer (priv m) = [] ->
  segmenter_state (spawned_machine m child i o) = segmenter_state m
  /\ buffer_size (priv (spawned_machine m child i o)) = buffer_size (priv m).
Proof.
  intros Hrest. unfold spawned_machine.
  set (m1 := machine_of (gitg_runner_cancel m)).
  set (m2 := with_priv (set_pid (Z.pos child)) m1).
  assert (H1 : segmenter_state m1 = segmenter_state m)
    by apply gitg_runner_cancel_segmenter, Hrest.
  assert (H2 : segmenter_state m2 = segmenter_state m) by exact H1.
  assert (Hr2 : rest_buffer (priv m2) = [])
    by (unfold segmenter_state in H2; congruence).
  pose proof (gitg_runner_cancel_segmenter m2 Hr2) as H3.
  pose proof (gitg_runner_cancel_buffer_size m2) as B3.
  pose proof (gitg_runner_cancel_buffer_size m) as B1.
  set (m3 := machine_of (gitg_runner_cancel m2)) in *.
  split.
  - transitivity (segmenter_state m3); [| congruence].
    unfold segmenter_state, attach_streams. destruct i, o; reflexivity.
  - transitivity (buffer_size (priv m3)).
    + unfold attach_streams. destruct i, o; reflexivity.
    + rewrite B3. exact B1.
Qed.

Lemma emitted_lines_cancel m :
  emitted_lines (signals_of (gitg_runner_cancel m)) = [].
Proof.
  rewrite gitg_runner_cancel_signals.
  destruct (gitg_runner_running (priv m)); reflexivity.
Qed.

(** X8: a synchronous run delivers the lines of everything the child wrote.
    When the spawn and the write of the input succeed and the reads return
    full buffers followed by a shorter one (what follows is never read), the
    lines carried by the updates of the call are the lines of the
    concatenated text, as one segmentation of the whole text gives them. *)
Theorem sync_run_delivers_whole_text :
  forall (m : Machine) work_tree argv input (w : World) child stdinf stdoutf
         full last more,
    synchronized (priv m) = true ->
    rest_buffer (priv m) = [] ->
    g_spawn_async_with_pipes w work_tree argv (environment (priv m))
      (match input with Some _ => true | None => false end)
    = Some (child, stdinf, stdoutf) ->
    (match input with
     | Some _ => g_output_stream_write_all w
     | None => true
     end) = true ->
    g_input_stream_read_all w = map Some full ++ Some last :: more ->
    Forall (fun chunk => length chunk = Pos.to_nat (buffer_size (priv m))) full ->
    length last <> Pos.to_nat (buffer_size (priv m)) ->
    utf8_text 0 (concat full ++ last) = true ->
    nul_free (concat full ++ last) = true ->
    let r := gitg_runner_run_with_arguments work_tree argv input w m in
    emitted_lines (signals_of r)
    = segment_all (preserve_line_endings (priv m)) (concat full ++ last)
    /\ exists updates,
        signals_of r
        = signals_of (gitg_runner_cancel m)
          ++ BEGIN_LOADING :: updates ++ [END_LOADING false]
        /\ forallb is_update updates = true.
Proof.
  intros m work_tree argv input w child stdinf stdoutf full last more
         Hsync Hrest Hspawn Hw Hreads Hfull Hlast Htext Hnul r.
  subst r.
  rewrite (gitg_runner_run_with_arguments_started work_tree argv input w m
             child stdinf stdoutf Hspawn).
  cbv zeta. rewrite Hsync. cbn [signals_of snd].
  set (m2 := spawned_machine m child (Some (g_unix_input_stream_new stdoutf))
               (match input with
                | Some _ => Some (g_unix_output_stream_new stdinf)
                | None => None
                end)).
  destruct (spawned_machine_segmenter m child
              (Some (g_unix_input_stream_new stdoutf))
              (match input with
               | Some _ => Some (g_unix_output_stream_new stdinf)
               | None => None
               end) Hrest) as [Hst Hbs].
  fold m2 in Hst, Hbs.
  rewrite <- Hbs in Hfull, Hlast.
  destruct (run_sync_loop_feed full last more m2 Hfull Hlast) as [Hres Hsig].
  rewrite (run_sync_reading input w m2 Hw), Hreads.
  rewrite bind_eq, Hres.
  set (m3 := machine_of (run_sync_loop (map Some full ++ Some last :: more) m2))
    in *.
  rewrite bind_eq, bind_get_priv, bind_runner_io_exit, bind_close_streams.
  cbn [result_of machine_of signals_of fst snd bind g_signal_emit ret].
  rewrite app_assoc, Hsig.
  assert (Hrest2 : rest_buffer (priv m2) = [])
    by (unfold segmenter_state in Hst; congruence).
  assert (Hpol : preserve_line_endings (priv m2) = preserve_line_endings (priv m))
    by (unfold segmenter_state in Hst; congruence).
  split.
  - rewrite emitted_lines_app, emitted_lines_cancel. cbn [app emitted_lines].
    rewrite emitted_lines_app. cbn [emitted_lines]. rewrite app_nil_r.
    rewrite (feed_segments_whole (full ++ [last]) m2).
    + rewrite Hrest2, Hpol, concat_app. cbn [concat app].
      rewrite app_nil_r. reflexivity.
    + rewrite Hrest2. reflexivity.
    + rewrite Hrest2, concat_app. cbn [concat app]. rewrite app_nil_r.
      exact Htext.
    + rewrite Hrest2, concat_app. cbn [concat app]. rewrite app_nil_r.
      exact Hnul.
  - exists (signals_of (feed (full ++ [last]) m2)). split; [reflexivity |].
    apply feed_signals.
Qed.

Lemma sync_run_delivers_whole_text_witness :
  let w := mkWorld (fun _ _ _ _ => Some (7%positive, 3%Z, 4%Z)) true
                   [Some (txt [97; 13]); Some (txt [10; 98]); Some (txt [10]);
                    Some (txt [120; 10])] 0 in
  emitted_lines
    (signals_of (gitg_runner_run_with_arguments None [txt [103]] None w
                   (gitg_runner_new_synchronized 2)))
  = segment_all false (txt [97; 13; 10; 98; 10]).
Proof.
  intros w.
  destruct (sync_run_delivers_whole_text
              (gitg_runner_new_synchronized 2) None [txt [103]] None w
              7%positive 3%Z 4%Z [txt [97; 13]; txt [10; 98]] (txt [10])
              [Some (txt [120; 10])] eq_refl eq_refl eq_refl eq_refl eq_refl)
    as [H _].
  - repeat constructor.
  - vm_compute. discriminate.
  - vm_compute. reflexivity.
  - vm_compute. reflexivity.
  - exact H.
Defined.

Lemma read_output_ready_end_feed s d status m :
  existsb (Nat.eqb (data_cancellable d)) (cancelled m) = false ->
  signals_of (read_output_ready s (Some []) d status m)
  = signals_of (emit_rest m) ++ [END_LOADING false].
Proof.
  intros Hlive. unfold read_output_ready.
  rewrite bind_is_cancelled, Hlive.
  rewrite bind_eq, bind_get_priv, bind_runner_io_exit, bind_close_streams.
  reflexivity.
Qed.

Lemma read_output_ready_chunk_feed s d status c0 chunk m :
  existsb (Nat.eqb (data_cancellable d)) (cancelled m) = false ->
  let r := read_output_ready s (Some (c0 :: chunk)) d status m in
  signals_of r = signals_of (parse_lines (c0 :: chunk) m)
  /\ segmenter_state (machine_of r)
     = segmenter_state (machine_of (parse_lines (c0 :: chunk) m)).
Proof.
  intros Hlive r. subst r. unfold read_output_ready.
  rewrite bind_is_cancelled, Hlive, bind_update_priv, bind_eq.
  pose proof (parse_lines_control (c0 :: chunk)
                (with_priv (set_read_buffer (c0 :: chunk)) m)) as Hctl.
  destruct (parse_lines_state (c0 :: chunk)
              (with_priv (set_read_buffer (c0 :: chunk)) m) m eq_refl)
    as [Hs Hst].
  set (m1 := machine_of (parse_lines (c0 :: chunk)
                           (with_priv (set_read_buffer (c0 :: chunk)) m))) in *.
  assert (Hcan : cancelled m1 = cancelled m)
    by (unfold control in Hctl; cbn in Hctl; congruence).
  rewrite bind_is_cancelled, Hcan, Hlive.
  unfold start_reading. rewrite bind_get_priv.
  cbn [main_context_push result_of machine_of signals_of fst snd].
  rewrite app_nil_r. split; [exact Hs |].
  rewrite <- Hst. reflexivity.
Qed.

Lemma main_loop_feed chunks status :
  forall m s c d,
    main_context m = [g_input_stream_read_async s c d] ->
    existsb (Nat.eqb (data_cancellable d)) (cancelled m) = false ->
    Forall (fun chunk => chunk <> []) chunks ->
    signals_of (main_loop (map Some chunks ++ [Some []]) status m)
    = signals_of (feed chunks m) ++ [END_LOADING false].
Proof.
  induction chunks as [| chunk chunks IH]; intros m s c d Hq Hlive Hne;
    cbn [map app main_loop feed].
  - rewrite bind_eq. cbn [ret result_of machine_of signals_of fst snd].
    rewrite (main_context_iteration_read s c d [] _ _ m Hq).
    rewrite (read_output_ready_end_feed s d status (with_queue [] m) Hlive).
    rewrite app_nil_r. f_equal. apply emit_rest_state. reflexivity.
  - inversion Hne as [| ? ? Hchunk Hrest]; subst.
    destruct chunk as [| c0 chunk]; [congruence |].
    rewrite bind_eq.
    rewrite (main_context_iteration_read s c d [] _ _ m Hq).
    destruct (read_output_ready_chunk s d status c0 chunk (with_queue [] m)
                Hlive) as (s' & c' & Hq' & Hcan & _).
    destruct (read_output_ready_chunk_feed s d status c0 chunk
                (with_queue [] m) Hlive) as [Hs Hst].
    set (m1 := machine_of (read_output_ready s (Some (c0 :: chunk)) d status
                             (with_queue [] m))) in *.
    cbn [with_queue main_context cancelled priv app] in Hq', Hcan.
    rewrite <- Hcan in Hlive.
    cbn [result_of machine_of signals_of fst snd].
    rewrite (IH m1 s' c' d Hq' Hlive Hrest), Hs, signals_bind, <- app_assoc.
    destruct (parse_lines_state (c0 :: chunk) (with_queue [] m) m eq_refl)
      as [Hs2 Hst2].
    rewrite Hs2. do 2 f_equal.
    apply feed_state. rewrite Hst. exact Hst2.
Qed.

(** X9: an asynchronous run delivers the lines of everything the child
    wrote.  After [run] has returned (having emitted no line), the main loop
    completes the write of the input, then the reads with the non-empty
    chunks of the child and the end of its output; the lines carried by
    the updates are the lines of the concatenated text, as one segmentation
    of the whole text gives them, followed by one end not flagged
    cancelled.  Together with the synchronous case: both modes deliver the
    same lines. *)
Theorem async_run_delivers_whole_text :
  forall (m : Machine) work_tree argv input (w : World) child stdinf stdoutf
         chunks status,
    synchronized (priv m) = false ->
    rest_buffer (priv m) = [] ->
    main_context m = [] ->
    cancellable_fresh m ->
    g_spawn_async_with_pipes w work_tree argv (environment (priv m))
      (match input with Some _ => true | None => false end)
    = Some (child, stdinf, stdoutf) ->
    g_input_stream_read_all w = map Some chunks ->
    Forall (fun chunk => chunk <> []) chunks ->
    utf8_text 0 (concat chunks) = true ->
    nul_free (concat chunks) = true ->
    let started := gitg_runner_run_with_arguments work_tree argv input w m in
    let r := main_loop (async_completions input w) status
                       (machine_of started) in
    emitted_lines (signals_of started) = []
    /\ emitted_lines (signals_of r)
       = segment_all (preserve_line_endings (priv m)) (concat chunks)
    /\ exists updates,
        signals_of r = updates ++ [END_LOADING false]
        /\ forallb is_update updates = true.
Proof.
  intros m work_tree argv input w child stdinf stdoutf chunks status
         Hasync Hrest Hq Hfresh Hspawn Hreads Hne Htext Hnul started r.
  subst r started.
  rewrite (gitg_runner_run_with_arguments_started _ _ _ _ _ _ _ _ Hspawn).
  cbv zeta. rewrite Hasync.
  set (o := match input with
            | Some _ => Some (g_unix_output_stream_new stdinf)
            | None => None
            end).
  set (m2 := spawned_machine m child (Some (g_unix_input_stream_new stdoutf)) o).
  destruct (spawned_machine_props m child
              (Some (g_unix_input_stream_new stdoutf)) o)
    as (_ & _ & _ & _ & Hlive).
  destruct (spawned_machine_segmenter m child
              (Some (g_unix_input_stream_new stdoutf)) o Hrest) as [Hst _].
  fold m2 in Hlive, Hst. specialize (Hlive Hfresh).
  assert (Hrest2 : rest_buffer (priv m2) = [])
    by (unfold segmenter_state in Hst; congruence).
  assert (Hpol : preserve_line_endings (priv m2) = preserve_line_endings (priv m))
    by (unfold segmenter_state in Hst; congruence).
  cbn [result_of machine_of signals_of fst snd].
  split.
  { rewrite emitted_lines_app, emitted_lines_cancel. reflexivity. }
  rewrite Hq. cbn [app]. unfold async_completions. rewrite Hreads.
  assert (Hloop :
            forall m3,
              main_context m3
              = [g_input_stream_read_async (input_stream (priv m2))
                   (cancellable (priv m2))
                   (async_data_new (cancellable (priv m2)))] ->
              cancelled m3 = cancelled m2 ->
              segmenter_state m3 = segmenter_state m2 ->
              signals_of (main_loop (map Some chunks ++ [Some []]) status m3)
              = signals_of (feed chunks m2) ++ [END_LOADING false]).
  { intros m3 Hq3 Hcan3 Hst3.
    rewrite (main_loop_feed chunks status m3 _ _ _ Hq3).
    - f_equal. apply feed_state, Hst3.
    - rewrite Hcan3. exact Hlive.
    - exact Hne. }
  assert (Hsig :
            signals_of
              (main_loop
                 ((match input with Some text => [Some text] | None => [] end)
                    ++ map Some chunks ++ [Some []]) status
                 (with_queue [first_request input (priv m2)] m2))
            = signals_of (feed chunks m2) ++ [END_LOADING false]).
  { destruct input as [text |]; cbn [first_request app main_loop].
    - rewrite bind_eq.
      match goal with
      | |- context [main_context_iteration ?res ?st ?mm] =>
          rewrite (main_context_iteration_write
                     (output_stream (priv m2)) text (cancellable (priv m2))
                     (async_data_new (cancellable (priv m2))) [] res st mm
                     eq_refl)
      end.
      unfold write_input_ready, start_reading.
      rewrite bind_is_cancelled.
      cbn [with_queue cancelled data_cancellable priv].
      rewrite Hlive, bind_ret. cbn [negb].
      rewrite bind_get_priv.
      cbn [main_context_push result_of machine_of signals_of fst snd app
           with_queue main_context priv cancelled next_cancellable].
      apply Hloop; reflexivity.
    - apply Hloop; reflexivity. }
  rewrite Hsig. split.
  - rewrite emitted_lines_app. cbn [emitted_lines]. rewrite app_nil_r.
    rewrite (feed_segments_whole chunks m2).
    + rewrite Hrest2, Hpol. reflexivity.
    + rewrite Hrest2. reflexivity.
    + rewrite Hrest2. exact Htext.
    + rewrite Hrest2. exact Hnul.
  - exists (signals_of (feed chunks m2)). split; [reflexivity |].
    apply feed_signals.
Qed.

Lemma async_run_delivers_whole_text_witness :
  let w := mkWorld (fun _ _ _ _ => Some (7%positive, 3%Z, 4%Z)) true
                   [Some (txt [97; 13]); Some (txt [10; 98; 10])] 0 in
  let started :=
    gitg_runner_run_with_arguments None [txt [103]] (Some (txt [105])) w
                                   (gitg_runner_new 16) in
  emitted_lines
    (signals_of (main_loop (async_completions (Some (txt [105])) w) 0
                           (machine_of started)))
  = segment_all false (txt [97; 13; 10; 98; 10]).
Proof.
  intros w started.
  destruct (async_run_delivers_whole_text
              (gitg_runner_new 16) None [txt [103]] (Some (txt [105])) w
              7%positive 3%Z 4%Z [txt [97; 13]; txt [10; 98; 10]] 0%Z
              eq_refl eq_refl eq_refl)
    as (_ & H & _).
  - unfold cancellable_fresh. cbn. repeat split; [lia | constructor].
  - reflexivity.
  - reflexivity.
  - repeat constructor; discriminate.
  - vm_compute. reflexivity.
  - vm_compute. reflexivity.
  - exact H.
Defined.

Lemma run_sync_loop_shape reads :
  forall m,
    let r := run_sync_loop reads m in
    exists updates m1,
      forallb is_update updates = true
      /\ control m1 = control m
      /\ if result_of r
         then signals_of r = updates /\ machine_of r = m1
         else signals_of r = updates ++ [END_LOADING true]
              /\ machine_of r = failed_machine m1.
Proof.
  induction reads as [| [chunk |] reads IH]; intros m r; subst r.
  - cbn [run_sync_loop].
    rewrite bind_update_priv, bind_eq.
    cbn [ret result_of machine_of signals_of fst snd].
    eexists _, _. rewrite app_nil_r.
    split; [apply parse_lines_signals |].
    split; [| split; reflexivity].
    rewrite parse_lines_control. reflexivity.
  - cbn [run_sync_loop].
    rewrite bind_update_priv, bind_eq, bind_get_priv.
    pose proof (parse_lines_control chunk (with_priv (set_read_buffer chunk) m))
      as Hctl.
    pose proof (parse_lines_signals chunk (with_priv (set_read_buffer chunk) m))
      as Hup.
    set (m1 := machine_of (parse_lines chunk
                             (with_priv (set_read_buffer chunk) m))) in *.
    assert (Hctl1 : control m1 = control m) by (rewrite Hctl; reflexivity).
    cbn [result_of machine_of signals_of fst snd].
    destruct (Nat.eqb (length chunk) (Pos.to_nat (buffer_size (priv m1)))).
    + destruct (IH m1) as (updates & m2 & Hu & Hc & Hshape).
      exists (signals_of (parse_lines chunk (with_priv (set_read_buffer chunk) m))
              ++ updates), m2.
      split; [rewrite forallb_app, Hup, Hu; reflexivity |].
      split; [congruence |].
      destruct (result_of (run_sync_loop reads m1)).
      * destruct Hshape as [Hs Hm]. rewrite Hs. auto.
      * destruct Hshape as [Hs Hm]. rewrite Hs, app_assoc. auto.
    + cbn [ret result_of machine_of signals_of fst snd].
      eexists _, m1. rewrite app_nil_r.
      split; [exact Hup |]. split; [exact Hctl1 |]. split; reflexivity.
  - rewrite run_sync_loop_read_failed.
    cbn [result_of machine_of signals_of fst snd].
    exists [], m. repeat split; reflexivity.
Qed.

Lemma run_sync_shape input w m :
  let r := run_sync input w m in
  exists updates flag m1 status,
    forallb is_update updates = true
    /\ control m1 = control m
    /\ signals_of r = updates ++ [END_LOADING flag]
    /\ machine_of r = with_priv closed (with_priv (reaped status) m1)
    /\ (fst (result_of r) = true <-> flag = false /\ status = 0%Z)
    /\ (fst (result_of r) = true <-> snd (result_of r) = None).
Proof.
  intros r. subst r.
  assert (Hreading :
            forall input',
              (match input' with
               | Some _ => g_output_stream_write_all w
               | None => true
               end) = true ->
              exists updates flag m1 status,
                forallb is_update updates = true
                /\ control m1 = control m
                /\ signals_of (run_sync input' w m)
                   = updates ++ [END_LOADING flag]
                /\ machine_of (run_sync input' w m)
                   = with_priv closed (with_priv (reaped status) m1)
                /\ (fst (result_of (run_sync input' w m)) = true
                    <-> flag = false /\ status = 0%Z)
                /\ (fst (result_of (run_sync input' w m)) = true
                    <-> snd (result_of (run_sync input' w m)) = None)).
  { intros input' Hw. rewrite (run_sync_reading input' w m Hw).
    destruct (run_sync_loop_shape (g_input_stream_read_all w) m)
      as (updates & m1 & Hu & Hc & Hshape).
    rewrite bind_eq.
    destruct (result_of (run_sync_loop (g_input_stream_read_all w) m)).
    - destruct Hshape as [Hs Hm]. rewrite Hs, Hm.
      rewrite bind_eq, bind_get_priv, bind_runner_io_exit, bind_close_streams.
      pose proof (emit_rest_control m1) as Hc2.
      pose proof (emit_rest_signals m1) as Hu2.
      cbn [result_of machine_of signals_of fst snd bind g_signal_emit ret].
      exists (updates ++ signals_of (emit_rest m1)), false,
        (machine_of (emit_rest m1)), (waitpid w).
      split; [rewrite forallb_app, Hu, Hu2; reflexivity |].
      split; [congruence |].
      split; [now rewrite <- app_assoc |].
      split; [reflexivity |].
      unfold EXIT_SUCCESS.
      destruct (Z.eqb_spec (waitpid w) 0) as [E | E]; cbn [negb]; split; split;
        intros; try discriminate; try congruence; auto.
      destruct H as [_ H]. contradiction.
    - destruct Hshape as [Hs Hm]. rewrite Hs, Hm.
      cbn [result_of machine_of signals_of fst snd ret].
      exists updates, true, m1, 1%Z. rewrite app_nil_r.
      split; [exact Hu |]. split; [exact Hc |].
      split; [reflexivity |]. split; [reflexivity |].
      split; split; intros; try discriminate.
      destruct H; discriminate. }
  destruct input as [text |].
  - destruct (g_output_stream_write_all w) eqn:Hw.
    + apply (Hreading (Some text)). reflexivity.
    + rewrite (run_sync_write_failed text w m Hw).
      cbn [result_of machine_of signals_of fst snd].
      exists [], false, m, 1%Z.
      repeat split; intros; try discriminate.
      destruct H; discriminate.
  - apply (Hreading None). reflexivity.
Qed.



Lemma control_child_record m m' :
  control m' = control m -> child_record m' = child_record m.
Proof. unfold control, child_record. congruence. Qed.

Lemma control_main_context m m' :
  control m' = control m -> main_context m' = main_context m.
Proof. unfold control. congruence. Qed.

Lemma closed_reaped_childless status m :
  pid (priv m) = 0%Z ->
  child_record (with_priv closed (with_priv (reaped status) m))
  = child_record m.
Proof.
  intros Hpid. unfold child_record, closed, reaped.
  cbn [with_priv priv].
  destruct (Z.eqb (pid (priv m)) 0) eqn:E; [reflexivity |].
  rewrite Hpid in E. discriminate.
Qed.

Lemma gitg_runner_cancel_childless m :
  pid (priv m) = 0%Z ->
  child_record (machine_of (gitg_runner_cancel m)) = child_record m
  /\ main_context (machine_of (gitg_runner_cancel m)) = main_context m.
Proof.
  intros Hpid.
  destruct (input_stream (priv m)) as [s |] eqn:E.
  - rewrite (gitg_runner_cancel_running m s E).
    unfold child_record, cancel_machine, closed, reaped.
    cbn [machine_of fst snd priv main_context set_cancellable pid].
    destruct (Z.eqb (pid (priv m)) 0) eqn:Ep; [split; reflexivity |].
    rewrite Hpid in Ep. discriminate.
  - rewrite (gitg_runner_cancel_idle m E). split; reflexivity.
Qed.

Lemma read_output_ready_childless s result d status m :
  pid (priv m) = 0%Z ->
  forallb is_read (main_context m) = true ->
  let m' := machine_of (read_output_ready s result d status m) in
  child_record m' = child_record m
  /\ forallb is_read (main_context m') = true.
Proof.
  intros Hpid Hq m'. subst m'. unfold read_output_ready.
  rewrite bind_is_cancelled.
  destruct (existsb (Nat.eqb (data_cancellable d)) (cancelled m));
    [split; [reflexivity | exact Hq] |].
  destruct result as [[| c0 chunk] |].
  - rewrite bind_eq, bind_get_priv, bind_runner_io_exit, bind_close_streams.
    pose proof (emit_rest_control m) as Hctl.
    set (m1 := machine_of (emit_rest m)) in *.
    cbn [g_signal_emit result_of machine_of signals_of fst snd].
    split.
    + rewrite closed_reaped_childless.
      * apply control_child_record, Hctl.
      * rewrite (control_pid _ _ Hctl). exact Hpid.
    + cbn [with_priv main_context].
      rewrite (control_main_context _ _ Hctl). exact Hq.
  - rewrite bind_update_priv, bind_eq.
    pose proof (parse_lines_control (c0 :: chunk)
                  (with_priv (set_read_buffer (c0 :: chunk)) m)) as Hctl.
    set (m1 := machine_of (parse_lines (c0 :: chunk)
                             (with_priv (set_read_buffer (c0 :: chunk)) m)))
      in *.
    assert (Hctl1 : control m1 = control m) by (rewrite Hctl; reflexivity).
    rewrite bind_is_cancelled.
    cbn [result_of machine_of signals_of fst snd].
    destruct (existsb (Nat.eqb (data_cancellable d)) (cancelled m1)).
    + cbn [ret machine_of fst snd]. split.
      * apply control_child_record, Hctl1.
      * rewrite (control_main_context _ _ Hctl1). exact Hq.
    + unfold start_reading. rewrite bind_get_priv.
      cbn [main_context_push machine_of fst snd main_context]. split.
      * apply (control_child_record m m1 Hctl1).
      * rewrite forallb_app, (control_main_context _ _ Hctl1), Hq.
        reflexivity.
  - rewrite async_failed_eq. cbn [machine_of fst snd]. split.
    + apply closed_reaped_childless, Hpid.
    + exact Hq.
Qed.

Lemma main_loop_childless results status :
  forall m,
    pid (priv m) = 0%Z ->
    forallb is_read (main_context m) = true ->
    child_record (machine_of (main_loop results status m)) = child_record m.
Proof.
  induction results as [| result results IH]; intros m Hpid Hq;
    cbn [main_loop]; [reflexivity |].
  rewrite bind_eq. cbn [machine_of fst snd].
  assert (Hstep :
            child_record (machine_of (main_context_iteration result status m))
            = child_record m
            /\ forallb is_read
                 (main_context
                    (machine_of (main_context_iteration result status m)))
               = true).
  { unfold main_context_iteration.
    destruct (main_context m) as [| req q] eqn:E.
    - cbn [machine_of fst snd]. rewrite E. split; reflexivity.
    - cbn [forallb] in Hq. apply andb_prop in Hq. destruct Hq as [Hreq Hq].
      destruct req as [s text c d | s c d]; [discriminate |].
      apply (read_output_ready_childless s result d status
               (mkMachine (priv m) (cancelled m) (next_cancellable m) q));
        assumption. }
  destruct Hstep as [Hrec Hq'].
  rewrite IH; [exact Hrec | | exact Hq'].
  unfold child_record in Hrec. congruence.
Qed.

(** X11: a run on a stream records no exit status.  When the runner holds
    no child pid, [gitg_runner_run_stream] leaves the exit status of the
    previous run in place, in synchronous mode whatever the reads and
    [waitpid] give, and in asynchronous mode whatever the main loop
    completes the reads with; the pid stays 0. *)
Theorem stream_run_records_no_exit_status :
  forall (m : Machine) stream (w : World) results status,
    pid (priv m) = 0%Z ->
    main_context m = [] ->
    let started := gitg_runner_run_stream stream w m in
    let r := main_loop results status (machine_of started) in
    gitg_runner_get_exit_status (priv (machine_of started))
    = gitg_runner_get_exit_status (priv m)
    /\ gitg_runner_get_exit_status (priv (machine_of r))
       = gitg_runner_get_exit_status (priv m)
    /\ pid (priv (machine_of r)) = 0%Z.
Proof.
  intros m stream w results status Hpid Hq started r. subst r started.
  unfold gitg_runner_run_stream.
  rewrite gitg_runner_run_streams_eq. cbv zeta.
  destruct (gitg_runner_cancel_childless m Hpid) as [Hrec1 Hq1].
  set (m1 := machine_of (gitg_runner_cancel m)) in *.
  set (m2 := with_priv (attach_streams stream None) m1).
  assert (Hrec2 : child_record m2 = child_record m)
    by (rewrite <- Hrec1; unfold m2, child_record, attach_streams;
        destruct stream; reflexivity).
  assert (Hq2 : main_context m2 = []) by (rewrite <- Hq, <- Hq1; reflexivity).
  assert (Hpid2 : pid (priv m2) = 0%Z)
    by (unfold child_record in Hrec2; congruence).
  assert (Hgoal :
            forall m3,
              child_record m3 = child_record m ->
              forallb is_read (main_context m3) = true ->
              exit_status (priv m3) = exit_status (priv m)
              /\ exit_status (priv (machine_of (main_loop results status m3)))
                 = exit_status (priv m)
              /\ pid (priv (machine_of (main_loop results status m3))) = 0%Z).
  { intros m3 Hrec3 Hq3.
    assert (Hpid3 : pid (priv m3) = 0%Z)
      by (unfold child_record in Hrec3; congruence).
    pose proof (main_loop_childless results status m3 Hpid3 Hq3) as Hloop.
    unfold child_record in *.
    repeat split; congruence. }
  unfold gitg_runner_get_exit_status.
  cbn [machine_of fst snd].
  destruct (synchronized (priv m2)).
  - destruct (run_sync_shape None w m2)
      as (updates & flag & m3 & st & _ & Hc & _ & Hm & _).
    unfold machine_of in Hm |- *. cbn [fst snd] in Hm |- *.
    apply Hgoal.
    + rewrite Hm, closed_reaped_childless.
      * rewrite (control_child_record _ _ Hc). exact Hrec2.
      * rewrite (control_pid _ _ Hc). exact Hpid2.
    + rewrite Hm. cbn [with_priv main_context].
      rewrite (control_main_context _ _ Hc), Hq2. reflexivity.
  - unfold machine_of. cbn [fst snd]. apply Hgoal.
    + exact Hrec2.
    + rewrite Hq2. reflexivity.
Qed.

Lemma stream_run_records_no_exit_status_witness :
  let w := mkWorld (fun _ _ _ _ => None) true [Some (txt [97; 10])] 3 in
  gitg_runner_get_exit_status
    (priv (machine_of
             (gitg_runner_run_stream (Some (g_unix_input_stream_new 5)) w
                                     (gitg_runner_new_synchronized 16))))
  = 0%Z.
Proof.
  intros w.
  destruct (stream_run_records_no_exit_status
              (gitg_runner_new_synchronized 16)
              (Some (g_unix_input_stream_new 5)) w [] 0%Z eq_refl eq_refl)
    as (H & _).
  exact H.
Defined.

Lemma gitg_runner_add_environment_eq key value e m :
  gitg_runner_add_environment key value e m
  = (tt,
     with_priv
       (set_environment
          (Some (match environment (priv m) with
                 | Some env => env
                 | None => map (fun name => environment_entry name (g_getenv e name))
                               (g_listenv e)
                 end ++ [environment_entry key (Some value)]))) m,
     []).
Proof.
  unfold gitg_runner_add_environment. rewrite bind_get_priv.
  destruct (environment (priv m)) as [env |] eqn:E.
  - rewrite bind_ret, bind_get_priv, E. reflexivity.
  - rewrite bind_update_priv, bind_get_priv. reflexivity.
Qed.

Lemma add_environment_all_eq entries e :
  forall m,
    entries <> [] ->
    add_environment_all entries e m
    = (tt,
       with_priv
         (set_environment
            (Some (match environment (priv m) with
                   | Some env => env
                   | None => map (fun name =>
                                    environment_entry name (g_getenv e name))
                                 (g_listenv e)
                   end
                   ++ map (fun kv => environment_entry (fst kv) (Some (snd kv)))
                          entries))) m,
       []).
Proof.
  induction entries as [| [key value] entries IH]; intros m Hne;
    [congruence |].
  cbn [add_environment_all]. rewrite bind_eq.
  rewrite gitg_runner_add_environment_eq.
  cbn [result_of machine_of signals_of fst snd app].
  destruct entries as [| entry entries].
  - reflexivity.
  - rewrite IH by discriminate.
    cbn [result_of machine_of signals_of fst snd with_priv priv environment
         set_environment map].
    rewrite <- app_assoc. reflexivity.
Qed.

(** X12: variables are added to the child's environment in call order and
    nothing is ever replaced.  After [gitg_runner_set_environment] and one
    or more [gitg_runner_add_environment] calls the stored environment is
    the array that was set, or, when NULL was set, the environment of the
    calling process as name=value entries in [g_listenv] order, followed by
    one key=value entry per call, in call order; the process environment is
    consulted for the first addition only, a key that is already present
    keeps its old entry, and an empty array that was set stays empty of
    inherited variables.  Nothing else of the runner changes and no signal
    is emitted. *)
Theorem environment_additions_append :
  forall (m : Machine) start entries (e : ProcessEnvironment),
    entries <> [] ->
    let r := (gitg_runner_set_environment start ;;
              add_environment_all entries e) m in
    let base := match start with
                | Some env => env
                | None => map (fun name =>
                                 environment_entry name (g_getenv e name))
                              (g_listenv e)
                end in
    environment (priv (machine_of r))
    = Some (base ++ map (fun kv => environment_entry (fst kv) (Some (snd kv)))
                        entries)
    /\ signals_of r = []
    /\ with_priv (set_environment (environment (priv m))) (machine_of r) = m.
Proof.
  intros m start entries e Hne r base. subst r base.
  unfold gitg_runner_set_environment.
  rewrite bind_update_priv, (add_environment_all_eq entries e _ Hne).
  cbn [result_of machine_of signals_of fst snd with_priv priv environment
       set_environment].
  repeat split.
  destruct m as [[a1 a2 a3 a4 a5 a6 a7 a8 a9 a10 a11 a12] c n q]. reflexivity.
Qed.

Lemma environment_additions_append_witness :
  let e := mkProcessEnvironment [txt [72]; txt [80]]
             (fun name => if list_eq_dec ascii_dec name (txt [72])
                          then Some (txt [47]) else None) in
  environment
    (priv (machine_of
             ((gitg_runner_set_environment None ;;
               add_environment_all [(txt [72], txt [120]); (txt [76], txt [67])]
                                   e) (gitg_runner_new 16))))
  = Some [txt [72; 61; 47]; txt [80; 61]; txt [72; 61; 120]; txt [76; 61; 67]].
Proof.
  intros e.
  destruct (environment_additions_append
              (gitg_runner_new 16) None
              [(txt [72], txt [120]); (txt [76], txt [67])] e)
    as (H & _).
  - discriminate.
  - exact H.
Defined.

Lemma control_settings m m' :
  control m' = control m -> settings m' = settings m.
Proof. unfold control, settings. congruence. Qed.

Lemma settings_fresh m m' :
  settings m' = settings m -> cancellable_fresh m -> cancellable_fresh m'.
Proof.
  unfold settings, cancellable_fresh. intros H Hf.
  injection H as H1 _ _ _ _ H2 H3. rewrite H1, H2, H3. exact Hf.
Qed.

Lemma closed_reaped_idle status m :
  let m' := with_priv closed (with_priv (reaped status) m) in
  gitg_runner_running (priv m') = false
  /\ pid (priv m') = 0%Z
  /\ rest_buffer (priv m') = []
  /\ main_context m' = main_context m
  /\ settings m' = settings m.
Proof.
  unfold gitg_runner_running, settings, closed, reaped.
  cbn [with_priv priv main_context cancelled next_cancellable].
  destruct (Z.eqb_spec (pid (priv m)) 0) as [E | E];
    repeat split; try reflexivity; exact E.
Qed.

Lemma main_loop_empty results status :
  forall m, main_context m = [] -> main_loop results status m = (tt, m, []).
Proof.
  induction results as [| result results IH]; intros m Hq; cbn [main_loop];
    [reflexivity |].
  rewrite bind_eq.
  assert (Hstep : main_context_iteration result status m = (tt, m, []))
    by (unfold main_context_iteration; rewrite Hq; reflexivity).
  rewrite Hstep. cbn [result_of machine_of signals_of fst snd app].
  rewrite (IH m Hq). reflexivity.
Qed.

Lemma read_output_ready_chunk_settings s d status c0 chunk m :
  existsb (Nat.eqb (data_cancellable d)) (cancelled m) = false ->
  settings (machine_of (read_output_ready s (Some (c0 :: chunk)) d status m))
  = settings m.
Proof.
  intros Hlive. unfold read_output_ready.
  rewrite bind_is_cancelled, Hlive, bind_update_priv, bind_eq.
  pose proof (parse_lines_control (c0 :: chunk)
                (with_priv (set_read_buffer (c0 :: chunk)) m)) as Hctl.
  set (m1 := machine_of (parse_lines (c0 :: chunk)
                           (with_priv (set_read_buffer (c0 :: chunk)) m))) in *.
  assert (Hcan : cancelled m1 = cancelled m)
    by (unfold control in Hctl; cbn in Hctl; congruence).
  rewrite bind_is_cancelled, Hcan, Hlive.
  unfold start_reading. rewrite bind_get_priv.
  cbn [main_context_push result_of machine_of signals_of fst snd].
  transitivity (settings m1); [reflexivity |].
  rewrite (control_settings _ _ Hctl). reflexivity.
Qed.

Lemma main_loop_reads_idle chunks status :
  forall m s c d,
    main_context m = [g_input_stream_read_async s c d] ->
    existsb (Nat.eqb (data_cancellable d)) (cancelled m) = false ->
    Forall (fun chunk => chunk <> []) chunks ->
    let m' := machine_of (main_loop (map Some chunks ++ [Some []]) status m) in
    gitg_runner_running (priv m') = false
    /\ pid (priv m') = 0%Z
    /\ rest_buffer (priv m') = []
    /\ main_context m' = []
    /\ settings m' = settings m.
Proof.
  induction chunks as [| chunk chunks IH]; intros m s c d Hq Hlive Hne m';
    subst m'; cbn [map app main_loop].
  - rewrite bind_eq. cbn [ret result_of machine_of signals_of fst snd].
    rewrite (main_context_iteration_read s c d [] _ _ m Hq).
    unfold read_output_ready.
    rewrite bind_is_cancelled.
    cbn [with_queue cancelled]. rewrite Hlive.
    rewrite bind_eq, bind_get_priv, bind_runner_io_exit, bind_close_streams.
    pose proof (emit_rest_control (with_queue [] m)) as Hctl.
    set (m1 := machine_of (emit_rest (with_queue [] m))) in *.
    cbn [g_signal_emit result_of machine_of signals_of fst snd].
    destruct (closed_reaped_idle status m1) as (H1 & H2 & H3 & H4 & H5).
    rewrite H4, H5, (control_main_context _ _ Hctl),
      (control_settings _ _ Hctl).
    repeat split; assumption.
  - inversion Hne as [| ? ? Hchunk Hrest]; subst.
    destruct chunk as [| c0 chunk]; [congruence |].
    rewrite bind_eq.
    rewrite (main_context_iteration_read s c d [] _ _ m Hq).
    destruct (read_output_ready_chunk s d status c0 chunk (with_queue [] m)
                Hlive) as (s' & c' & Hq' & Hcan & _).
    pose proof (read_output_ready_chunk_settings s d status c0 chunk
                  (with_queue [] m) Hlive) as Hset.
    set (m1 := machine_of (read_output_ready s (Some (c0 :: chunk)) d status
                             (with_queue [] m))) in *.
    cbn [with_queue main_context cancelled priv app] in Hq', Hcan.
    rewrite <- Hcan in Hlive.
    cbn [result_of machine_of signals_of fst snd].
    destruct (IH m1 s' c' d Hq' Hlive Hrest) as (H1 & H2 & H3 & H4 & H5).
    rewrite H5, Hset. repeat split; assumption.
Qed.

Lemma spawned_machine_idle m child i o :
  input_stream (priv m) = None ->
  spawned_machine m child i o
  = with_priv (attach_streams i o) (with_priv (set_pid (Zpos child)) m).
Proof.
  intros Hidle. unfold spawned_machine.
  rewrite (gitg_runner_cancel_idle m Hidle). cbn [machine_of fst snd].
  rewrite (gitg_runner_cancel_idle (with_priv (set_pid (Z.pos child)) m) Hidle).
  reflexivity.
Qed.

Lemma attach_streams_settings i o m :
  settings (with_priv (attach_streams i o) m) = settings m
  /\ main_context (with_priv (attach_streams i o) m) = main_context m
  /\ pid (priv (with_priv (attach_streams i o) m)) = pid (priv m).
Proof. unfold attach_streams. destruct i, o; repeat split; reflexivity. Qed.

(** X13: a runner is ready for its next run after every completed run.
    Fresh runners are idle and ready.  From an idle and ready runner, a
    synchronous [run] returns an idle and ready runner whatever the spawn,
    the write and the reads do; an asynchronous [run] gives one once the
    main loop has completed the write, the reads of the child's non-empty
    chunks and the end of its output, and at once when the spawn fails.  The
    buffer size, the mode, the line-ending policy, the environment and the
    cancellable are those the runner had before. *)
Theorem runner_is_ready_after_a_run :
  (forall size,
      idle_ready (gitg_runner_new size)
      /\ idle_ready (gitg_runner_new_synchronized size))
  /\ forall (m : Machine) work_tree argv input (w : World) chunks status,
      idle_ready m ->
      let r := gitg_runner_run_with_arguments work_tree argv input w m in
      let r' := main_loop (async_completions input w) status (machine_of r) in
      (synchronized (priv m) = true ->
       idle_ready (machine_of r) /\ settings (machine_of r) = settings m)
      /\ (synchronized (priv m) = false ->
          g_input_stream_read_all w = map Some chunks ->
          Forall (fun chunk => chunk <> []) chunks ->
          idle_ready (machine_of r') /\ settings (machine_of r') = settings m).
Proof.
  split.
  { intros size. unfold idle_ready, cancellable_fresh.
    cbn. repeat split; try lia; constructor. }
  intros m work_tree argv input w chunks status
         (Hrun & Hpid & Hrest & Hq & Hfresh) r r'.
  subst r' r.
  assert (Hidle : input_stream (priv m) = None)
    by (unfold gitg_runner_running in Hrun;
        destruct (input_stream (priv m)); [discriminate | reflexivity]).
  assert (Hready :
            forall m',
              gitg_runner_running (priv m') = false
              /\ pid (priv m') = 0%Z
              /\ rest_buffer (priv m') = []
              /\ main_context m' = []
              /\ settings m' = settings m ->
              idle_ready m' /\ settings m' = settings m).
  { intros m' (H1 & H2 & H3 & H4 & H5). unfold idle_ready.
    repeat split; try assumption; apply (settings_fresh m m' H5 Hfresh). }
  destruct (g_spawn_async_with_pipes w work_tree argv (environment (priv m))
              (match input with Some _ => true | None => false end))
    as [[[child stdinf] stdoutf] |] eqn:Hspawn.
  - rewrite (gitg_runner_run_with_arguments_started work_tree argv input w m
               child stdinf stdoutf Hspawn).
    cbv zeta.
    set (o := match input with
              | Some _ => Some (g_unix_output_stream_new stdinf)
              | None => None
              end).
    rewrite (spawned_machine_idle m child
               (Some (g_unix_input_stream_new stdoutf)) o Hidle).
    set (m2 := with_priv (attach_streams
                            (Some (g_unix_input_stream_new stdoutf)) o)
                         (with_priv (set_pid (Z.pos child)) m)).
    assert (Hset2 : settings m2 = settings m)
      by (unfold m2, attach_streams; destruct o; reflexivity).
    assert (Hq2 : main_context m2 = [])
      by (rewrite <- Hq; unfold m2, attach_streams; destruct o; reflexivity).
    assert (Hlive : existsb (Nat.eqb (cancellable (priv m2))) (cancelled m2)
                    = false).
    { destruct Hfresh as (_ & Hl & _).
      unfold m2, attach_streams. destruct o; exact Hl. }
    split.
    + intros Hsync. rewrite Hsync.
      destruct (run_sync_shape input w m2)
        as (updates & flag & m1 & st & _ & Hc & _ & Hm & _).
      unfold machine_of in Hm |- *. cbn [fst snd] in Hm |- *.
      rewrite Hm. apply Hready.
      destruct (closed_reaped_idle st m1) as (H1 & H2 & H3 & H4 & H5).
      rewrite H4, H5, (control_main_context _ _ Hc),
        (control_settings _ _ Hc), Hq2, Hset2.
      repeat split; assumption.
    + intros Hasync Hreads Hne. rewrite Hasync, Hq.
      cbn [machine_of fst snd app]. apply Hready.
      unfold async_completions. rewrite Hreads.
      assert (Hloop :
                forall m3,
                  main_context m3
                  = [g_input_stream_read_async (input_stream (priv m2))
                       (cancellable (priv m2))
                       (async_data_new (cancellable (priv m2)))] ->
                  cancelled m3 = cancelled m2 ->
                  settings m3 = settings m2 ->
                  let m' := machine_of (main_loop (map Some chunks ++ [Some []])
                                                  status m3) in
                  gitg_runner_running (priv m') = false
                  /\ pid (priv m') = 0%Z
                  /\ rest_buffer (priv m') = []
                  /\ main_context m' = []
                  /\ settings m' = settings m).
      { intros m3 Hq3 Hcan3 Hset3 m'. subst m'.
        rewrite <- Hcan3 in Hlive.
        destruct (main_loop_reads_idle chunks status m3 _ _ _ Hq3 Hlive Hne)
          as (H1 & H2 & H3 & H4 & H5).
        rewrite H5, Hset3, Hset2. repeat split; assumption. }
      destruct input as [text |]; cbn [first_request app main_loop].
      * rewrite bind_eq.
        match goal with
        | |- context [main_context_iteration ?res ?st ?mm] =>
            rewrite (main_context_iteration_write
                       (output_stream (priv m2)) text (cancellable (priv m2))
                       (async_data_new (cancellable (priv m2))) [] res st mm
                       eq_refl)
        end.
        unfold write_input_ready, start_reading.
        rewrite bind_is_cancelled.
        cbn [with_queue cancelled data_cancellable priv].
        rewrite Hlive, bind_ret. cbn [negb].
        rewrite bind_get_priv.
        cbn [main_context_push result_of machine_of signals_of fst snd app
             with_queue main_context priv cancelled next_cancellable].
        apply Hloop; reflexivity.
      * apply Hloop; reflexivity.
  - rewrite (gitg_runner_run_with_arguments_failed work_tree argv input w m
               Hspawn).
    rewrite (gitg_runner_cancel_idle m Hidle).
    cbn [machine_of fst snd].
    assert (Hfailed :
              gitg_runner_running (priv (with_priv (set_pid 0%Z) m)) = false
              /\ pid (priv (with_priv (set_pid 0%Z) m)) = 0%Z
              /\ rest_buffer (priv (with_priv (set_pid 0%Z) m)) = []
              /\ main_context (with_priv (set_pid 0%Z) m) = []
              /\ settings (with_priv (set_pid 0%Z) m) = settings m)
      by (repeat split; assumption).
    split.
    + intros _. apply Hready, Hfailed.
    + intros _ _ _.
      rewrite (main_loop_empty _ status (with_priv (set_pid 0%Z) m) Hq).
      cbn [machine_of fst snd]. apply Hready, Hfailed.
Qed.

Lemma runner_is_ready_after_a_run_witness :
  let w := mkWorld (fun _ _ _ _ => Some (7%positive, 3%Z, 4%Z)) true
                   [Some (txt [97; 10])] 0 in
  idle_ready
    (machine_of (main_loop (async_completions None w) 0
                   (machine_of (gitg_runner_run_with_arguments
                                  None [txt [103]] None w
                                  (gitg_runner_new 16))))).
Proof.
  intros w.
  assert (Hnew : idle_ready (gitg_runner_new 16)).
  { unfold idle_ready, cancellable_fresh. cbn.
    repeat split; [lia | constructor]. }
  destruct (proj2 runner_is_ready_after_a_run
              (gitg_runner_new 16) None [txt [103]] None w [txt [97; 10]] 0%Z
              Hnew) as [_ H].
  destruct (H eq_refl eq_refl) as [Hready _].
  - repeat constructor. discriminate.
  - exact Hready.
Defined.

Lemma spawned_machine_cancelled m child i o s :
  input_stream (priv m) = Some s ->
  cancelled (spawned_machine m child i o) = cancellable (priv m) :: cancelled m.
Proof.
  intros Hrun. unfold spawned_machine.
  assert (Hidle :
            input_stream
              (priv (with_priv (set_pid (Zpos child))
                               (machine_of (gitg_runner_cancel m)))) = None)
    by apply gitg_runner_cancel_stops.
  rewrite (gitg_runner_cancel_idle _ Hidle).
  rewrite (gitg_runner_cancel_running m s Hrun).
  reflexivity.
Qed.

(** X14: a runner that is restarted delivers the lines of the new run only.
    When a second asynchronous [run] is started before the main loop has
    completed the read of the first, the second call emits the end of the
    first run, flagged cancelled, and its own begin; the old read, whatever
    it completes with, is discarded without a signal, and the reads of the
    second run then deliver exactly the lines of the text of the second
    child, followed by one end not flagged cancelled. *)
Theorem restarted_run_delivers_only_its_own_lines :
  forall (m : Machine) argv1 argv2 (w1 w2 : World)
         child1 stdin1 stdout1 child2 stdin2 stdout2 stale chunks status,
    synchronized (priv m) = false ->
    idle_ready m ->
    g_spawn_async_with_pipes w1 None argv1 (environment (priv m)) false
    = Some (child1, stdin1, stdout1) ->
    g_spawn_async_with_pipes w2 None argv2 (environment (priv m)) false
    = Some (child2, stdin2, stdout2) ->
    Forall (fun chunk => chunk <> []) chunks ->
    utf8_text 0 (concat chunks) = true ->
    nul_free (concat chunks) = true ->
    let first := gitg_runner_run argv1 w1 m in
    let second := gitg_runner_run argv2 w2 (machine_of first) in
    let r := main_loop (stale :: map Some chunks ++ [Some []]) status
                       (machine_of second) in
    signals_of first = [BEGIN_LOADING]
    /\ signals_of second = [END_LOADING true; BEGIN_LOADING]
    /\ emitted_lines (signals_of r)
       = segment_all (preserve_line_endings (priv m)) (concat chunks)
    /\ exists updates,
        signals_of r = updates ++ [END_LOADING false]
        /\ forallb is_update updates = true.
Proof.
  intros m argv1 argv2 w1 w2 child1 stdin1 stdout1 child2 stdin2 stdout2
         stale chunks status Hasync (Hrun & Hpid & Hrest & Hq & Hfresh)
         Hspawn1 Hspawn2 Hne Htext Hnul first second r.
  subst r second first.
  assert (Hidle : input_stream (priv m) = None)
    by (unfold gitg_runner_running in Hrun;
        destruct (input_stream (priv m)); [discriminate | reflexivity]).
  unfold gitg_runner_run.
  rewrite (gitg_runner_run_with_arguments_started None argv1 None w1 m
             child1 stdin1 stdout1 Hspawn1).
  cbv zeta. rewrite Hasync, Hq, (gitg_runner_cancel_idle m Hidle).
  rewrite (spawned_machine_idle m child1
             (Some (g_unix_input_stream_new stdout1)) None Hidle).
  cbn [result_of machine_of signals_of fst snd app first_request].
  set (ms := with_priv (attach_streams (Some (g_unix_input_stream_new stdout1))
                                       None)
                       (with_priv (set_pid (Z.pos child1)) m)).
  set (req1 := g_input_stream_read_async (input_stream (priv ms))
                 (cancellable (priv ms))
                 (async_data_new (cancellable (priv ms)))).
  set (m1 := with_queue [req1] ms).
  assert (Hin1 : input_stream (priv m1)
                 = Some (g_converter_input_stream_new
                           (g_unix_input_stream_new stdout1)))
    by reflexivity.
  assert (Hset1 : settings m1 = settings m) by reflexivity.
  assert (Hfresh1 : cancellable_fresh m1)
    by exact (settings_fresh m m1 Hset1 Hfresh).
  assert (Hrest1 : rest_buffer (priv m1) = []) by exact Hrest.
  assert (Hspawn2' :
            g_spawn_async_with_pipes w2 None argv2 (environment (priv m1)) false
            = Some (child2, stdin2, stdout2)) by exact Hspawn2.
  rewrite (gitg_runner_run_with_arguments_started None argv2 None w2 m1
             child2 stdin2 stdout2 Hspawn2').
  cbv zeta.
  assert (Hasync1 : synchronized (priv m1) = false) by exact Hasync.
  rewrite Hasync1, (gitg_runner_cancel_running m1 _ Hin1).
  cbn [result_of machine_of signals_of fst snd app first_request].
  set (m2 := spawned_machine m1 child2
               (Some (g_unix_input_stream_new stdout2)) None).
  destruct (spawned_machine_props m1 child2
              (Some (g_unix_input_stream_new stdout2)) None)
    as (_ & _ & _ & _ & Hlive).
  destruct (spawned_machine_segmenter m1 child2
              (Some (g_unix_input_stream_new stdout2)) None Hrest1)
    as [Hst _].
  pose proof (spawned_machine_cancelled m1 child2
                (Some (g_unix_input_stream_new stdout2)) None _ Hin1) as Hcan.
  fold m2 in Hlive, Hst, Hcan. specialize (Hlive Hfresh1).
  assert (Hrest2 : rest_buffer (priv m2) = [])
    by exact (eq_trans (f_equal fst Hst) Hrest1).
  assert (Hpol : preserve_line_endings (priv m2) = preserve_line_endings (priv m))
    by exact (f_equal snd Hst).
  split; [reflexivity |]. split; [reflexivity |].
  set (req2 := g_input_stream_read_async (input_stream (priv m2))
                 (cancellable (priv m2))
                 (async_data_new (cancellable (priv m2)))).
  assert (Hsig :
            signals_of
              (main_loop (stale :: map Some chunks ++ [Some []]) status
                         (with_queue (main_context m1 ++ [req2]) m2))
            = signals_of (feed chunks m2) ++ [END_LOADING false]).
  { cbn [main_loop]. rewrite bind_eq.
    rewrite (main_context_iteration_read (input_stream (priv ms))
               (cancellable (priv ms))
               (async_data_new (cancellable (priv ms))) [req2] stale status
               (with_queue (main_context m1 ++ [req2]) m2) eq_refl).
    assert (Hstale :
              read_output_ready (input_stream (priv ms)) stale
                (async_data_new (cancellable (priv ms))) status
                (with_queue [req2] (with_queue (main_context m1 ++ [req2]) m2))
              = (tt,
                 with_queue [req2] (with_queue (main_context m1 ++ [req2]) m2),
                 [])).
    { unfold read_output_ready. rewrite bind_is_cancelled.
      cbn [with_queue cancelled data_cancellable].
      rewrite Hcan. cbn [existsb].
      assert (Hc : cancellable (priv ms) = cancellable (priv m1))
        by reflexivity.
      rewrite Hc, Nat.eqb_refl. reflexivity. }
    rewrite Hstale. cbn [result_of machine_of signals_of fst snd app].
    match goal with
    | |- context [main_loop _ _ ?mm] =>
        rewrite (main_loop_feed chunks status mm (input_stream (priv m2))
                   (cancellable (priv m2))
                   (async_data_new (cancellable (priv m2))) eq_refl)
    end.
    - f_equal. apply feed_state. reflexivity.
    - cbn [with_queue cancelled]. rewrite Hcan in Hlive. exact Hlive.
    - exact Hne. }
  rewrite Hsig. split.
  - rewrite emitted_lines_app. cbn [emitted_lines]. rewrite app_nil_r.
    rewrite (feed_segments_whole chunks m2).
    + rewrite Hrest2, Hpol. reflexivity.
    + rewrite Hrest2. reflexivity.
    + rewrite Hrest2. exact Htext.
    + rewrite Hrest2. exact Hnul.
  - exists (signals_of (feed chunks m2)). split; [reflexivity |].
    apply feed_signals.
Qed.

Lemma restarted_run_delivers_only_its_own_lines_witness :
  let w := mkWorld (fun _ _ _ _ => Some (7%positive, 3%Z, 4%Z)) true [] 0 in
  let first := gitg_runner_run [txt [103]] w (gitg_runner_new 16) in
  let second := gitg_runner_run [txt [104]] w (machine_of first) in
  emitted_lines
    (signals_of
       (main_loop (Some (txt [111; 108; 100; 10])
                   :: map Some [txt [110; 101]; txt [119; 10]] ++ [Some []])
                  0 (machine_of second)))
  = segment_all false (txt [110; 101; 119; 10]).
Proof.
  intros w first second.
  assert (Hnew : idle_ready (gitg_runner_new 16)).
  { unfold idle_ready, cancellable_fresh. cbn.
    repeat split; [lia | constructor]. }
  destruct (restarted_run_delivers_only_its_own_lines
              (gitg_runner_new 16) [txt [103]] [txt [104]] w w
              7%positive 3%Z 4%Z 7%positive 3%Z 4%Z
              (Some (txt [111; 108; 100; 10]))
              [txt [110; 101]; txt [119; 10]] 0%Z eq_refl Hnew eq_refl eq_refl)
    as (_ & _ & H & _).
  - repeat constructor; discriminate.
  - vm_compute. reflexivity.
  - vm_compute. reflexivity.
  - exact H.
Defined.

Lemma passes_state chunks :
  forall m m',
    segmenter_state m = segmenter_state m' ->
    signals_of (passes chunks m) = signals_of (passes chunks m')
    /\ segmenter_state (machine_of (passes chunks m))
       = segmenter_state (machine_of (passes chunks m')).
Proof.
  induction chunks as [| chunk chunks IH]; intros m m' H; cbn [passes].
  - split; [reflexivity | exact H].
  - rewrite !bind_eq. cbn [machine_of signals_of fst snd].
    destruct (parse_lines_state chunk m m' H) as [Hs Hst].
    destruct (IH _ _ Hst) as [Hs' Hst'].
    rewrite Hs, Hs'. split; [reflexivity | exact Hst'].
Qed.

Lemma passes_signals chunks :
  forall m, forallb is_update (signals_of (passes chunks m)) = true.
Proof.
  induction chunks as [| chunk chunks IH]; intros m; cbn [passes].
  - reflexivity.
  - rewrite signals_bind, forallb_app, parse_lines_signals. apply IH.
Qed.

Lemma complete_lines_app preserve a t :
  utf8_text 0 (a ++ t) = true ->
  nul_free (a ++ t) = true ->
  complete_lines preserve (a ++ t)
  = complete_lines preserve a
    ++ complete_lines preserve (unfinished_line preserve a ++ t)
  /\ unfinished_line preserve (a ++ t)
     = unfinished_line preserve (unfinished_line preserve a ++ t).
Proof.
  intros Hutf Hnf. unfold complete_lines, unfinished_line.
  rewrite (parse_lines_loop_app (S (length a)) preserve a t []
             (Nat.lt_succ_diag_r _) Hutf Hnf).
  rewrite parse_lines_loop_acc. split; reflexivity.
Qed.

Lemma passes_segments chunks :
  forall m,
    find_newline (rest_buffer (priv m)) = None ->
    utf8_text 0 (rest_buffer (priv m) ++ concat chunks) = true ->
    nul_free (rest_buffer (priv m) ++ concat chunks) = true ->
    emitted_lines (signals_of (passes chunks m))
    = complete_lines (preserve_line_endings (priv m))
                     (rest_buffer (priv m) ++ concat chunks)
    /\ segmenter_state (machine_of (passes chunks m))
       = (unfinished_line (preserve_line_endings (priv m))
                          (rest_buffer (priv m) ++ concat chunks),
          preserve_line_endings (priv m)).
Proof.
  induction chunks as [| chunk chunks IH]; intros m Hnone Hutf Hnf.
  - cbn [passes concat]. rewrite app_nil_r.
    unfold complete_lines, unfinished_line. cbn [parse_lines_loop].
    rewrite Hnone. split; reflexivity.
  - cbn [passes concat] in *. rewrite bind_eq.
    cbn [machine_of signals_of fst snd]. rewrite emitted_lines_app.
    rewrite parse_lines_eq. cbv zeta.
    cbn [signals_of snd machine_of fst result_of emitted_lines].
    rewrite app_nil_r.
    set (preserve := preserve_line_endings (priv m)).
    rewrite (app_assoc (rest_buffer (priv m)) chunk (concat chunks)) in *.
    set (all := rest_buffer (priv m) ++ chunk) in *.
    change (fst (parse_lines_loop (S (length all)) preserve all []))
      with (complete_lines preserve all).
    change (snd (parse_lines_loop (S (length all)) preserve all []))
      with (unfinished_line preserve all).
    assert (Hnfall : nul_free all = true).
    { rewrite nul_free_app in Hnf. apply andb_true_iff in Hnf. tauto. }
    assert (Hnfr : nul_free (unfinished_line preserve all) = true)
      by apply parse_lines_loop_nul_free, Hnfall.
    pose proof (parse_lines_loop_exhausts (S (length all)) preserve all []
                  (Nat.lt_succ_diag_r _)) as Hex.
    assert (Hutfr : utf8_text 0 (unfinished_line preserve all ++ concat chunks)
                    = true)
      by apply parse_lines_loop_text, Hutf.
    destruct (complete_lines_app preserve all (concat chunks) Hutf Hnf)
      as [Hc Hu].
    rewrite (g_strndup_whole _ Hnfr).
    set (m1 := with_priv
                 (fun p => set_lines (complete_lines preserve all)
                             (set_rest_buffer (unfinished_line preserve all) p))
                 m).
    destruct (IH m1) as [IHl IHs].
    + exact Hex.
    + exact Hutfr.
    + cbn [m1 with_priv priv set_lines set_rest_buffer rest_buffer].
      rewrite nul_free_app, Hnfr.
      rewrite nul_free_app in Hnf. apply andb_true_iff in Hnf. tauto.
    + rewrite IHl, IHs.
      cbn [m1 with_priv priv set_lines set_rest_buffer rest_buffer
           preserve_line_endings].
      fold preserve. rewrite Hc, Hu. split; reflexivity.
Qed.

Lemma run_sync_loop_failed full more :
  forall m,
    Forall (fun chunk => length chunk = Pos.to_nat (buffer_size (priv m))) full ->
    let r := run_sync_loop (map Some full ++ None :: more) m in
    result_of r = false
    /\ signals_of r = signals_of (passes full m) ++ [END_LOADING true].
Proof.
  induction full as [| chunk full IH]; intros m Hfull r; subst r;
    cbn [map app run_sync_loop passes].
  - rewrite bind_get_priv, bind_runner_io_exit, bind_close_streams.
    split; reflexivity.
  - inversion Hfull as [| ? ? Hlen Hrest]; subst.
    rewrite bind_update_priv, bind_eq, bind_get_priv.
    pose proof (parse_lines_control chunk (with_priv (set_read_buffer chunk) m))
      as Hctl.
    destruct (parse_lines_state chunk (with_priv (set_read_buffer chunk) m) m
                eq_refl) as [Hs Hst].
    set (m1 := machine_of (parse_lines chunk
                             (with_priv (set_read_buffer chunk) m))) in *.
    assert (Hbs : buffer_size (priv m1) = buffer_size (priv m))
      by (rewrite (control_buffer_size _ _ Hctl); reflexivity).
    rewrite Hbs, Hlen, Nat.eqb_refl.
    rewrite <- Hbs in Hrest.
    destruct (IH m1 Hrest) as [Hres Hsig].
    cbn [result_of machine_of signals_of fst snd].
    split; [exact Hres |].
    rewrite Hsig, signals_bind, Hs, <- app_assoc. do 2 f_equal.
    apply passes_state, Hst.
Qed.

Lemma main_loop_failed chunks status :
  forall m s c d,
    main_context m = [g_input_stream_read_async s c d] ->
    existsb (Nat.eqb (data_cancellable d)) (cancelled m) = false ->
    Forall (fun chunk => chunk <> []) chunks ->
    signals_of (main_loop (map Some chunks ++ [None]) status m)
    = signals_of (passes chunks m) ++ [END_LOADING true].
Proof.
  induction chunks as [| chunk chunks IH]; intros m s c d Hq Hlive Hne;
    cbn [map app main_loop passes].
  - rewrite bind_eq. cbn [ret result_of machine_of signals_of fst snd].
    rewrite (main_context_iteration_read s c d [] _ _ m Hq).
    unfold read_output_ready. rewrite bind_is_cancelled.
    cbn [with_queue cancelled]. rewrite Hlive, async_failed_eq. reflexivity.
  - inversion Hne as [| ? ? Hchunk Hrest]; subst.
    destruct chunk as [| c0 chunk]; [congruence |].
    rewrite bind_eq.
    rewrite (main_context_iteration_read s c d [] _ _ m Hq).
    destruct (read_output_ready_chunk s d status c0 chunk (with_queue [] m)
                Hlive) as (s' & c' & Hq' & Hcan & _).
    destruct (read_output_ready_chunk_feed s d status c0 chunk
                (with_queue [] m) Hlive) as [Hs Hst].
    set (m1 := machine_of (read_output_ready s (Some (c0 :: chunk)) d status
                             (with_queue [] m))) in *.
    cbn [with_queue main_context cancelled priv app] in Hq', Hcan.
    rewrite <- Hcan in Hlive.
    cbn [result_of machine_of signals_of fst snd].
    rewrite (IH m1 s' c' d Hq' Hlive Hrest), Hs, signals_bind, <- app_assoc.
    destruct (parse_lines_state (c0 :: chunk) (with_queue [] m) m eq_refl)
      as [Hs2 Hst2].
    rewrite Hs2. do 2 f_equal.
    apply passes_state. rewrite Hst. exact Hst2.
Qed.

(** X15: a failed read loses the unfinished line.  When a read fails after
    the child's text so far has been read, the run has delivered exactly
    the lines of that text that end in a terminator; what follows the last
    terminator is dropped without a line, the end is flagged cancelled and,
    in synchronous mode, [run] returns FALSE with the read's error.  A run
    that ends normally on the same text delivers these lines and then the
    unfinished one. *)
Theorem failed_read_loses_unfinished_line :
  forall (m : Machine) work_tree argv input (w : World) child stdinf stdoutf
         chunks more status,
    rest_buffer (priv m) = [] ->
    g_spawn_async_with_pipes w work_tree argv (environment (priv m))
      (match input with Some _ => true | None => false end)
    = Some (child, stdinf, stdoutf) ->
    utf8_text 0 (concat chunks) = true ->
    nul_free (concat chunks) = true ->
    let policy := preserve_line_endings (priv m) in
    let r := gitg_runner_run_with_arguments work_tree argv input w m in
    let r' := main_loop ((match input with
                          | Some text => [Some text]
                          | None => []
                          end) ++ map Some chunks ++ [None]) status
                        (machine_of r) in
    let failed t :=
      emitted_lines t = complete_lines policy (concat chunks)
      /\ exists updates,
          t = updates ++ [END_LOADING true]
          /\ forallb is_update updates = true in
    (synchronized (priv m) = true ->
     (match input with
      | Some _ => g_output_stream_write_all w
      | None => true
      end) = true ->
     g_input_stream_read_all w = map Some chunks ++ None :: more ->
     Forall (fun chunk => length chunk = Pos.to_nat (buffer_size (priv m)))
            chunks ->
     result_of r = (false, Some G_IO_ERROR)
     /\ exists t,
         signals_of r = signals_of (gitg_runner_cancel m) ++ BEGIN_LOADING :: t
         /\ failed t)
    /\ (synchronized (priv m) = false ->
        main_context m = [] ->
        cancellable_fresh m ->
        Forall (fun chunk => chunk <> []) chunks ->
        failed (signals_of r'))
    /\ segment_all policy (concat chunks)
       = complete_lines policy (concat chunks)
         ++ flush_line policy (unfinished_line policy (concat chunks)).
Proof.
  intros m work_tree argv input w child stdinf stdoutf chunks more status
         Hrest Hspawn Htext Hnul policy r r' failed.
  subst r' r.
  rewrite (gitg_runner_run_with_arguments_started work_tree argv input w m
             child stdinf stdoutf Hspawn).
  cbv zeta.
  set (o := match input with
            | Some _ => Some (g_unix_output_stream_new stdinf)
            | None => None
            end).
  set (m2 := spawned_machine m child (Some (g_unix_input_stream_new stdoutf)) o).
  destruct (spawned_machine_props m child
              (Some (g_unix_input_stream_new stdoutf)) o)
    as (_ & _ & _ & _ & Hlive).
  destruct (spawned_machine_segmenter m child
              (Some (g_unix_input_stream_new stdoutf)) o Hrest) as [Hst Hbs].
  fold m2 in Hlive, Hst, Hbs.
  assert (Hrest2 : rest_buffer (priv m2) = [])
    by exact (eq_trans (f_equal fst Hst) Hrest).
  assert (Hpol : preserve_line_endings (priv m2) = policy)
    by exact (f_equal snd Hst).
  assert (Hpasses : failed (signals_of (passes chunks m2) ++ [END_LOADING true])).
  { subst failed. cbv beta. split.
    - rewrite emitted_lines_app. cbn [emitted_lines]. rewrite app_nil_r.
      destruct (passes_segments chunks m2) as [Hl _].
      + rewrite Hrest2. reflexivity.
      + rewrite Hrest2. exact Htext.
      + rewrite Hrest2. exact Hnul.
      + rewrite Hl, Hrest2, Hpol. reflexivity.
    - exists (signals_of (passes chunks m2)). split; [reflexivity |].
      apply passes_signals. }
  split; [| split; [| reflexivity]].
  - intros Hsync Hw Hreads Hfull. rewrite Hsync.
    rewrite <- Hbs in Hfull.
    destruct (run_sync_loop_failed chunks more m2 Hfull) as [Hres Hsig].
    assert (Hrun :
              run_sync input w m2
              = ((false, Some G_IO_ERROR),
                 machine_of (run_sync_loop (map Some chunks ++ None :: more) m2),
                 signals_of (passes chunks m2) ++ [END_LOADING true])).
    { rewrite (run_sync_reading input w m2 Hw), Hreads.
      rewrite bind_eq, Hres, Hsig.
      cbn [ret result_of machine_of signals_of fst snd].
      rewrite app_nil_r. reflexivity. }
    rewrite Hrun. cbn [result_of machine_of signals_of fst snd].
    split; [reflexivity |].
    exists (signals_of (passes chunks m2) ++ [END_LOADING true]).
    split; [reflexivity | exact Hpasses].
  - intros Hasync Hq Hfresh Hne. rewrite Hasync, Hq.
    specialize (Hlive Hfresh).
    cbn [machine_of fst snd app].
    assert (Hloop :
              forall m3,
                main_context m3
                = [g_input_stream_read_async (input_stream (priv m2))
                     (cancellable (priv m2))
                     (async_data_new (cancellable (priv m2)))] ->
                cancelled m3 = cancelled m2 ->
                segmenter_state m3 = segmenter_state m2 ->
                signals_of (main_loop (map Some chunks ++ [None]) status m3)
                = signals_of (passes chunks m2) ++ [END_LOADING true]).
    { intros m3 Hq3 Hcan3 Hst3.
      rewrite (main_loop_failed chunks status m3 _ _ _ Hq3).
      - f_equal. apply passes_state, Hst3.
      - rewrite Hcan3. exact Hlive.
      - exact Hne. }
    assert (Hsig :
              signals_of
                (main_loop
                   ((match input with Some text => [Some text] | None => [] end)
                      ++ map Some chunks ++ [None]) status
                   (with_queue [first_request input (priv m2)] m2))
              = signals_of (passes chunks m2) ++ [END_LOADING true]).
    { destruct input as [text |]; cbn [first_request app main_loop].
      - rewrite bind_eq.
        match goal with
        | |- context [main_context_iteration ?res ?st ?mm] =>
            rewrite (main_context_iteration_write
                       (output_stream (priv m2)) text (cancellable (priv m2))
                       (async_data_new (cancellable (priv m2))) [] res st mm
                       eq_refl)
        end.
        unfold write_input_ready, start_reading.
        rewrite bind_is_cancelled.
        cbn [with_queue cancelled data_cancellable priv].
        rewrite Hlive, bind_ret. cbn [negb].
        rewrite bind_get_priv.
        cbn [main_context_push result_of machine_of signals_of fst snd app
             with_queue main_context priv cancelled next_cancellable].
        apply Hloop; reflexivity.
      - apply Hloop; reflexivity. }
    rewrite Hsig. exact Hpasses.
Qed.

Lemma failed_read_loses_unfinished_line_witness :
  let w := mkWorld (fun _ _ _ _ => Some (7%positive, 3%Z, 4%Z)) true
                   [Some (txt [97; 10]); Some (txt [98; 99]); None] 0 in
  result_of (gitg_runner_run_with_arguments None [txt [103]] None w
               (gitg_runner_new_synchronized 2))
  = (false, Some G_IO_ERROR).
Proof.
  intros w.
  destruct (failed_read_loses_unfinished_line
              (gitg_runner_new_synchronized 2) None [txt [103]] None w
              7%positive 3%Z 4%Z [txt [97; 10]; txt [98; 99]] [] 0%Z
              eq_refl eq_refl)
    as (Hsync & _).
  - vm_compute. reflexivity.
  - vm_compute. reflexivity.
  - destruct (Hsync eq_refl eq_refl eq_refl) as [H _].
    + repeat constructor.
    + exact H.
Defined.

Lemma read_output_ready_chunk_running s d status c0 chunk m :
  existsb (Nat.eqb (data_cancellable d)) (cancelled m) = false ->
  input_stream
    (priv (machine_of (read_output_ready s (Some (c0 :: chunk)) d status m)))
  = input_stream (priv m).
Proof.
  intros Hlive. unfold read_output_ready.
  rewrite bind_is_cancelled, Hlive, bind_update_priv, bind_eq.
  pose proof (parse_lines_control (c0 :: chunk)
                (with_priv (set_read_buffer (c0 :: chunk)) m)) as Hctl.
  set (m1 := machine_of (parse_lines (c0 :: chunk)
                           (with_priv (set_read_buffer (c0 :: chunk)) m))) in *.
  assert (Hcan : cancelled m1 = cancelled m)
    by (unfold control in Hctl; cbn in Hctl; congruence).
  rewrite bind_is_cancelled, Hcan, Hlive.
  unfold start_reading. rewrite bind_get_priv.
  cbn [main_context_push result_of machine_of signals_of fst snd priv].
  unfold control in Hctl. cbn in Hctl. congruence.
Qed.

Lemma main_loop_reading chunks status :
  forall m s c d,
    main_context m = [g_input_stream_read_async s c d] ->
    existsb (Nat.eqb (data_cancellable d)) (cancelled m) = false ->
    Forall (fun chunk => chunk <> []) chunks ->
    let r := main_loop (map Some chunks) status m in
    signals_of r = signals_of (passes chunks m)
    /\ segmenter_state (machine_of r)
       = segmenter_state (machine_of (passes chunks m))
    /\ (exists s' c',
           main_context (machine_of r) = [g_input_stream_read_async s' c' d])
    /\ settings (machine_of r) = settings m
    /\ input_stream (priv (machine_of r)) = input_stream (priv m).
Proof.
  induction chunks as [| chunk chunks IH]; intros m s c d Hq Hlive Hne r;
    subst r; cbn [map main_loop passes].
  - cbn [ret result_of machine_of signals_of fst snd].
    repeat split; try reflexivity. exists s, c. exact Hq.
  - inversion Hne as [| ? ? Hchunk Hrest]; subst.
    destruct chunk as [| c0 chunk]; [congruence |].
    rewrite !bind_eq.
    rewrite (main_context_iteration_read s c d [] _ _ m Hq).
    destruct (read_output_ready_chunk s d status c0 chunk (with_queue [] m)
                Hlive) as (s' & c' & Hq' & Hcan & _).
    destruct (read_output_ready_chunk_feed s d status c0 chunk
                (with_queue [] m) Hlive) as [Hs Hst].
    pose proof (read_output_ready_chunk_settings s d status c0 chunk
                  (with_queue [] m) Hlive) as Hset.
    pose proof (read_output_ready_chunk_running s d status c0 chunk
                  (with_queue [] m) Hlive) as Hin.
    set (m1 := machine_of (read_output_ready s (Some (c0 :: chunk)) d status
                             (with_queue [] m))) in *.
    cbn [with_queue main_context cancelled priv app] in Hq', Hcan, Hin.
    rewrite <- Hcan in Hlive.
    cbn [result_of machine_of signals_of fst snd].
    destruct (IH m1 s' c' d Hq' Hlive Hrest) as (H1 & H2 & H3 & H4 & H5).
    destruct (parse_lines_state (c0 :: chunk) (with_queue [] m) m eq_refl)
      as [Hs2 Hst2].
    destruct (passes_state chunks m1 (machine_of (parse_lines (c0 :: chunk) m)))
      as [Hp1 Hp2]; [rewrite Hst; exact Hst2 |].
    rewrite H1, H2, H4, H5, Hs, Hs2, Hp1, Hp2, Hset, Hin.
    repeat split; try reflexivity. exact H3.
Qed.

(** X16: cancelling an asynchronous run keeps what was delivered and stops
    the rest.  After the main loop has completed reads with the child's
    non-empty chunks, the updates have carried exactly the lines of that
    text that end in a terminator and the run is still active; [cancel]
    then emits one end flagged cancelled and drops the unfinished line; the
    read that was pending, whatever it completes with later, emits nothing
    changes no field of the runner and issues no new read. *)
Theorem cancel_keeps_delivered_lines :
  forall (m : Machine) argv (w : World) child stdinf stdoutf chunks late status,
    synchronized (priv m) = false ->
    idle_ready m ->
    g_spawn_async_with_pipes w None argv (environment (priv m)) false
    = Some (child, stdinf, stdoutf) ->
    Forall (fun chunk => chunk <> []) chunks ->
    utf8_text 0 (concat chunks) = true ->
    nul_free (concat chunks) = true ->
    let started := gitg_runner_run argv w m in
    let reading := main_loop (map Some chunks) status (machine_of started) in
    let stopped := gitg_runner_cancel (machine_of reading) in
    let after := main_context_iteration late status (machine_of stopped) in
    emitted_lines (signals_of reading)
    = complete_lines (preserve_line_endings (priv m)) (concat chunks)
    /\ forallb is_update (signals_of reading) = true
    /\ gitg_runner_running (priv (machine_of reading)) = true
    /\ signals_of stopped = [END_LOADING true]
    /\ rest_buffer (priv (machine_of stopped)) = []
    /\ signals_of after = []
    /\ priv (machine_of after) = priv (machine_of stopped)
    /\ main_context (machine_of after) = [].
Proof.
  intros m argv w child stdinf stdoutf chunks late status Hasync
         (Hrun & Hpid & Hrest & Hq & Hfresh) Hspawn Hne Htext Hnul
         started reading stopped after.
  subst after stopped reading started.
  assert (Hidle : input_stream (priv m) = None)
    by (unfold gitg_runner_running in Hrun;
        destruct (input_stream (priv m)); [discriminate | reflexivity]).
  unfold gitg_runner_run.
  rewrite (gitg_runner_run_with_arguments_started None argv None w m
             child stdinf stdoutf Hspawn).
  cbv zeta. rewrite Hasync, Hq.
  rewrite (spawned_machine_idle m child
             (Some (g_unix_input_stream_new stdoutf)) None Hidle).
  cbn [result_of machine_of signals_of fst snd app first_request].
  set (ms := with_priv (attach_streams (Some (g_unix_input_stream_new stdoutf))
                                       None)
                       (with_priv (set_pid (Z.pos child)) m)).
  set (d := async_data_new (cancellable (priv ms))).
  set (m1 := with_queue
               [g_input_stream_read_async (input_stream (priv ms))
                  (cancellable (priv ms)) d] ms).
  assert (Hlive : existsb (Nat.eqb (data_cancellable d)) (cancelled m1) = false)
    by (destruct Hfresh as (_ & Hl & _); exact Hl).
  destruct (main_loop_reading chunks status m1 _ _ d eq_refl Hlive Hne)
    as (Hsig & Hst & (s' & c' & Hq') & Hset & Hin).
  destruct (passes_segments chunks m1) as [Hlines _];
    [ change (rest_buffer (priv m1)) with (rest_buffer (priv m));
      rewrite Hrest; reflexivity
    | change (rest_buffer (priv m1)) with (rest_buffer (priv m));
      rewrite Hrest; exact Htext
    | change (rest_buffer (priv m1)) with (rest_buffer (priv m));
      rewrite Hrest; exact Hnul
    | ].
  change (rest_buffer (priv m1)) with (rest_buffer (priv m)) in Hlines.
  change (preserve_line_endings (priv m1))
    with (preserve_line_endings (priv m)) in Hlines.
  rewrite Hrest in Hlines. cbn [app] in Hlines.
  set (m2 := machine_of (main_loop (map Some chunks) status m1)) in *.
  assert (Hin2 : input_stream (priv m2)
                 = Some (g_converter_input_stream_new
                           (g_unix_input_stream_new stdoutf)))
    by (rewrite Hin; reflexivity).
  assert (Hc2 : cancellable (priv m2) = data_cancellable d)
    by (unfold settings in Hset; injection Hset as Hc _ _ _ _ _ _; exact Hc).
  rewrite (gitg_runner_cancel_running m2 _ Hin2).
  cbn [signals_of machine_of fst snd].
  rewrite (main_context_iteration_read s' c' d [] late status
             (cancel_machine m2) Hq').
  unfold read_output_ready. rewrite bind_is_cancelled.
  cbn [with_queue cancel_machine cancelled existsb priv].
  rewrite Hc2, Nat.eqb_refl. cbn [orb].
  split; [rewrite Hsig; exact Hlines |].
  split; [rewrite Hsig; apply passes_signals |].
  split; [unfold gitg_runner_running; rewrite Hin2; reflexivity |].
  repeat split; reflexivity.
Qed.

Lemma cancel_keeps_delivered_lines_witness :
  let w := mkWorld (fun _ _ _ _ => Some (7%positive, 3%Z, 4%Z)) true [] 0 in
  let reading :=
    main_loop (map Some [txt [97; 10; 98]; txt [99]]) 0
              (machine_of (gitg_runner_run [txt [103]] w (gitg_runner_new 16))) in
  emitted_lines (signals_of reading)
  = complete_lines false (txt [97; 10; 98; 99]).
Proof.
  intros w reading.
  assert (Hnew : idle_ready (gitg_runner_new 16)).
  { unfold idle_ready, cancellable_fresh. cbn.
    repeat split; [lia | constructor]. }
  destruct (cancel_keeps_delivered_lines
              (gitg_runner_new 16) [txt [103]] w 7%positive 3%Z 4%Z
              [txt [97; 10; 98]; txt [99]] (Some (txt [10])) 0%Z
              eq_refl Hnew eq_refl)
    as (H & _).
  - repeat constructor; discriminate.
  - vm_compute. reflexivity.
  - vm_compute. reflexivity.
  - exact H.
Defined.
